(** * Metabase garbage collection: expired and zombie object deletion

    A shallow embedding of [satellite/metabase]'s [DeleteExpiredObjects],
    [DeleteZombieObjects], [deleteObjectsAndSegmentsBatch] and
    [deleteObjectsAndSegments], over a small model of the two tables they
    touch ([objects] and [segments]) and of the SQL session that executes the
    pipelined delete batch. *)

From Stdlib Require Import ZArith NArith String Ascii Bool Lia.
From Stdlib Require Import OrderedTypeEx List Permutation Sorted.
Import ListNotations.

Set Implicit Arguments.

(* ================================================================== *)
(** * Data model *)

(** [uuid.UUID] is a [[16]byte].  It is read as a big-endian 128-bit number:
    on 16-byte values the BYTEA order of the database is the numeric order,
    and [IsZero] is equality with the all-zero array. *)
Definition UUID := N.

Definition IsZero (u : UUID) : bool := N.eqb u 0.

(** [time.Time], as an instant on the time line.  A nullable timestamp column
    is an [option Time]. *)
Definition Time := Z.

(** [ObjectStream]: the location of an object together with its stream. *)
Record ObjectStream := {
  ProjectID : UUID;
  BucketName : string;
  ObjectKey : string;
  Version : Z;
  StreamID : UUID
}.

(** The zero value [ObjectStream{}], which is also the initial cursor
    ([var startAfter ObjectStream]). *)
Definition zeroObjectStream : ObjectStream :=
  {| ProjectID := 0%N; BucketName := ""; ObjectKey := ""; Version := 0%Z;
     StreamID := 0%N |}.

(** Object status; [pendingStatus] is the one the zombie query names. *)
Inductive ObjectStatus := Pending | Committed.

Definition status_eqb (a b : ObjectStatus) : bool :=
  match a, b with
  | Pending, Pending | Committed, Committed => true
  | _, _ => false
  end.

Definition pendingStatus : ObjectStatus := Pending.

(** A row of the [objects] table, with the columns the queries read. *)
Record ObjectRow := {
  project_id : UUID;
  bucket_name : string;
  object_key : string;
  version : Z;
  stream_id : UUID;
  status : ObjectStatus;
  expires_at : option Time;
  zombie_deletion_deadline : option Time
}.

(** A row of the [segments] table. *)
Record SegmentRow := {
  seg_stream_id : UUID;
  seg_position : Z
}.

(** The two tables of the metadata store. *)
Record Tables := {
  objects : list ObjectRow;
  segments : list SegmentRow
}.

(* ------------------------------------------------------------------ *)
(** ** The key tuple and its order *)

(** [(project_id, bucket_name, object_key, version)], the primary key of
    [objects]. *)
Definition Key := (UUID * string * string * Z)%type.

Definition row_key (r : ObjectRow) : Key :=
  (project_id r, bucket_name r, object_key r, version r).

Definition stream_key (o : ObjectStream) : Key :=
  (ProjectID o, BucketName o, ObjectKey o, Version o).

(** What [rows.Scan(&last.ProjectID, ..., &last.StreamID)] stores in [last]. *)
Definition row_stream (r : ObjectRow) : ObjectStream :=
  {| ProjectID := project_id r; BucketName := bucket_name r;
     ObjectKey := object_key r; Version := version r;
     StreamID := stream_id r |}.

(** Lexicographic combination of two comparisons. *)
Definition lex (c1 c2 : comparison) : comparison :=
  match c1 with Eq => c2 | _ => c1 end.

(** SQL row comparison [(a, b, c, d) ? (a', b', c', d')]: component by
    component, bytes compared as unsigned, shorter prefix first. *)
Definition key_compare (a b : Key) : comparison :=
  let '(p1, b1, o1, v1) := a in
  let '(p2, b2, o2, v2) := b in
  lex (N.compare p1 p2)
      (lex (String.compare b1 b2)
           (lex (String.compare o1 o2) (Z.compare v1 v2))).

Definition key_ltb (a b : Key) : bool :=
  match key_compare a b with Lt => true | _ => false end.

Definition key_eqb (a b : Key) : bool :=
  match key_compare a b with Eq => true | _ => false end.

(** [ORDER BY project_id, bucket_name, object_key, version]: insertion sort
    of the selected rows on the key tuple. *)
Fixpoint insertRow (r : ObjectRow) (l : list ObjectRow) : list ObjectRow :=
  match l with
  | [] => [r]
  | x :: t =>
      if key_ltb (row_key x) (row_key r) then x :: insertRow r t else r :: l
  end.

Fixpoint orderByKey (l : list ObjectRow) : list ObjectRow :=
  match l with
  | [] => []
  | r :: t => insertRow r (orderByKey t)
  end.

(** Strict and large order of two rows on their key tuples. *)
Definition row_lt (a b : ObjectRow) : Prop :=
  key_ltb (row_key a) (row_key b) = true.

Definition row_le (a b : ObjectRow) : Prop :=
  key_ltb (row_key b) (row_key a) = false.

(** [column < $n] on a nullable column: NULL compares to NULL, which a WHERE
    clause treats as not satisfied. *)
Definition sql_lt (c : option Time) (bound : Time) : bool :=
  match c with
  | Some t => (t <? bound)%Z
  | None => false
  end.

(* ================================================================== *)
(** * Errors, the environment and the world *)

(** The database operations that can fail, addressed by their position in the
    run: the [q]-th SELECT, the scan of its [k]-th row, the acquisition of the
    connection for the [b]-th batch, the [i]-th statement of that batch. *)
Inductive Op :=
| OpQuery (q : nat)
| OpScan (q k : nat)
| OpConn (b : nat)
| OpStmt (b i : nat).

Unset Elimination Schemes.
Inductive error :=
| ErrDB (op : Op)                      (* the error the failed operation raised *)
| ErrTxnAborted                        (* statement refused: transaction is aborted *)
| ErrMakeslice                         (* panic: makeslice: cap out of range *)
| ErrGroup (es : list error)           (* errs.Group with several errors *)
| ErrWrap (msg : string) (e : error).  (* Error.New("...: %w", err) *)
Set Elimination Schemes.

(** [errs.Group.Err]: nil without errors, the error itself when there is one,
    the combination otherwise. *)
Definition Group_Err (es : list error) : option error :=
  match es with
  | [] => None
  | [e] => Some e
  | _ => Some (ErrGroup es)
  end.

(** What the code takes from outside this file. *)
Record Env := {
  (** [intLimitRange.Ensure]: [Ensure limit v] is the value [*v] holds after
      [limit.Ensure(&v)].  Its body is not part of these sources. *)
  Ensure : Z -> Z -> Z;
  (** [db.impl.AsOfSystemTime(t)]: [None] when the clause is empty and the
      SELECT reads the current table, [Some rows] when the SELECT reads the
      [objects] table as it was at [t]. *)
  AsOfSystemTime : Time -> option (list ObjectRow);
  (** Which database operations fail. *)
  fails : Op -> bool
}.

(** One line of [db.log.Info]. *)
Record LogEntry := {
  log_msg : string;
  log_stream : ObjectStream;
  log_expired_at : option Time
}.

(** One SELECT as the database saw it: cursor, LIMIT, and the page it
    returned. *)
Record QueryEvent := {
  q_startAfter : ObjectStream;
  q_limit : Z;
  q_page : list ObjectRow
}.

(** The four statements the batch queues. *)
Inductive Stmt :=
| StartTransaction
| DeleteObject (obj : ObjectStream)
| DeleteSegments (sid : UUID)
| CommitTransaction.

(** Everything the pass reads or changes. *)
Record World := {
  tables : Tables;
  object_delete : Z;                (* mon.Meter("object_delete") *)
  segment_delete : Z;               (* mon.Meter("segment_delete") *)
  log : list LogEntry;              (* db.log *)
  queries : list QueryEvent;        (* SELECTs issued, oldest first *)
  batches : list (list Stmt)        (* batches sent, oldest first *)
}.

Definition set_tables (t : Tables) (w : World) : World :=
  {| tables := t; object_delete := object_delete w;
     segment_delete := segment_delete w; log := log w;
     queries := queries w; batches := batches w |}.

Definition mark_meters (o s : Z) (w : World) : World :=
  {| tables := tables w; object_delete := (object_delete w + o)%Z;
     segment_delete := (segment_delete w + s)%Z; log := log w;
     queries := queries w; batches := batches w |}.

Definition add_log (e : LogEntry) (w : World) : World :=
  {| tables := tables w; object_delete := object_delete w;
     segment_delete := segment_delete w; log := log w ++ [e];
     queries := queries w; batches := batches w |}.

Definition add_query (e : QueryEvent) (w : World) : World :=
  {| tables := tables w; object_delete := object_delete w;
     segment_delete := segment_delete w; log := log w;
     queries := queries w ++ [e]; batches := batches w |}.

Definition add_batch (b : list Stmt) (w : World) : World :=
  {| tables := tables w; object_delete := object_delete w;
     segment_delete := segment_delete w; log := log w;
     queries := queries w; batches := batches w ++ [b] |}.

(** A Go result [(v, err)]. *)
Inductive Res (A : Type) :=
| Ok (v : A)
| Err (e : error).
Arguments Ok {A} v.
Arguments Err {A} e.

(** Computations over the world that may return an error. *)
Definition M (A : Type) := World -> Res A * World.

Definition ret {A} (v : A) : M A := fun w => (Ok v, w).
Definition fail {A} (e : error) : M A := fun w => (Err e, w).
Definition bind {A B} (c : M A) (k : A -> M B) : M B :=
  fun w => match c w with
           | (Ok v, w') => k v w'
           | (Err e, w') => (Err e, w')
           end.
Definition modify (f : World -> World) : M unit := fun w => (Ok tt, f w).

(** [if err != nil { return ..., Error.New(msg, err) }] around [c]. *)
Definition wrapErr {A} (msg : string) (c : M A) : M A :=
  fun w => match c w with
           | (Err e, w') => (Err (ErrWrap msg e), w')
           | r => r
           end.

Declare Scope gc_scope.
Notation "x <- c ;; k" := (bind c (fun x => k))
  (at level 61, c at next level, right associativity) : gc_scope.
Notation "' pat <- c ;; k" :=
  (bind c (fun x => match x with pat => k end))
  (at level 61, pat pattern, c at next level, right associativity) : gc_scope.
Notation "c ;;; k" := (bind c (fun _ => k))
  (at level 61, right associativity) : gc_scope.
Local Open Scope gc_scope.

(* ================================================================== *)
(** * The SQL session that executes a batch *)

(** [DELETE FROM objects WHERE (project_id, bucket_name, object_key, version)
    = ($1, $2, $3, $4) AND stream_id = $5]. *)
Definition object_matches (obj : ObjectStream) (r : ObjectRow) : bool :=
  key_eqb (row_key r) (stream_key obj) && N.eqb (stream_id r) (StreamID obj).

(** [DELETE FROM segments WHERE segments.stream_id = $1]. *)
Definition segment_matches (sid : UUID) (s : SegmentRow) : bool :=
  N.eqb (seg_stream_id s) sid.

Definition delete_object (obj : ObjectStream) (t : Tables) : Tables :=
  {| objects := filter (fun r => negb (object_matches obj r)) (objects t);
     segments := segments t |}.

Definition delete_segments (sid : UUID) (t : Tables) : Tables :=
  {| objects := objects t;
     segments := filter (fun s => negb (segment_matches sid s)) (segments t) |}.

(** The rows a DELETE removes: its [RowsAffected]. *)
Definition rows_affected (s : Stmt) (t : Tables) : Z :=
  match s with
  | DeleteObject obj =>
      Z.of_nat (length (filter (object_matches obj) (objects t)))
  | DeleteSegments sid =>
      Z.of_nat (length (filter (segment_matches sid) (segments t)))
  | StartTransaction | CommitTransaction => 0%Z
  end.

Definition apply_stmt (s : Stmt) (t : Tables) : Tables :=
  match s with
  | DeleteObject obj => delete_object obj t
  | DeleteSegments sid => delete_segments sid t
  | StartTransaction | CommitTransaction => t
  end.

(** Transaction state of the connection: outside a transaction, inside one
    with its uncommitted working copy, or inside one that has failed. *)
Inductive Txn :=
| NoTxn
| InTxn (working : Tables)
| AbortedTxn.

Record Session := {
  committed : Tables;
  txn : Txn
}.

(** [results.Exec()] for one statement: a command tag or an error. *)
Inductive ExecResult :=
| CommandTag (rowsAffected : Z)
| ExecErr (e : error).

(** One statement on the session.  [failed] says that the database raises an
    error at this statement.  A failure inside a transaction aborts it; an
    aborted transaction refuses statements until it ends; COMMIT ends the
    transaction, making the working copy the committed state, or discarding
    it when the transaction is aborted or the COMMIT itself fails. *)
Definition exec_stmt (failed : bool) (op : Op) (s : Stmt) (ss : Session)
  : ExecResult * Session :=
  if failed then
    (ExecErr (ErrDB op),
     match s, txn ss with
     | CommitTransaction, _ => {| committed := committed ss; txn := NoTxn |}
     | _, NoTxn => ss
     | _, _ => {| committed := committed ss; txn := AbortedTxn |}
     end)
  else
    match s, txn ss with
    | StartTransaction, NoTxn =>
        (CommandTag 0, {| committed := committed ss; txn := InTxn (committed ss) |})
    | StartTransaction, InTxn _ => (CommandTag 0, ss)
    | CommitTransaction, NoTxn => (CommandTag 0, ss)
    | CommitTransaction, InTxn w =>
        (CommandTag 0, {| committed := w; txn := NoTxn |})
    | CommitTransaction, AbortedTxn =>
        (CommandTag 0, {| committed := committed ss; txn := NoTxn |})
    | _, AbortedTxn => (ExecErr ErrTxnAborted, ss)
    | _, NoTxn =>
        (CommandTag (rows_affected s (committed ss)),
         {| committed := apply_stmt s (committed ss); txn := NoTxn |})
    | _, InTxn w =>
        (CommandTag (rows_affected s w),
         {| committed := committed ss; txn := InTxn (apply_stmt s w) |})
    end.

(** The statements of batch [b] from index [i] on, in order.  Which of them
    the database fails is read from [fails env]; a statement that fails
    changes nothing of the committed state.  The batch of the program is one
    pipeline, in which the statements after a failed one are not run and
    their results are errors as well: that is an environment whose failures
    are upward closed within the batch ([pipelined], below).  What is proved
    for every environment holds for the pipelined ones. *)
Fixpoint exec_from (env : Env) (b i : nat) (stmts : list Stmt) (ss : Session)
  : list ExecResult * Session :=
  match stmts with
  | [] => ([], ss)
  | s :: rest =>
      let '(r, ss1) := exec_stmt (fails env (OpStmt b i)) (OpStmt b i) s ss in
      let '(rs, ss2) := exec_from env b (S i) rest ss1 in
      (r :: rs, ss2)
  end.

(** [conn.SendBatch(ctx, &batch)] on a fresh connection: one result for each
    queued statement; what a transaction left open has not committed is lost
    with the connection. *)
Definition SendBatch (env : Env) (b : nat) (stmts : list Stmt) (t : Tables)
  : list ExecResult * Tables :=
  let '(rs, ss) := exec_from env b 0 stmts {| committed := t; txn := NoTxn |} in
  (rs, committed ss).

(* ------------------------------------------------------------------ *)
(** ** Units of a batch *)

(** Both DELETEs of one object's unit. *)
Definition unit_effect (obj : ObjectStream) (t : Tables) : Tables :=
  delete_segments (StreamID obj) (delete_object obj t).

(** The statements of one object's unit in batch [b] are those at
    [4 * j .. 4 * j + 3]; the unit goes through when none of them fails. *)
Definition unit_ok (env : Env) (b j : nat) : bool :=
  negb (fails env (OpStmt b (4 * j)))
  && negb (fails env (OpStmt b (4 * j + 1)))
  && negb (fails env (OpStmt b (4 * j + 2)))
  && negb (fails env (OpStmt b (4 * j + 3))).

(** The objects of a page, from unit [j] on, whose unit goes through. *)
Fixpoint committed_units (env : Env) (b j : nat) (objs : list ObjectStream)
  : list ObjectStream :=
  match objs with
  | [] => []
  | o :: rest =>
      if unit_ok env b j then o :: committed_units env b (S j) rest
      else committed_units env b (S j) rest
  end.

(** A START TRANSACTION that fails takes the two DELETEs of its unit with
    it: once a statement of a pipelined batch has failed the following ones
    are not run on their own outside a transaction. *)
Definition start_failure_is_fatal (env : Env) (b : nat) : Prop :=
  forall j, fails env (OpStmt b (4 * j)) = true ->
            fails env (OpStmt b (4 * j + 1)) = true /\
            fails env (OpStmt b (4 * j + 2)) = true.

(** The batch as the program sends it, in one pipeline: once a statement has
    failed, every statement after it in the batch fails too. *)
Definition pipelined (env : Env) (b : nat) : Prop :=
  forall i j, i <= j -> fails env (OpStmt b i) = true ->
              fails env (OpStmt b j) = true.

(** Rows of either table that the units of [objs] remove. *)
Definition page_deletes_object (objs : list ObjectStream) (r : ObjectRow) : bool :=
  existsb (fun o => object_matches o r) objs.

Definition page_deletes_segment (objs : list ObjectStream) (s : SegmentRow) : bool :=
  existsb (fun o => segment_matches (StreamID o) s) objs.

(** The tables once the units of [objs] have all gone through. *)
Definition delete_page (objs : list ObjectStream) (t : Tables) : Tables :=
  {| objects := filter (fun r => negb (page_deletes_object objs r)) (objects t);
     segments := filter (fun s => negb (page_deletes_segment objs s)) (segments t) |}.

(** [t'] is [t] with some of the rows that the units of [objs] name
    removed, and nothing else changed. *)
Definition within_page (objs : list ObjectStream) (t t' : Tables) : Prop :=
  (exists g, objects t' = filter g (objects t) /\
             forall r, g r = false -> page_deletes_object objs r = true) /\
  (exists h, segments t' = filter h (segments t) /\
             forall s, h s = false -> page_deletes_segment objs s = true).

(** The statements a page queues. *)
Definition page_stmt (objs : list ObjectStream) (s : Stmt) : Prop :=
  match s with
  | DeleteObject o => In o objs
  | DeleteSegments sid => exists o, In o objs /\ sid = StreamID o
  | StartTransaction | CommitTransaction => True
  end.

(** The committed state and the working copy both stay within the page. *)
Definition session_within (objs : list ObjectStream) (t0 : Tables) (ss : Session) : Prop :=
  within_page objs t0 (committed ss) /\
  match txn ss with
  | InTxn w => within_page objs t0 w
  | _ => True
  end.

(** The errors among the results of a batch, in order. *)
Definition errors_of (rs : list ExecResult) : list error :=
  flat_map (fun r => match r with ExecErr e => [e] | CommandTag _ => [] end) rs.

(* ================================================================== *)
(** * The garbage-collection code *)

Definition deleteBatchsizeLimit : Z := 1000.

Record DeleteExpiredObjectsOpts := {
  ExpiredBefore : Time;
  Expired_AsOfSystemTime : Time;
  Expired_BatchSize : Z
}.

Record DeleteZombieObjectsOpts := {
  DeadlineBefore : Time;
  Zombie_AsOfSystemTime : Time;
  Zombie_BatchSize : Z
}.

(** [int64] addition, as [objectsDeleted += result.RowsAffected()] does
    it. *)
Definition int64_add (a b : Z) : Z :=
  ((a + b + 2 ^ 63) mod 2 ^ 64 - 2 ^ 63)%Z.

(** The locals of the result loop of [deleteObjectsAndSegments]. *)
Record Tally := {
  errlist : list error;
  objectsDeleted : Z;
  segmentsDeleted : Z
}.

(** One turn of [for i := 0; i < batch.Len(); i++]: [errlist.Add(err)], then
    [switch i % 3]. *)
Definition tally_step (i : nat) (r : ExecResult) (t : Tally) : Tally :=
  let errs' := match r with
               | ExecErr e => errlist t ++ [e]
               | CommandTag _ => errlist t
               end in
  match Nat.modulo i 3 with
  | 0 => (* start transcation *)
      {| errlist := errs'; objectsDeleted := objectsDeleted t;
         segmentsDeleted := segmentsDeleted t |}
  | 1 => (* delete objects *)
      {| errlist := errs';
         objectsDeleted := match r with
                           | CommandTag n => int64_add (objectsDeleted t) n
                           | ExecErr _ => objectsDeleted t
                           end;
         segmentsDeleted := segmentsDeleted t |}
  | 2 => (* delete segments *)
      {| errlist := errs'; objectsDeleted := objectsDeleted t;
         segmentsDeleted := match r with
                            | CommandTag n => int64_add (segmentsDeleted t) n
                            | ExecErr _ => segmentsDeleted t
                            end |}
  | _ => (* case 3: commit transaction *)
      {| errlist := errs'; objectsDeleted := objectsDeleted t;
         segmentsDeleted := segmentsDeleted t |}
  end.

Fixpoint tally_from (i : nat) (rs : list ExecResult) (t : Tally) : Tally :=
  match rs with
  | [] => t
  | r :: rest => tally_from (S i) rest (tally_step i r t)
  end.

(** The statements [batch.Queue] collects for a page. *)
Definition queue_unit (obj : ObjectStream) : list Stmt :=
  [StartTransaction; DeleteObject obj; DeleteSegments (StreamID obj);
   CommitTransaction].

Definition queue_batch (objs : list ObjectStream) : list Stmt :=
  flat_map queue_unit objs.

Definition msg_expired : string := "unable to delete expired objects: %w".
Definition msg_zombie : string := "unable to delete zombie objects: %w".

(** [deleteObjectsAndSegments].  The deferred
    [err = errs.Combine(err, results.Close())] assigns the result variable of
    the function while the callback returns, and [err = pgxutil.Conn(...)]
    then overwrites it with the callback's [errlist.Err()]: what [Close]
    returns does not reach the caller. *)
Definition deleteObjectsAndSegments (env : Env) (objs : list ObjectStream)
  : M unit :=
  match objs with
  | [] => ret tt
  | _ =>
      wrapErr msg_expired
        (fun w =>
           let b := length (batches w) in
           if fails env (OpConn b) then (Err (ErrDB (OpConn b)), w)
           else
             let batch := queue_batch objs in
             let '(results, t') := SendBatch env b batch (tables w) in
             let w1 := add_batch batch (set_tables t' w) in
             let t := tally_from 0 results
                        {| errlist := []; objectsDeleted := 0;
                           segmentsDeleted := 0 |} in
             let w2 := mark_meters (objectsDeleted t) (segmentsDeleted t) w1 in
             match Group_Err (errlist t) with
             | None => (Ok tt, w2)
             | Some e => (Err e, w2)
             end)
  end.

(** The SELECT of a batch: rows of the table the query reads, after the
    cursor and satisfying [sel], in key order, at most [batchsize] of
    them. *)
Definition select_page (source : list ObjectRow) (startAfter : ObjectStream)
    (sel : ObjectRow -> bool) (batchsize : Z) : list ObjectRow :=
  firstn (Z.to_nat batchsize)
    (orderByKey
       (filter (fun r => key_ltb (stream_key startAfter) (row_key r) && sel r)
          source)).

(** [make([]ObjectStream, 0, batchsize)]: the empty list, or a panic when
    [batchsize] is negative.  The panic is modelled as an error that ends
    the pass. *)
Definition make_objects (batchsize : Z) : M (list ObjectStream) :=
  fun w => if (batchsize <? 0)%Z then (Err ErrMakeslice, w) else (Ok [], w).

Definition QueryContext (env : Env) (asOf : Time) (startAfter : ObjectStream)
    (sel : ObjectRow -> bool) (batchsize : Z) : M (nat * list ObjectRow) :=
  fun w =>
    let q := length (queries w) in
    if fails env (OpQuery q) then (Err (ErrDB (OpQuery q)), w)
    else
      let source := match AsOfSystemTime env asOf with
                    | Some rows => rows
                    | None => objects (tables w)
                    end in
      let page := select_page source startAfter sel batchsize in
      (Ok (q, page),
       add_query {| q_startAfter := startAfter; q_limit := batchsize;
                    q_page := page |} w).

(** [for rows.Next() { rows.Scan(&last...); db.log.Info(...); objects =
    append(objects, last) }] over query [q], from row [k] on.  The result is
    the final [last] and the collected list. *)
Fixpoint scan_rows (env : Env) (msg : string) (entry : ObjectRow -> LogEntry)
    (q k : nat) (rows : list ObjectRow) (last : ObjectStream)
    (acc : list ObjectStream) : M (ObjectStream * list ObjectStream) :=
  match rows with
  | [] => ret (last, acc)
  | r :: rest =>
      if fails env (OpScan q k)
      then fail (ErrWrap msg (ErrDB (OpScan q k)))
      else
        modify (add_log (entry r)) ;;;
        scan_rows env msg entry q (S k) rest (row_stream r)
          (acc ++ [row_stream r])
  end.

Definition expired_sel (opts : DeleteExpiredObjectsOpts) (r : ObjectRow) : bool :=
  sql_lt (expires_at r) (ExpiredBefore opts).

Definition zombie_sel (opts : DeleteZombieObjectsOpts) (r : ObjectRow) : bool :=
  status_eqb (status r) pendingStatus
  && sql_lt (zombie_deletion_deadline r) (DeadlineBefore opts).

Definition expired_entry (r : ObjectRow) : LogEntry :=
  {| log_msg := "Deleting expired object"; log_stream := row_stream r;
     log_expired_at := expires_at r |}.

Definition zombie_entry (r : ObjectRow) : LogEntry :=
  {| log_msg := "Deleting zombie object"; log_stream := row_stream r;
     log_expired_at := None |}.

(** The [deleteBatch] closure of [DeleteExpiredObjects]. *)
Definition expired_deleteBatch (env : Env) (opts : DeleteExpiredObjectsOpts)
    (startAfter : ObjectStream) (batchsize : Z) : M ObjectStream :=
  expiredObjects0 <- make_objects batchsize ;;
  '(last, expiredObjects) <-
     wrapErr msg_expired
       ('(q, rows) <- QueryContext env (Expired_AsOfSystemTime opts) startAfter
                        (expired_sel opts) batchsize ;;
        scan_rows env msg_expired expired_entry q 0 rows zeroObjectStream
          expiredObjects0) ;;
  deleteObjectsAndSegments env expiredObjects ;;;
  ret last.

(** The [deleteBatch] closure of [DeleteZombieObjects]. *)
Definition zombie_deleteBatch (env : Env) (opts : DeleteZombieObjectsOpts)
    (startAfter : ObjectStream) (batchsize : Z) : M ObjectStream :=
  objects0 <- make_objects batchsize ;;
  '(last, objs) <-
     wrapErr msg_zombie
       ('(q, rows) <- QueryContext env (Zombie_AsOfSystemTime opts) startAfter
                        (zombie_sel opts) batchsize ;;
        scan_rows env msg_zombie zombie_entry q 0 rows zeroObjectStream
          objects0) ;;
  deleteObjectsAndSegments env objs ;;;
  ret last.

(** The [for { ... }] of [deleteObjectsAndSegmentsBatch]; [fuel] bounds the
    number of turns, [None] means it ran out. *)
Fixpoint batch_loop (fuel : nat)
    (deleteBatch : ObjectStream -> Z -> M ObjectStream)
    (startAfter : ObjectStream) (batchsize : Z) (w : World)
  : option (Res unit * World) :=
  match fuel with
  | O => None
  | S fuel' =>
      match deleteBatch startAfter batchsize w with
      | (Err e, w') => Some (Err e, w')
      | (Ok lastDeleted, w') =>
          if IsZero (StreamID lastDeleted) then Some (Ok tt, w')
          else batch_loop fuel' deleteBatch lastDeleted batchsize w'
      end
  end.

(** [deleteObjectsAndSegmentsBatch]. *)
Definition deleteObjectsAndSegmentsBatch (env : Env) (fuel : nat)
    (batchsize : Z) (deleteBatch : ObjectStream -> Z -> M ObjectStream)
    (w : World) : option (Res unit * World) :=
  batch_loop fuel deleteBatch zeroObjectStream
    (Ensure env deleteBatchsizeLimit batchsize) w.

(** [DB.DeleteExpiredObjects]. *)
Definition DeleteExpiredObjects (env : Env) (fuel : nat)
    (opts : DeleteExpiredObjectsOpts) (w : World) : option (Res unit * World) :=
  deleteObjectsAndSegmentsBatch env fuel (Expired_BatchSize opts)
    (expired_deleteBatch env opts) w.

(** [DB.DeleteZombieObjects]. *)
Definition DeleteZombieObjects (env : Env) (fuel : nat)
    (opts : DeleteZombieObjectsOpts) (w : World) : option (Res unit * World) :=
  deleteObjectsAndSegmentsBatch env fuel (Zombie_BatchSize opts)
    (zombie_deleteBatch env opts) w.

(* ================================================================== *)
(** * Vocabulary of the statements *)

(** The shape the two closures share: table snapshot, error text, log line
    and selection differ, the steps do not. *)
Definition gc_deleteBatch (env : Env) (asOf : Time) (msg : string)
    (entry : ObjectRow -> LogEntry) (sel : ObjectRow -> bool)
    (startAfter : ObjectStream) (batchsize : Z) : M ObjectStream :=
  objects0 <- make_objects batchsize ;;
  '(last, objs) <-
     wrapErr msg
       ('(q, rows) <- QueryContext env asOf startAfter sel batchsize ;;
        scan_rows env msg entry q 0 rows zeroObjectStream objects0) ;;
  deleteObjectsAndSegments env objs ;;;
  ret last.

(** The rows a SELECT of the pass reads from. *)
Definition read_source (env : Env) (asOf : Time) (w : World) : list ObjectRow :=
  match AsOfSystemTime env asOf with
  | Some rows => rows
  | None => objects (tables w)
  end.

(** What a turn that ran its SELECT leaves behind, whatever failed after
    it. *)
Definition turn_ran (env : Env) (asOf : Time) (entry : ObjectRow -> LogEntry)
    (sel : ObjectRow -> bool) (c : ObjectStream) (n : Z) (w : World)
    (r : Res ObjectStream) (w' : World) : Prop :=
  let page := select_page (read_source env asOf w) c sel n in
  (0 <= n)%Z /\
  queries w' = queries w ++
                 [{| q_startAfter := c; q_limit := n; q_page := page |}] /\
  within_page (map row_stream page) (tables w) (tables w') /\
  (exists j, log w' = log w ++ map entry (firstn j page)) /\
  match r with
  | Ok l => l = List.last (map row_stream page) zeroObjectStream
  | Err _ => page <> []
  end.

(** The same environment with no failing operation. *)
Definition quiet (env : Env) : Env :=
  {| Ensure := Ensure env; AsOfSystemTime := AsOfSystemTime env;
     fails := fun _ => false |}.

(** The same loop as a relation between the cursor and world it starts
    from and the result and world it ends with. *)
Inductive Run (deleteBatch : ObjectStream -> Z -> M ObjectStream) (n : Z)
  : ObjectStream -> World -> Res unit -> World -> Prop :=
| Run_error c w e w' :
    deleteBatch c n w = (Err e, w') ->
    Run deleteBatch n c w (Err e) w'
| Run_done c w l w' :
    deleteBatch c n w = (Ok l, w') ->
    IsZero (StreamID l) = true ->
    Run deleteBatch n c w (Ok tt) w'
| Run_next c w l w1 r w' :
    deleteBatch c n w = (Ok l, w1) ->
    IsZero (StreamID l) = false ->
    Run deleteBatch n l w1 r w' ->
    Run deleteBatch n c w r w'.

(** The WHERE clause of a batch: after the cursor and selected. *)
Definition where_clause (sel : ObjectRow -> bool) (c : ObjectStream)
    (r : ObjectRow) : bool :=
  key_ltb (stream_key c) (row_key r) && sel r.

(** The cursors and the rows of a sequence of SELECTs, in the order they were
    issued and returned. *)
Definition key_lt (a b : Key) : Prop := key_ltb a b = true.

Definition cursor_keys (evs : list QueryEvent) : list Key :=
  map (fun e => stream_key (q_startAfter e)) evs.

Definition visited (evs : list QueryEvent) : list ObjectRow :=
  flat_map q_page evs.

(** A SELECT of a pass with LIMIT [n] and selection [sel]: at most [n] rows,
    all of them selected and strictly after the cursor. *)
Definition page_ok (sel : ObjectRow -> bool) (n : Z) (e : QueryEvent) : Prop :=
  q_limit e = n /\
  length (q_page e) <= Z.to_nat n /\
  Forall (fun r => key_lt (stream_key (q_startAfter e)) (row_key r) /\
                   sel r = true) (q_page e).

(** A SELECT that returns an empty page is the last one of its run, and
    the run then ends without error. *)
Fixpoint empty_page_ends (r : Res unit) (evs : list QueryEvent) : Prop :=
  match evs with
  | [] => True
  | e :: rest =>
      (q_page e = [] -> rest = [] /\ r = Ok tt) /\ empty_page_ends r rest
  end.

(** What holds of the SELECTs [evs] of a run started at cursor [c] in world
    [w]: pages within the LIMIT and after their cursor, cursors strictly
    increasing from [c], every row visited after [c], an empty page only at
    the end, and, with a primary key, rows visited in strictly increasing
    key order. *)
Definition trace_ok (env : Env) (asOf : Time) (sel : ObjectRow -> bool)
    (n : Z) (c : ObjectStream) (w : World) (r : Res unit)
    (evs : list QueryEvent) : Prop :=
  Forall (page_ok sel n) evs /\
  StronglySorted key_lt (cursor_keys evs) /\
  Forall (fun k => k = stream_key c \/ key_lt (stream_key c) k)
    (cursor_keys evs) /\
  Forall (fun x => key_lt (stream_key c) (row_key x)) (visited evs) /\
  empty_page_ends r evs /\
  (NoDup (map row_key (read_source env asOf w)) ->
   StronglySorted row_lt (visited evs)).

(** The tables once every selected row after the cursor is gone, with the
    segments of its stream. *)
Definition gc_result (sel : ObjectRow -> bool) (c : ObjectStream) (t : Tables)
  : Tables :=
  {| objects := filter (fun r => negb (where_clause sel c r)) (objects t);
     segments :=
       filter (fun s => negb (existsb (fun r => segment_matches (stream_id r) s)
                                (filter (where_clause sel c) (objects t))))
         (segments t) |}.

(** The sizes of the pages of a fault-free pass over [k] selected rows with
    LIMIT [n]: full pages, the rest, and the empty page that ends it. *)
Fixpoint page_sizes (fuel n k : nat) : list nat :=
  match fuel with
  | O => []
  | S fuel' =>
      match k with
      | O => [0]
      | _ => Nat.min n k :: page_sizes fuel' n (k - Nat.min n k)
      end
  end.

Definition nonempty_page (e : QueryEvent) : bool :=
  match q_page e with
  | [] => false
  | _ :: _ => true
  end.

(** What the metabase keeps true of the rows of [objects]: the key tuple is a
    primary key, every key tuple is above the zero cursor the loop starts
    from (a stored version is at least 1), and no stored stream id is the
    zero UUID. *)
Record well_formed (rows : list ObjectRow) : Prop := {
  wf_primary_key : NoDup (map row_key rows);
  wf_after_zero : forall r, In r rows ->
                            key_lt (stream_key zeroObjectStream) (row_key r);
  wf_stream_id : forall r, In r rows -> stream_id r <> 0%N
}.

(* ================================================================== *)
(** * The two passes, side by side *)

(** The two entry points share one mechanism; [Pass] names which one
    runs. *)
Inductive Pass :=
| ExpiredPass (opts : DeleteExpiredObjectsOpts)
| ZombiePass (opts : DeleteZombieObjectsOpts).

Definition run_pass (env : Env) (fuel : nat) (p : Pass) (w : World)
  : option (Res unit * World) :=
  match p with
  | ExpiredPass opts => DeleteExpiredObjects env fuel opts w
  | ZombiePass opts => DeleteZombieObjects env fuel opts w
  end.

Definition pass_sel (p : Pass) : ObjectRow -> bool :=
  match p with
  | ExpiredPass opts => expired_sel opts
  | ZombiePass opts => zombie_sel opts
  end.

Definition pass_asOf (p : Pass) : Time :=
  match p with
  | ExpiredPass opts => Expired_AsOfSystemTime opts
  | ZombiePass opts => Zombie_AsOfSystemTime opts
  end.

Definition pass_BatchSize (p : Pass) : Z :=
  match p with
  | ExpiredPass opts => Expired_BatchSize opts
  | ZombiePass opts => Zombie_BatchSize opts
  end.

Definition pass_msg (p : Pass) : string :=
  match p with
  | ExpiredPass _ => msg_expired
  | ZombiePass _ => msg_zombie
  end.

Definition pass_entry (p : Pass) : ObjectRow -> LogEntry :=
  match p with
  | ExpiredPass _ => expired_entry
  | ZombiePass _ => zombie_entry
  end.

(** The batch size the loop runs with, after [Ensure]. *)
Definition effective_batchsize (env : Env) (p : Pass) : Z :=
  Ensure env deleteBatchsizeLimit (pass_BatchSize p).

(** The same environment with other operations failing. *)
Definition with_fails (env : Env) (f : Op -> bool) : Env :=
  {| Ensure := Ensure env; AsOfSystemTime := AsOfSystemTime env; fails := f |}.

(** The tables once every selected row is gone, with the segments of its
    stream. *)
Definition gc_pass_result (sel : ObjectRow -> bool) (t : Tables) : Tables :=
  {| objects := filter (fun r => negb (sel r)) (objects t);
     segments :=
       filter (fun s => negb (existsb (fun r => segment_matches (stream_id r) s)
                                (filter sel (objects t))))
         (segments t) |}.

(** A decision procedure for [well_formed]. *)
Fixpoint distinct_keys (rows : list ObjectRow) : bool :=
  match rows with
  | [] => true
  | r :: rest =>
      negb (existsb (fun x => key_eqb (row_key r) (row_key x)) rest)
      && distinct_keys rest
  end.

Definition well_formedb (rows : list ObjectRow) : bool :=
  distinct_keys rows
  && forallb (fun r => key_ltb (stream_key zeroObjectStream) (row_key r)
                       && negb (IsZero (stream_id r))) rows.

(** An [Ensure] that keeps a value already within [1, limit], for the
    examples. *)
Definition keepEnsure (limit v : Z) : Z :=
  if ((v <=? 0) || (limit <? v))%Z then limit else v.

(** The [deleteBatch] closure of a pass. *)
Definition pass_deleteBatch (env : Env) (p : Pass)
  : ObjectStream -> Z -> M ObjectStream :=
  match p with
  | ExpiredPass opts => expired_deleteBatch env opts
  | ZombiePass opts => zombie_deleteBatch env opts
  end.

(** The page the SELECT of the next turn returns, and the results of the
    batch that turn sends for it. *)
Definition next_page (env : Env) (p : Pass) (c : ObjectStream) (w : World)
  : list ObjectRow :=
  select_page (read_source env (pass_asOf p) w) c (pass_sel p)
    (effective_batchsize env p).

Definition next_results (env : Env) (p : Pass) (c : ObjectStream) (w : World)
  : list ExecResult :=
  fst (SendBatch env (length (batches w))
         (queue_batch (map row_stream (next_page env p c w))) (tables w)).

(* ================================================================== *)
(** * A small store for the examples *)

Definition mk_row (k : string) (sid : UUID) (st : ObjectStatus)
    (e z : option Time) : ObjectRow :=
  {| project_id := 1%N; bucket_name := "bucket"; object_key := k;
     version := 1%Z; stream_id := sid; status := st; expires_at := e;
     zombie_deletion_deadline := z |}.

Definition mk_seg (sid : UUID) (pos : Z) : SegmentRow :=
  {| seg_stream_id := sid; seg_position := pos |}.

Definition mk_world (rows : list ObjectRow) (segs : list SegmentRow) : World :=
  {| tables := {| objects := rows; segments := segs |};
     object_delete := 0%Z; segment_delete := 0%Z; log := []; queries := [];
     batches := [] |}.

(** Nothing fails, the SELECT reads the current table. *)
Definition env_ok : Env :=
  {| Ensure := keepEnsure; AsOfSystemTime := fun _ => None;
     fails := fun _ => false |}.

Definition row_a := mk_row "a" 1%N Committed (Some 1%Z) None.
Definition row_b := mk_row "b" 2%N Pending (Some 2%Z) (Some 100%Z).
Definition row_c := mk_row "c" 3%N Committed (Some 3%Z) None.
Definition row_d := mk_row "d" 4%N Committed (Some 4%Z) None.
Definition row_e := mk_row "e" 5%N Committed (Some 5%Z) None.
Definition row_f := mk_row "f" 6%N Committed None None.
Definition row_g := mk_row "g" 7%N Pending None (Some 5%Z).
Definition row_h := mk_row "h" 8%N Pending None (Some 50%Z).

(** A fresh upload under the key of [row_a], with another stream. *)
Definition row_a2 := mk_row "a" 9%N Pending None (Some 200%Z).

(** Five rows with a lapsed [expires_at] (one of them Pending), one that
    never expires, one zombie and one upload still within its deadline. *)
Definition example_world : World :=
  mk_world [row_e; row_a; row_h; row_c; row_b; row_g; row_d; row_f]
    [mk_seg 1%N 0%Z; mk_seg 1%N 1%Z; mk_seg 2%N 0%Z; mk_seg 3%N 0%Z;
     mk_seg 4%N 0%Z; mk_seg 5%N 0%Z; mk_seg 6%N 0%Z; mk_seg 7%N 0%Z;
     mk_seg 8%N 0%Z].

Definition expired_opts (batchsize : Z) : DeleteExpiredObjectsOpts :=
  {| ExpiredBefore := 10%Z; Expired_AsOfSystemTime := 0%Z;
     Expired_BatchSize := batchsize |}.

Definition zombie_opts (batchsize : Z) : DeleteZombieObjectsOpts :=
  {| DeadlineBefore := 10%Z; Zombie_AsOfSystemTime := 0%Z;
     Zombie_BatchSize := batchsize |}.

(** The world a run ends in; the starting world when it runs out of
    fuel. *)
Definition world_after (w : World) (o : option (Res unit * World)) : World :=
  match o with
  | Some (_, w') => w'
  | None => w
  end.

(** Two expired rows, the first with one segment and the second with two. *)
Definition two_rows_world : World :=
  mk_world [row_a; row_c] [mk_seg 1%N 0%Z; mk_seg 3%N 0%Z; mk_seg 3%N 1%Z].

(** Three expired rows; the DELETE of the first row of the first batch
    fails. *)
Definition three_rows_world : World :=
  mk_world [row_a; row_c; row_d]
    [mk_seg 1%N 0%Z; mk_seg 3%N 0%Z; mk_seg 4%N 0%Z].

Definition env_first_delete_fails : Env :=
  {| Ensure := keepEnsure; AsOfSystemTime := fun _ => None;
     fails := fun op => match op with
                        | OpStmt 0 1 => true
                        | _ => false
                        end |}.

(** The same failure in the pipeline of the first batch: the DELETE of the
    first row fails and with it every statement after it. *)
Definition env_pipeline_breaks : Env :=
  {| Ensure := keepEnsure; AsOfSystemTime := fun _ => None;
     fails := fun op => match op with
                        | OpStmt 0 (S _) => true
                        | _ => false
                        end |}.

(** The table after [row_a] was scanned, deleted by its uploader and uploaded
    again under the same key with a new stream. *)
Definition recreated_world : World :=
  mk_world [row_a2; row_c] [mk_seg 1%N 0%Z; mk_seg 9%N 0%Z; mk_seg 3%N 0%Z].

(** The SELECT reads the table as it was before [row_a] was uploaded
    again. *)
Definition env_stale_read : Env :=
  {| Ensure := keepEnsure; AsOfSystemTime := fun _ => Some [row_a; row_c];
     fails := fun _ => false |}.

(* ================================================================== *)
(** * Vocabulary of the further properties *)

(** Every row of [segments] belongs to a row of [objects]: the store holds
    no segment whose object is gone. *)
Definition segments_owned (t : Tables) : bool :=
  forallb (fun s => existsb (fun x => N.eqb (stream_id x) (seg_stream_id s))
                      (objects t))
    (segments t).

(** No two rows of [objects] share a stream. *)
Fixpoint distinct_streams (rows : list ObjectRow) : bool :=
  match rows with
  | [] => true
  | r :: rest =>
      negb (existsb (fun x => N.eqb (stream_id r) (stream_id x)) rest)
      && distinct_streams rest
  end.

(** The number of non-empty pages a pass reads over [k] selected rows with
    LIMIT [n]. *)
Definition pages_needed (n k : nat) : nat := (k + n - 1) / n.

(** A batch is the queue of a non-empty page one of the SELECTs [evs]
    returned. *)
Definition batch_of_page (evs : list QueryEvent) (b : list Stmt) : Prop :=
  exists e, In e evs /\ q_page e <> [] /\
            b = queue_batch (map row_stream (q_page e)).

(** The errors a pass can return: the panic of [make], a failed SELECT
    wrapped by the closure, a failed [Scan] wrapped by the callback and by
    the closure, and what [deleteObjectsAndSegments] returns, which carries
    the text of the expired pass in both passes. *)
Inductive pass_error (msg : string) : error -> Prop :=
| pass_error_make : pass_error msg ErrMakeslice
| pass_error_query q :
    pass_error msg (ErrWrap msg (ErrDB (OpQuery q)))
| pass_error_scan q k :
    pass_error msg (ErrWrap msg (ErrWrap msg (ErrDB (OpScan q k))))
| pass_error_conn b :
    pass_error msg (ErrWrap msg_expired (ErrDB (OpConn b)))
| pass_error_batch b rs e :
    Group_Err (errors_of rs) = Some e ->
    Forall (fun x => x = ErrTxnAborted \/ exists i, x = ErrDB (OpStmt b i))
      (errors_of rs) ->
    pass_error msg (ErrWrap msg_expired e).

(** A row whose stream id is the zero UUID, between [row_a] and [row_c]. *)
Definition row_z := mk_row "b" 0%N Committed (Some 2%Z) None.

Definition zero_stream_world : World :=
  mk_world [row_a; row_z; row_c] [mk_seg 1%N 0%Z; mk_seg 3%N 0%Z].

(** Two uploads whose deadline has lapsed. *)
Definition row_k := mk_row "k" 11%N Pending None (Some 1%Z).

Definition two_zombies_world : World := mk_world [row_g; row_k] [].

(** The scan of the second row of the first SELECT fails. *)
Definition env_scan_fails : Env :=
  {| Ensure := keepEnsure; AsOfSystemTime := fun _ => None;
     fails := fun op => match op with
                        | OpScan 0 1 => true
                        | _ => false
                        end |}.
(* ================================================================== *)
(** * The order on key tuples *)

Section KeyOrder.

Lemma lex_eq c1 c2 : lex c1 c2 = Eq <-> c1 = Eq /\ c2 = Eq.
Proof. destruct c1, c2; simpl; intuition congruence. Qed.

Lemma lex_opp c1 c2 : lex (CompOpp c1) (CompOpp c2) = CompOpp (lex c1 c2).
Proof. now destruct c1. Qed.

Lemma string_compare_refl s : String.compare s s = Eq.
Proof. now apply String_as_OT.cmp_eq. Qed.

Lemma string_compare_trans a b c :
  String.compare a b = Lt -> String.compare b c = Lt -> String.compare a c = Lt.
Proof.
  intros H1 H2. apply String_as_OT.cmp_lt.
  apply String_as_OT.lt_trans with b; now apply String_as_OT.cmp_lt.
Qed.

Lemma key_compare_refl k : key_compare k k = Eq.
Proof.
  destruct k as [[[p b] o] v]. simpl.
  now rewrite N.compare_refl, !string_compare_refl, Z.compare_refl.
Qed.

Lemma key_compare_eq a b : key_compare a b = Eq -> a = b.
Proof.
  destruct a as [[[p1 b1] o1] v1], b as [[[p2 b2] o2] v2]. simpl.
  rewrite !lex_eq. intros (Hp & Hb & Ho & Hv).
  apply N.compare_eq in Hp. apply String.compare_eq_iff in Hb, Ho.
  apply Z.compare_eq in Hv. now subst.
Qed.

Lemma key_compare_antisym a b : key_compare b a = CompOpp (key_compare a b).
Proof.
  destruct a as [[[p1 b1] o1] v1], b as [[[p2 b2] o2] v2]. simpl.
  rewrite (N.compare_antisym p1 p2), (String.compare_antisym b2 b1),
    (String.compare_antisym o2 o1), (Z.compare_antisym v1 v2).
  now rewrite !lex_opp.
Qed.

(** Transitivity of a lexicographic combination, from that of its parts. *)
Lemma lex_trans (c1 c2 c3 d1 d2 d3 : comparison) :
  (c1 = Eq -> c2 = c3) -> (c2 = Eq -> c1 = c3) ->
  (c1 = Lt -> c2 = Lt -> c3 = Lt) ->
  (c1 = Eq -> c2 = Eq -> d1 = Lt -> d2 = Lt -> d3 = Lt) ->
  lex c1 d1 = Lt -> lex c2 d2 = Lt -> lex c3 d3 = Lt.
Proof.
  destruct c1, c2; simpl; intros E1 E2 T D H1 H2; try discriminate.
  - rewrite <- E1 by reflexivity. simpl. auto.
  - rewrite <- E1 by reflexivity. reflexivity.
  - rewrite <- E2 by reflexivity. reflexivity.
  - rewrite T by reflexivity. reflexivity.
Qed.

Lemma key_compare_trans a b c :
  key_compare a b = Lt -> key_compare b c = Lt -> key_compare a c = Lt.
Proof.
  destruct a as [[[p1 b1] o1] v1], b as [[[p2 b2] o2] v2],
    c as [[[p3 b3] o3] v3]. simpl.
  apply lex_trans.
  - intros H. apply N.compare_eq in H. now subst.
  - intros H. apply N.compare_eq in H. now subst.
  - rewrite !N.compare_lt_iff. lia.
  - intros _ _. apply lex_trans.
    + intros H. apply String.compare_eq_iff in H. now subst.
    + intros H. apply String.compare_eq_iff in H. now subst.
    + apply string_compare_trans.
    + intros _ _. apply lex_trans.
      * intros H. apply String.compare_eq_iff in H. now subst.
      * intros H. apply String.compare_eq_iff in H. now subst.
      * apply string_compare_trans.
      * intros _ _. rewrite !Z.compare_lt_iff. lia.
Qed.

Lemma key_ltb_trans a b c :
  key_ltb a b = true -> key_ltb b c = true -> key_ltb a c = true.
Proof.
  unfold key_ltb. intros H1 H2.
  destruct (key_compare a b) eqn:E1; try discriminate.
  destruct (key_compare b c) eqn:E2; try discriminate.
  now rewrite (key_compare_trans _ _ _ E1 E2).
Qed.

Lemma key_ltb_irrefl a : key_ltb a a = false.
Proof. unfold key_ltb. now rewrite key_compare_refl. Qed.

Lemma key_ltb_asym a b : key_ltb a b = true -> key_ltb b a = false.
Proof.
  unfold key_ltb. rewrite (key_compare_antisym a b).
  now destruct (key_compare a b).
Qed.

Lemma key_ltb_total a b :
  key_ltb a b = false -> key_ltb b a = false -> a = b.
Proof.
  unfold key_ltb. rewrite (key_compare_antisym a b).
  destruct (key_compare a b) eqn:E; simpl; try discriminate.
  intros _ _. now apply key_compare_eq.
Qed.

Lemma key_eqb_eq a b : key_eqb a b = true <-> a = b.
Proof.
  unfold key_eqb. split.
  - destruct (key_compare a b) eqn:E; try discriminate.
    intros _. now apply key_compare_eq.
  - intros ->. now rewrite key_compare_refl.
Qed.

(** [a <= b] on keys, as the negation of [b < a]. *)
Lemma key_le_lt_trans a b c :
  key_ltb b a = false -> key_ltb b c = true -> key_ltb a c = true.
Proof.
  intros H1 H2. destruct (key_ltb a b) eqn:E.
  - eapply key_ltb_trans; eauto.
  - now rewrite (key_ltb_total _ _ E H1).
Qed.

Lemma key_lt_le_trans a b c :
  key_ltb a b = true -> key_ltb c b = false -> key_ltb a c = true.
Proof.
  intros H1 H2. destruct (key_ltb b c) eqn:E.
  - eapply key_ltb_trans; eauto.
  - now rewrite <- (key_ltb_total _ _ E H2).
Qed.

End KeyOrder.
(* ================================================================== *)
(** * ORDER BY and LIMIT *)

Section OrderBy.

Lemma insertRow_perm r l : Permutation (insertRow r l) (r :: l).
Proof.
  induction l as [|x t IH]; simpl; [reflexivity|].
  destruct (key_ltb (row_key x) (row_key r)); [|reflexivity].
  rewrite IH. apply perm_swap.
Qed.

Lemma orderByKey_perm l : Permutation (orderByKey l) l.
Proof.
  induction l as [|r t IH]; simpl; [reflexivity|].
  rewrite insertRow_perm. now constructor.
Qed.

Lemma orderByKey_In r l : In r (orderByKey l) <-> In r l.
Proof.
  split; apply Permutation_in;
    [apply orderByKey_perm | apply Permutation_sym, orderByKey_perm].
Qed.

Lemma orderByKey_length l : length (orderByKey l) = length l.
Proof. apply Permutation_length, orderByKey_perm. Qed.

Lemma insertRow_sorted r l :
  StronglySorted row_le l -> StronglySorted row_le (insertRow r l).
Proof.
  induction 1 as [|x t Hs IH Hx]; simpl.
  - repeat constructor.
  - destruct (key_ltb (row_key x) (row_key r)) eqn:E.
    + constructor; [exact IH|].
      apply Forall_forall. intros y Hy.
      apply (Permutation_in _ (insertRow_perm r t)) in Hy.
      destruct Hy as [<-|Hy].
      * now apply key_ltb_asym.
      * rewrite Forall_forall in Hx. now apply Hx.
    + constructor; [now constructor|].
      constructor; [exact E|].
      rewrite Forall_forall in Hx |- *. intros y Hy.
      specialize (Hx y Hy). unfold row_le in *.
      destruct (key_ltb (row_key y) (row_key r)) eqn:E2; [|reflexivity].
      now rewrite (key_lt_le_trans _ _ _ E2 E) in Hx.
Qed.

Lemma orderByKey_sorted l : StronglySorted row_le (orderByKey l).
Proof.
  induction l; simpl; [constructor | now apply insertRow_sorted].
Qed.

(** With a primary key, the order is strict. *)
Lemma sorted_le_lt l :
  NoDup (map row_key l) -> StronglySorted row_le l -> StronglySorted row_lt l.
Proof.
  induction l as [|x t IH]; intros Hnd Hs; [constructor|].
  inversion Hnd as [|? ? Hx Hnd']; subst.
  inversion Hs as [|? ? Hs' Hall]; subst.
  constructor; [now apply IH|].
  rewrite Forall_forall in Hall |- *. intros y Hy.
  specialize (Hall y Hy). unfold row_le, row_lt in *.
  destruct (key_ltb (row_key x) (row_key y)) eqn:E; [reflexivity|].
  exfalso. apply Hx. rewrite (key_ltb_total _ _ E Hall).
  now apply in_map.
Qed.

Lemma NoDup_keys_filter (f : ObjectRow -> bool) l :
  NoDup (map row_key l) -> NoDup (map row_key (filter f l)).
Proof.
  induction l as [|x t IH]; simpl; intros H; [constructor|].
  inversion H as [|? ? Hx Hnd]; subst.
  destruct (f x); simpl; [|now apply IH].
  constructor; [|now apply IH].
  intros Hin. apply Hx. apply in_map_iff in Hin.
  destruct Hin as (y & Hy & Hin). apply filter_In in Hin.
  apply in_map_iff. exists y. tauto.
Qed.

Lemma NoDup_keys_perm l l' :
  Permutation l l' -> NoDup (map row_key l) -> NoDup (map row_key l').
Proof.
  intros Hp. apply Permutation_NoDup. now apply Permutation_map.
Qed.

Lemma NoDup_keys_inj l a b :
  NoDup (map row_key l) -> In a l -> In b l -> row_key a = row_key b -> a = b.
Proof.
  induction l as [|x t IH]; simpl; [tauto|].
  intros H Ha Hb E. inversion H as [|? ? Hx Hnd]; subst.
  destruct Ha as [<-|Ha], Hb as [<-|Hb]; auto.
  - exfalso. apply Hx. rewrite E. now apply in_map.
  - exfalso. apply Hx. rewrite <- E. now apply in_map.
Qed.

Lemma in_firstn (A : Type) n (l : list A) x : In x (firstn n l) -> In x l.
Proof.
  intros H. rewrite <- (firstn_skipn n l). apply in_or_app. now left.
Qed.

Lemma in_skipn (A : Type) n (l : list A) x : In x (skipn n l) -> In x l.
Proof.
  intros H. rewrite <- (firstn_skipn n l). apply in_or_app. now right.
Qed.

Lemma sorted_firstn (R : ObjectRow -> ObjectRow -> Prop) n l :
  StronglySorted R l -> StronglySorted R (firstn n l).
Proof.
  revert l. induction n; intros l H; simpl; [constructor|].
  destruct l as [|x t]; [constructor|].
  inversion H; subst. constructor; [now apply IHn|].
  apply Forall_forall. intros y Hy. apply in_firstn in Hy.
  rewrite Forall_forall in *. auto.
Qed.

(** In a sorted list, what lies beyond the first [n] elements is above
    them. *)
Lemma sorted_firstn_skipn (R : ObjectRow -> ObjectRow -> Prop) n l x y :
  StronglySorted R l -> In x (firstn n l) -> In y (skipn n l) -> R x y.
Proof.
  revert l. induction n; intros l H Hx Hy; [now simpl in Hx|].
  destruct l as [|z t]; [now simpl in Hx|].
  inversion H as [|? ? Hs Hall]; subst.
  simpl in Hx, Hy. destruct Hx as [<-|Hx].
  - rewrite Forall_forall in Hall. apply Hall. eapply in_skipn; eauto.
  - eapply IHn; eauto.
Qed.

Lemma in_firstn_or_skipn (A : Type) n (l : list A) x :
  In x l -> In x (firstn n l) \/ In x (skipn n l).
Proof.
  intros H. rewrite <- (firstn_skipn n l) in H. now apply in_app_or.
Qed.

End OrderBy.

(* ================================================================== *)
(** * Executing a batch *)

Section Session.

Variable env : Env.

Lemma filter_filter (A : Type) (f g : A -> bool) l :
  filter g (filter f l) = filter (fun x => f x && g x) l.
Proof.
  induction l as [|x t IH]; simpl; [reflexivity|].
  destruct (f x); simpl; [destruct (g x)|]; now rewrite IH.
Qed.

Lemma filter_true (A : Type) (l : list A) : filter (fun _ => true) l = l.
Proof. induction l; simpl; congruence. Qed.

Lemma exec_from_app b i l1 l2 ss :
  exec_from env b i (l1 ++ l2) ss =
  let '(r1, s1) := exec_from env b i l1 ss in
  let '(r2, s2) := exec_from env b (i + length l1) l2 s1 in
  (r1 ++ r2, s2).
Proof.
  revert i ss. induction l1 as [|s t IH]; intros i ss; simpl.
  - rewrite Nat.add_0_r. now destruct (exec_from env b i l2 ss).
  - destruct (exec_stmt _ _ s ss) as [r ss1].
    rewrite IH. destruct (exec_from env b (S i) t ss1) as [r1 s1].
    replace (i + S (length t)) with (S i + length t) by lia.
    now destruct (exec_from env b (S i + length t) l2 s1).
Qed.

Lemma exec_from_length b i l ss : length (fst (exec_from env b i l ss)) = length l.
Proof.
  revert i ss. induction l as [|s t IH]; intros i ss; simpl; [reflexivity|].
  destruct (exec_stmt _ _ s ss) as [r ss1]. specialize (IH (S i) ss1).
  destruct (exec_from env b (S i) t ss1). simpl in *. now rewrite IH.
Qed.

(** ** One unit *)

(** A unit started outside a transaction ends outside a transaction; when
    all four statements go through both DELETEs are committed, and when one
    fails (a failed START taking the DELETEs with it) nothing is. *)
Lemma exec_unit b j obj t :
  (fails env (OpStmt b (4 * j)) = true ->
   fails env (OpStmt b (4 * j + 1)) = true /\
   fails env (OpStmt b (4 * j + 2)) = true) ->
  snd (exec_from env b (4 * j) (queue_unit obj) {| committed := t; txn := NoTxn |})
  = {| committed := if unit_ok env b j then unit_effect obj t else t;
       txn := NoTxn |}.
Proof.
  unfold unit_ok, queue_unit. generalize (4 * j). intros i.
  replace (i + 1) with (S i) by lia.
  replace (i + 2) with (S (S i)) by lia.
  replace (i + 3) with (S (S (S i))) by lia.
  intros Hstart. simpl.
  destruct (fails env (OpStmt b i)) eqn:F0.
  - destruct (Hstart eq_refl) as [F1 F2]. rewrite F1, F2.
    destruct (fails env (OpStmt b (S (S (S i))))); reflexivity.
  - destruct (fails env (OpStmt b (S i))),
      (fails env (OpStmt b (S (S i)))),
      (fails env (OpStmt b (S (S (S i))))); reflexivity.
Qed.

(** Two ways a batch meets [start_failure_is_fatal]: no START TRANSACTION
    fails, or, as when the statements are pipelined up to one Sync, every
    statement after a failed one fails too. *)
Lemma start_never_fails_is_fatal b :
  (forall j, fails env (OpStmt b (4 * j)) = false) ->
  start_failure_is_fatal env b.
Proof. intros H j Hj. rewrite H in Hj. discriminate. Qed.

Lemma pipelined_start_failure_is_fatal b :
  (forall i j, i <= j -> fails env (OpStmt b i) = true ->
               fails env (OpStmt b j) = true) ->
  start_failure_is_fatal env b.
Proof. intros H j Hj. split; apply (H (4 * j)); auto; lia. Qed.

Lemma delete_page_cons o objs t :
  delete_page (o :: objs) t = delete_page objs (unit_effect o t).
Proof.
  unfold delete_page, unit_effect, delete_segments, delete_object. simpl.
  rewrite !filter_filter. f_equal; apply filter_ext; intros x;
    unfold page_deletes_object, page_deletes_segment; simpl;
    now rewrite negb_orb.
Qed.

Lemma delete_page_nil t : delete_page [] t = t.
Proof.
  unfold delete_page. simpl. rewrite !filter_true. now destruct t.
Qed.

(** ** A whole page *)

Lemma exec_units b j objs t :
  start_failure_is_fatal env b ->
  snd (exec_from env b (4 * j) (queue_batch objs) {| committed := t; txn := NoTxn |})
  = {| committed := delete_page (committed_units env b j objs) t; txn := NoTxn |}.
Proof.
  intros Hstart. revert j t.
  induction objs as [|o rest IH]; intros j t.
  - simpl. now rewrite delete_page_nil.
  - change (queue_batch (o :: rest)) with (queue_unit o ++ queue_batch rest).
    rewrite exec_from_app.
    pose proof (exec_unit b j o t (Hstart j)) as Hu.
    destruct (exec_from env b (4 * j) (queue_unit o) _) as [r1 s1].
    simpl in Hu. subst s1.
    replace (4 * j + length (queue_unit o)) with (4 * S j) by (simpl; lia).
    specialize (IH (S j) (if unit_ok env b j then unit_effect o t else t)).
    destruct (exec_from env b (4 * S j) (queue_batch rest) _) as [r2 s2].
    simpl in IH |- *. subst s2. f_equal.
    destruct (unit_ok env b j); [now rewrite delete_page_cons | reflexivity].
Qed.

End Session.

(* ------------------------------------------------------------------ *)
(** ** Whatever fails, a batch only removes rows its units name *)

Section WithinPage.

Variable env : Env.
Variable objs : list ObjectStream.

Lemma within_page_refl t : within_page objs t t.
Proof.
  split; exists (fun _ => true); rewrite filter_true; split;
    (reflexivity || discriminate).
Qed.

Lemma within_page_delete_object o t0 t :
  In o objs -> within_page objs t0 t -> within_page objs t0 (delete_object o t).
Proof.
  intros Ho [(g & Hg & Hg') Hseg]. split; [|exact Hseg].
  exists (fun r => g r && negb (object_matches o r)). split.
  - simpl. now rewrite Hg, filter_filter.
  - intros r Hr. apply andb_false_iff in Hr. destruct Hr as [Hr|Hr]; auto.
    apply negb_false_iff in Hr. apply existsb_exists. eauto.
Qed.

Lemma within_page_delete_segments o t0 t :
  In o objs -> within_page objs t0 t ->
  within_page objs t0 (delete_segments (StreamID o) t).
Proof.
  intros Ho [Hobj (h & Hh & Hh')]. split; [exact Hobj|].
  exists (fun s => h s && negb (segment_matches (StreamID o) s)). split.
  - simpl. now rewrite Hh, filter_filter.
  - intros s Hs. apply andb_false_iff in Hs. destruct Hs as [Hs|Hs]; auto.
    apply negb_false_iff in Hs. apply existsb_exists. eauto.
Qed.

Lemma queue_batch_page_stmt l :
  incl l objs -> Forall (page_stmt objs) (queue_batch l).
Proof.
  induction l as [|o rest IH]; intros Hl; simpl; [constructor|].
  assert (In o objs) by (apply Hl; now left).
  repeat constructor; simpl; eauto.
  apply IH. intros x Hx. apply Hl. now right.
Qed.

Lemma within_page_apply s t0 t :
  page_stmt objs s -> within_page objs t0 t -> within_page objs t0 (apply_stmt s t).
Proof.
  destruct s as [|o|sid|]; simpl; auto.
  - apply within_page_delete_object.
  - intros (o & Ho & ->). now apply within_page_delete_segments.
Qed.

Lemma exec_stmt_within failed op s t0 ss :
  page_stmt objs s -> session_within objs t0 ss ->
  session_within objs t0 (snd (exec_stmt failed op s ss)).
Proof.
  intros Hs [Hc Hw]. destruct ss as [c tx]. unfold exec_stmt. simpl in *.
  destruct failed, s, tx; simpl; split; simpl; auto;
    match goal with
    | |- within_page _ _ (?f ?a ?t) =>
        first [ apply (within_page_apply (DeleteObject a) Hs)
              | apply (within_page_apply (DeleteSegments a) Hs) ]; assumption
    end.
Qed.

Lemma exec_from_within b i l t0 ss :
  Forall (page_stmt objs) l -> session_within objs t0 ss ->
  session_within objs t0 (snd (exec_from env b i l ss)).
Proof.
  intros Hl. revert i ss. induction Hl as [|s rest Hs Hrest IH]; intros i ss H.
  - exact H.
  - simpl. pose proof (exec_stmt_within (fails env (OpStmt b i)) (OpStmt b i) s Hs H) as H1.
    destruct (exec_stmt _ _ s ss) as [r ss1]. simpl in H1.
    specialize (IH (S i) ss1 H1).
    now destruct (exec_from env b (S i) rest ss1).
Qed.

Lemma SendBatch_within b t :
  within_page objs t (snd (SendBatch env b (queue_batch objs) t)).
Proof.
  unfold SendBatch.
  pose proof (exec_from_within b 0 (t0 := t)
                (ss := {| committed := t; txn := NoTxn |})
                (queue_batch_page_stmt (incl_refl objs))) as H.
  destruct (exec_from env b 0 (queue_batch objs) _) as [rs ss].
  simpl in *. apply H. split; simpl; auto using within_page_refl.
Qed.

End WithinPage.

(* ------------------------------------------------------------------ *)
(** ** The result loop *)

Lemma tally_step_errlist i r t :
  errlist (tally_step i r t) = errlist t ++ errors_of [r].
Proof.
  unfold tally_step.
  destruct (Nat.modulo i 3) as [|[|[|n]]]; destruct r; unfold errors_of;
    simpl; now rewrite ?app_nil_r.
Qed.

(** [errlist] ends up holding the error of every failed statement: no error
    stops the loop. *)
Lemma tally_from_errlist i rs t :
  errlist (tally_from i rs t) = errlist t ++ errors_of rs.
Proof.
  revert i t. induction rs as [|r rest IH]; intros i t; simpl.
  - now rewrite app_nil_r.
  - rewrite IH, tally_step_errlist. unfold errors_of. simpl.
    now rewrite <- app_assoc, app_nil_r.
Qed.

(* ================================================================== *)
(** * [deleteObjectsAndSegments] *)

Section DeleteObjectsAndSegments.

Variable env : Env.

(** ** When nothing fails *)

Lemma exec_batch_quiet b i objs t :
  (forall op, fails env op = false) ->
  exists rs,
    exec_from env b i (queue_batch objs) {| committed := t; txn := NoTxn |}
    = (rs, {| committed := delete_page objs t; txn := NoTxn |})
    /\ errors_of rs = [].
Proof.
  intros Hq. revert i t. induction objs as [|o rest IH]; intros i t.
  - exists []. simpl. now rewrite delete_page_nil.
  - change (queue_batch (o :: rest)) with (queue_unit o ++ queue_batch rest).
    rewrite exec_from_app. unfold queue_unit. simpl.
    rewrite !Hq. simpl.
    destruct (IH (i + 4) (unit_effect o t)) as (rs & E1 & E2).
    fold (unit_effect o t). rewrite E1.
    eexists. split; [now rewrite delete_page_cons|].
    exact E2.
Qed.

Lemma SendBatch_quiet b objs t :
  (forall op, fails env op = false) ->
  snd (SendBatch env b (queue_batch objs) t) = delete_page objs t /\
  errors_of (fst (SendBatch env b (queue_batch objs) t)) = [].
Proof.
  intros Hq. unfold SendBatch.
  destruct (exec_batch_quiet b 0 objs t Hq) as (rs & E1 & E2).
  rewrite E1. simpl. now split.
Qed.

Lemma deleteObjectsAndSegments_quiet objs w :
  (forall op, fails env op = false) ->
  exists w',
    deleteObjectsAndSegments env objs w = (Ok tt, w') /\
    tables w' = delete_page objs (tables w) /\
    log w' = log w /\ queries w' = queries w /\
    batches w' = match objs with
                 | [] => batches w
                 | _ => batches w ++ [queue_batch objs]
                 end.
Proof.
  intros Hq. destruct objs as [|o rest].
  - exists w. simpl. now rewrite delete_page_nil.
  - unfold deleteObjectsAndSegments, wrapErr. rewrite !Hq.
    destruct (SendBatch_quiet (length (batches w)) (o :: rest) (tables w) Hq)
      as [E1 E2].
    destruct (SendBatch env _ _ _) as [results t']. simpl in E1, E2.
    rewrite tally_from_errlist, E2. simpl.
    eexists. split; [reflexivity|]. simpl. now rewrite E1.
Qed.

(** ** Whatever fails *)

Lemma deleteObjectsAndSegments_frame objs w :
  let w' := snd (deleteObjectsAndSegments env objs w) in
  within_page objs (tables w) (tables w') /\
  log w' = log w /\ queries w' = queries w.
Proof.
  destruct objs as [|o rest]; simpl.
  - auto using within_page_refl.
  - unfold wrapErr.
    destruct (fails env (OpConn _)); simpl; [auto using within_page_refl|].
    pose proof (SendBatch_within env (o :: rest) (length (batches w)) (tables w)) as Hw.
    destruct (SendBatch env _ _ _) as [results t']. simpl in Hw.
    destruct (Group_Err _); simpl; auto.
Qed.

(** ** A success is a run in which nothing failed *)

Lemma exec_from_no_error b i l ss :
  errors_of (fst (exec_from env b i l ss)) = [] ->
  exec_from env b i l ss = exec_from (quiet env) b i l ss.
Proof.
  revert i ss. induction l as [|s rest IH]; intros i ss H; [reflexivity|].
  cbn [exec_from] in *. change (fails (quiet env) (OpStmt b i)) with false.
  destruct (fails env (OpStmt b i)) eqn:F.
  - exfalso.
    destruct (exec_stmt true (OpStmt b i) s ss) as [r ss1] eqn:E.
    unfold exec_stmt in E. inversion E; subst r.
    destruct (exec_from env b (S i) rest ss1). discriminate H.
  - destruct (exec_stmt false (OpStmt b i) s ss) as [r ss1].
    specialize (IH (S i) ss1).
    destruct (exec_from env b (S i) rest ss1) as [rs ss2].
    unfold errors_of in H. cbn [fst flat_map] in H. apply app_eq_nil in H.
    rewrite <- IH; [reflexivity | apply H].
Qed.

Lemma Group_Err_None es : Group_Err es = None -> es = [].
Proof. destruct es as [|e [|e' t]]; simpl; congruence. Qed.

Lemma deleteObjectsAndSegments_Ok objs w w' :
  deleteObjectsAndSegments env objs w = (Ok tt, w') ->
  deleteObjectsAndSegments (quiet env) objs w = (Ok tt, w').
Proof.
  destruct objs as [|o rest]; [trivial|].
  unfold deleteObjectsAndSegments, wrapErr. cbn [fails quiet].
  destruct (fails env (OpConn _)); [discriminate|].
  unfold SendBatch.
  remember (queue_batch (o :: rest)) as batch eqn:Hb.
  remember {| committed := tables w; txn := NoTxn |} as s0 eqn:Hs0.
  pose proof (exec_from_no_error (length (batches w)) 0 batch s0) as Hq.
  destruct (exec_from env _ 0 batch s0) as [results ss] eqn:E.
  rewrite tally_from_errlist. cbn [errlist app].
  destruct (Group_Err _) eqn:C1; [discriminate|].
  apply Group_Err_None in C1.
  rewrite <- (Hq C1), tally_from_errlist, C1. cbn [errlist app Group_Err].
  now intros H.
Qed.

End DeleteObjectsAndSegments.

(* ================================================================== *)
(** * One turn of the loop: SELECT, scan, delete *)

Section DeleteBatch.

Variable env : Env.
Variable msg : string.
Variable entry : ObjectRow -> LogEntry.

(** ** The scan *)

Lemma last_cons (A : Type) (a d : A) l : List.last (a :: l) d = List.last l a.
Proof.
  revert a d. induction l as [|b t IH]; intros a d; [reflexivity|].
  change (List.last (b :: t) d = List.last (b :: t) a). now rewrite !IH.
Qed.

Lemma scan_rows_frame q k rows lst acc w :
  let w' := snd (scan_rows env msg entry q k rows lst acc w) in
  tables w' = tables w /\ queries w' = queries w /\ batches w' = batches w /\
  exists j, log w' = log w ++ map entry (firstn j rows).
Proof.
  revert k lst acc w. induction rows as [|r rest IH]; intros k lst acc w; simpl.
  - repeat split; auto. exists 0. now rewrite app_nil_r.
  - destruct (fails env (OpScan q k)); simpl.
    + repeat split; auto. exists 0. now rewrite app_nil_r.
    + unfold bind, modify.
      destruct (IH (S k) (row_stream r) (acc ++ [row_stream r])
                  (add_log (entry r) w)) as (Ht & Hq & Hb & j & Hl).
      destruct (scan_rows env msg entry q (S k) rest _ _ _) as [res w'].
      simpl in *. repeat split; auto.
      exists (S j). simpl. rewrite Hl, <- app_assoc. reflexivity.
Qed.

Lemma scan_rows_Ok q k rows lst acc w v w' :
  scan_rows env msg entry q k rows lst acc w = (Ok v, w') ->
  v = (List.last (map row_stream rows) lst, acc ++ map row_stream rows) /\
  log w' = log w ++ map entry rows /\
  scan_rows (quiet env) msg entry q k rows lst acc w = (Ok v, w').
Proof.
  revert k lst acc w v w'.
  induction rows as [|r rest IH]; intros k lst acc w v w'.
  - simpl. unfold ret. intros H. inversion H; subst. now rewrite !app_nil_r.
  - cbn [scan_rows fails quiet].
    destruct (fails env (OpScan q k)); [discriminate|].
    unfold bind, modify. intros H. apply IH in H. destruct H as (-> & Hl & Hq).
    repeat split.
    + cbn [map]. rewrite last_cons. f_equal. now rewrite <- app_assoc.
    + rewrite Hl. simpl. now rewrite <- app_assoc.
    + exact Hq.
Qed.

Lemma scan_rows_no_failure q k rows lst acc w :
  (forall j, fails env (OpScan q j) = false) ->
  exists v w', scan_rows env msg entry q k rows lst acc w = (Ok v, w').
Proof.
  intros Hq. revert k lst acc w.
  induction rows as [|r rest IH]; intros k lst acc w; simpl.
  - now eexists _, _.
  - rewrite Hq. unfold bind, modify. apply IH.
Qed.

Lemma scan_rows_quiet q k rows lst acc w :
  (forall op, fails env op = false) ->
  exists v w', scan_rows env msg entry q k rows lst acc w = (Ok v, w').
Proof. intros Hq. apply scan_rows_no_failure. intros j. apply Hq. Qed.

(** ** The turn *)

Variable asOf : Time.
Variable sel : ObjectRow -> bool.

Lemma gc_deleteBatch_step c n w r w' :
  gc_deleteBatch env asOf msg entry sel c n w = (r, w') ->
  (queries w' = queries w /\ tables w' = tables w /\ log w' = log w /\
   exists e, r = Err e)
  \/ turn_ran env asOf entry sel c n w r w'.
Proof.
  unfold gc_deleteBatch, bind, wrapErr, QueryContext, make_objects, turn_ran.
  destruct (n <? 0)%Z eqn:En;
    [intros H; inversion H; subst; left; eauto|].
  destruct (fails env (OpQuery _));
    [intros H; inversion H; subst; left; eauto|].
  apply Z.ltb_ge in En. intros H. right.
  fold (read_source env asOf w) in *.
  set (page := select_page (read_source env asOf w) c sel n) in *.
  set (w1 := add_query _ w) in H.
  pose proof (scan_rows_frame (length (queries w)) 0 page zeroObjectStream [] w1)
    as (Ht & Hq & Hb & j & Hl).
  destruct (scan_rows env msg entry _ 0 page zeroObjectStream [] w1)
    as [[[lst objs]|e] w2] eqn:E; simpl in Ht, Hq, Hb, Hl.
  - apply scan_rows_Ok in E. destruct E as (E & _ & _).
    inversion E; subst lst objs. simpl app in H.
    pose proof (deleteObjectsAndSegments_frame env (map row_stream page) w2)
      as (Hw & Hl2 & Hq2).
    destruct (deleteObjectsAndSegments env _ w2) as [[[]|e] w3] eqn:E3;
      simpl in Hw, Hl2, Hq2; unfold ret in H; inversion H; subst;
      rewrite Hq2, Hq, Hl2, Hl, <- Ht;
      (split; [exact En|]); (split; [reflexivity|]); (split; [exact Hw|]);
      (split; [eauto|]); [reflexivity|].
    intros Hp. rewrite Hp in E3. discriminate E3.
  - inversion H; subst.
    rewrite Hq, Hl, Ht.
    (split; [exact En|]); (split; [reflexivity|]);
      (split; [apply within_page_refl|]); (split; [eauto|]).
    intros Hp. rewrite Hp in E. discriminate E.
Qed.

(** A turn that succeeds is a turn in which nothing failed. *)
Lemma gc_deleteBatch_Ok c n w l w' :
  gc_deleteBatch env asOf msg entry sel c n w = (Ok l, w') ->
  gc_deleteBatch (quiet env) asOf msg entry sel c n w = (Ok l, w').
Proof.
  unfold gc_deleteBatch, bind, wrapErr, QueryContext, make_objects.
  cbn [fails quiet AsOfSystemTime].
  destruct (n <? 0)%Z; [discriminate|].
  destruct (fails env (OpQuery _)); [discriminate|].
  destruct (scan_rows env msg entry _ 0 _ zeroObjectStream [] _)
    as [[[lst objs]|e] w2] eqn:E; [|discriminate].
  apply scan_rows_Ok in E. destruct E as (_ & _ & ->).
  destruct (deleteObjectsAndSegments env objs w2) as [[[]|e] w3] eqn:E2;
    [|discriminate].
  apply deleteObjectsAndSegments_Ok in E2. now rewrite E2.
Qed.

(** When nothing fails the turn deletes its whole page. *)
Lemma gc_deleteBatch_quiet c n w :
  (forall op, fails env op = false) -> (0 <= n)%Z ->
  let page := select_page (read_source env asOf w) c sel n in
  exists w',
    gc_deleteBatch env asOf msg entry sel c n w
    = (Ok (List.last (map row_stream page) zeroObjectStream), w') /\
    tables w' = delete_page (map row_stream page) (tables w) /\
    log w' = log w ++ map entry page /\
    queries w' = queries w ++
                   [{| q_startAfter := c; q_limit := n; q_page := page |}] /\
    batches w' = match page with
                 | [] => batches w
                 | _ => batches w ++ [queue_batch (map row_stream page)]
                 end.
Proof.
  intros Hf Hn page.
  unfold gc_deleteBatch, bind, wrapErr, QueryContext, make_objects.
  apply Z.ltb_ge in Hn. rewrite Hn. cbv beta iota. rewrite Hf.
  fold (read_source env asOf w). fold page.
  set (w1 := add_query _ w).
  destruct (scan_rows_quiet (length (queries w)) 0 page zeroObjectStream [] w1 Hf)
    as (v & w2 & E).
  pose proof (scan_rows_frame (length (queries w)) 0 page zeroObjectStream [] w1)
    as (Ht & Hq & Hb & _).
  rewrite E in *. simpl in Ht, Hq, Hb.
  apply scan_rows_Ok in E. destruct E as (-> & Hl & _). simpl app.
  destruct (deleteObjectsAndSegments_quiet env (map row_stream page) w2 Hf)
    as (w3 & E3 & Ht3 & Hl3 & Hq3 & Hb3).
  rewrite E3. unfold ret. exists w3. repeat split.
  - now rewrite Ht3, Ht.
  - now rewrite Hl3, Hl.
  - now rewrite Hq3, Hq.
  - rewrite Hb3, Hb. now destruct page.
Qed.

End DeleteBatch.

Lemma expired_deleteBatch_eq env opts :
  expired_deleteBatch env opts
  = gc_deleteBatch env (Expired_AsOfSystemTime opts) msg_expired expired_entry
      (expired_sel opts).
Proof. reflexivity. Qed.

Lemma zombie_deleteBatch_eq env opts :
  zombie_deleteBatch env opts
  = gc_deleteBatch env (Zombie_AsOfSystemTime opts) msg_zombie zombie_entry
      (zombie_sel opts).
Proof. reflexivity. Qed.

(* ================================================================== *)
(** * The page a SELECT returns *)

Section SelectPage.

Variable src : list ObjectRow.
Variable c : ObjectStream.
Variable sel : ObjectRow -> bool.
Variable n : Z.

(** The WHERE clause. *)
Let where_ : ObjectRow -> bool := where_clause sel c.

Let page := select_page src c sel n.

Lemma select_page_unfold :
  page = firstn (Z.to_nat n) (orderByKey (filter where_ src)).
Proof. reflexivity. Qed.

Lemma stream_key_row_stream r : stream_key (row_stream r) = row_key r.
Proof. reflexivity. Qed.

Lemma select_page_In r :
  In r page ->
  In r src /\ key_ltb (stream_key c) (row_key r) = true /\ sel r = true.
Proof.
  rewrite select_page_unfold. intros H. apply in_firstn in H.
  apply orderByKey_In, filter_In in H. destruct H as [H1 H2].
  apply andb_true_iff in H2. tauto.
Qed.

Lemma select_page_length : length page <= Z.to_nat n.
Proof. apply firstn_le_length. Qed.

Lemma select_page_length_eq :
  length page = Nat.min (Z.to_nat n) (length (filter where_ src)).
Proof.
  rewrite select_page_unfold. now rewrite length_firstn, orderByKey_length.
Qed.

Lemma select_page_sorted_le : StronglySorted row_le page.
Proof. apply sorted_firstn, orderByKey_sorted. Qed.

Lemma select_page_keys : NoDup (map row_key src) -> NoDup (map row_key page).
Proof.
  intros H. rewrite select_page_unfold.
  assert (Hs : NoDup (map row_key (orderByKey (filter where_ src)))).
  { eapply NoDup_keys_perm; [apply Permutation_sym, orderByKey_perm|].
    now apply NoDup_keys_filter. }
  revert Hs. generalize (orderByKey (filter where_ src)).
  intros l. rewrite <- (firstn_skipn (Z.to_nat n) l) at 1.
  rewrite map_app. apply NoDup_app_remove_r.
Qed.

Lemma select_page_sorted :
  NoDup (map row_key src) -> StronglySorted row_lt page.
Proof.
  intros H. apply sorted_le_lt; [now apply select_page_keys|].
  apply select_page_sorted_le.
Qed.

Lemma last_In (A : Type) (l : list A) d : l <> [] -> In (List.last l d) l.
Proof.
  revert d. induction l as [|a t IH]; intros d; [congruence|].
  intros _. rewrite last_cons.
  destruct t as [|b t']; [now left|]. right. apply IH. discriminate.
Qed.

(** The last row of a page is its greatest. *)
Lemma sorted_last (l : list ObjectRow) d r :
  StronglySorted row_le l -> In r l -> row_le r (List.last l d).
Proof.
  revert d. induction l as [|x t IH]; intros d Hs Hr; [destruct Hr|].
  inversion Hs as [|? ? Hs' Hall]; subst. rewrite last_cons.
  destruct Hr as [<-|Hr]; [|now apply IH].
  destruct t as [|y t']; [apply key_ltb_irrefl|].
  rewrite Forall_forall in Hall. apply Hall, last_In. discriminate.
Qed.

Lemma select_page_last_max d r :
  In r page -> key_ltb (row_key (List.last page d)) (row_key r) = false.
Proof.
  intros H. apply sorted_last; [apply select_page_sorted_le | exact H].
Qed.

(** A selected row that is not in the page lies beyond its last row. *)
Lemma select_page_beyond d r :
  (0 < n)%Z -> NoDup (map row_key src) ->
  In r src -> where_ r = true -> ~ In r page ->
  page <> [] /\ key_ltb (row_key (List.last page d)) (row_key r) = true.
Proof.
  intros Hn Hnd Hr Hw Hnot.
  assert (Hin : In r (orderByKey (filter where_ src))).
  { apply orderByKey_In, filter_In. now split. }
  assert (Hs : StronglySorted row_lt (orderByKey (filter where_ src))).
  { apply sorted_le_lt; [|apply orderByKey_sorted].
    eapply NoDup_keys_perm; [apply Permutation_sym, orderByKey_perm|].
    now apply NoDup_keys_filter. }
  destruct (in_firstn_or_skipn (Z.to_nat n) _ _ Hin) as [H|H];
    [now elim Hnot|].
  assert (Hne : page <> []).
  { rewrite select_page_unfold.
    destruct (Z.to_nat n) as [|m] eqn:En; [lia|]. simpl.
    destruct (orderByKey (filter where_ src)); [destruct Hin | discriminate]. }
  split; [exact Hne|].
  change (row_lt (List.last page d) r).
  eapply sorted_firstn_skipn; [exact Hs | | exact H].
  now apply last_In.
Qed.

Lemma select_page_empty r :
  (0 < n)%Z -> page = [] -> In r src -> where_ r = false.
Proof.
  intros Hn Hp Hr. destruct (where_ r) eqn:E; [|reflexivity]. exfalso.
  assert (Hin : In r (orderByKey (filter where_ src))).
  { apply orderByKey_In, filter_In. now split. }
  rewrite select_page_unfold in Hp.
  destruct (Z.to_nat n) eqn:En; [lia|].
  destruct (orderByKey (filter where_ src)); [destruct Hin | discriminate].
Qed.

End SelectPage.

(* ================================================================== *)
(** * The loop *)

Section Loop.

Variable deleteBatch : ObjectStream -> Z -> M ObjectStream.
Variable n : Z.

Lemma batch_loop_Run fuel c w r w' :
  batch_loop fuel deleteBatch c n w = Some (r, w') ->
  Run deleteBatch n c w r w'.
Proof.
  revert c w. induction fuel as [|fuel IH]; intros c w; simpl; [discriminate|].
  destruct (deleteBatch c n w) as [[l|e] w1] eqn:E.
  - destruct (IsZero (StreamID l)) eqn:Z.
    + intros H. inversion H; subst. eapply Run_done; eauto.
    + intros H. eapply Run_next; eauto.
  - intros H. inversion H; subst. now apply Run_error.
Qed.

Lemma Run_batch_loop c w r w' :
  Run deleteBatch n c w r w' ->
  exists fuel, forall fuel', fuel <= fuel' ->
    batch_loop fuel' deleteBatch c n w = Some (r, w').
Proof.
  induction 1 as [c w e w' E|c w l w' E Z|c w l w1 r w' E Z _ (fuel & IH)].
  - exists 1. intros [|f] Hf; [lia|]. simpl. now rewrite E.
  - exists 1. intros [|f] Hf; [lia|]. simpl. now rewrite E, Z.
  - exists (S fuel). intros [|f] Hf; [lia|]. simpl. rewrite E, Z.
    apply IH. lia.
Qed.

(** More fuel does not change the outcome. *)
Lemma batch_loop_mono fuel fuel' c w x :
  batch_loop fuel deleteBatch c n w = Some x -> fuel <= fuel' ->
  batch_loop fuel' deleteBatch c n w = Some x.
Proof.
  revert fuel' c w. induction fuel as [|fuel IH]; intros fuel' c w;
    simpl; [discriminate|].
  intros H Hf. destruct fuel' as [|fuel']; [lia|]. simpl.
  destruct (deleteBatch c n w) as [[l|e] w1]; [|exact H].
  destruct (IsZero (StreamID l)); [exact H|]. apply IH; [exact H | lia].
Qed.

End Loop.

Section GcLoop.

Variable env : Env.
Variable asOf : Time.
Variable msg : string.
Variable entry : ObjectRow -> LogEntry.
Variable sel : ObjectRow -> bool.
Variable n : Z.

Let turn := gc_deleteBatch env asOf msg entry sel.

Lemma last_map_row_stream (page : list ObjectRow) d :
  page <> [] ->
  List.last (map row_stream page) zeroObjectStream = row_stream (List.last page d).
Proof.
  destruct page as [|a t]; [congruence|]. intros _.
  cbn [map]. rewrite !last_cons. clear d.
  revert a. induction t as [|b t IH]; intros a; [reflexivity|].
  cbn [map]. now rewrite !last_cons.
Qed.

(** A turn that hands the loop a next cursor read a non-empty page and
    hands over its last row. *)
Lemma turn_next c w l w1 :
  turn_ran env asOf entry sel c n w (Ok l) w1 ->
  IsZero (StreamID l) = false ->
  let page := select_page (read_source env asOf w) c sel n in
  exists p, In p page /\ l = row_stream p /\ forall d, List.last page d = p.
Proof.
  intros (_ & _ & _ & _ & Hl) Z. cbv zeta.
  remember (select_page (read_source env asOf w) c sel n) as page eqn:Hp.
  clear Hp.
  assert (Hne : page <> []).
  { intros ->. simpl in Hl. subst l. discriminate Z. }
  destruct page as [|a t]; [congruence|].
  exists (List.last (a :: t) a).
  split; [now apply last_In|]. split.
  - now rewrite Hl, (last_map_row_stream a Hne).
  - intros d. now rewrite !last_cons.
Qed.

(** The table a SELECT reads only ever loses rows. *)
Lemma turn_source c w r w1 :
  turn_ran env asOf entry sel c n w r w1 ->
  exists g, read_source env asOf w1 = filter g (read_source env asOf w).
Proof.
  intros (_ & _ & [(g & Hg & _) _] & _). unfold read_source.
  destruct (AsOfSystemTime env asOf) as [rows|].
  - exists (fun _ => true). now rewrite filter_true.
  - now exists g.
Qed.

Lemma filter_length_le (A : Type) (p q : A -> bool) l :
  (forall y, In y l -> p y = true -> q y = true) ->
  length (filter p l) <= length (filter q l).
Proof.
  induction l as [|a t IH]; intros H; simpl; [lia|].
  assert (IH' : length (filter p t) <= length (filter q t)).
  { apply IH. intros y Hy. apply H. now right. }
  destruct (p a) eqn:Ep.
  - rewrite (H a (or_introl eq_refl) Ep). simpl. lia.
  - destruct (q a); simpl; lia.
Qed.

Lemma filter_length_lt (A : Type) (p q : A -> bool) l x :
  (forall y, In y l -> p y = true -> q y = true) ->
  In x l -> q x = true -> p x = false ->
  length (filter p l) < length (filter q l).
Proof.
  induction l as [|a t IH]; intros H Hx Hq Hp; [destruct Hx|]. simpl.
  assert (Hle : length (filter p t) <= length (filter q t)).
  { apply filter_length_le. intros y Hy. apply H. now right. }
  destruct Hx as [->|Hx].
  - rewrite Hq, Hp. simpl. lia.
  - assert (IH' : length (filter p t) < length (filter q t)).
    { apply IH; auto. intros y Hy. apply H. now right. }
    destruct (p a) eqn:Ep.
    + rewrite (H a (or_introl eq_refl) Ep). simpl. lia.
    + destruct (q a); simpl; lia.
Qed.

(** The rows still to visit get fewer with every turn that goes on. *)
Lemma turn_decreases c w l w1 :
  turn_ran env asOf entry sel c n w (Ok l) w1 ->
  IsZero (StreamID l) = false ->
  length (filter (where_clause sel l) (read_source env asOf w1))
  < length (filter (where_clause sel c) (read_source env asOf w)).
Proof.
  intros Ht Z. destruct (turn_source Ht) as (g & Hg).
  destruct (turn_next Ht Z) as (p & Hp & -> & _).
  apply select_page_In in Hp. destruct Hp as (Hin & Hc & Hs).
  rewrite Hg, filter_filter.
  apply filter_length_lt with (x := p); auto.
  - intros y _ Hy. apply andb_true_iff in Hy. destruct Hy as [_ Hy].
    unfold where_clause in *. apply andb_true_iff in Hy. destruct Hy as [Hk Hy].
    rewrite Hy, andb_true_r. rewrite stream_key_row_stream in Hk.
    eapply key_ltb_trans; eauto.
  - unfold where_clause. now rewrite Hc, Hs.
  - unfold where_clause. rewrite stream_key_row_stream, key_ltb_irrefl.
    now rewrite andb_false_r.
Qed.

(** Termination: fuel beyond the number of rows still to visit is enough,
    and the loop issues at most one SELECT more than there are such rows. *)
Lemma gc_loop_terminates fuel c w :
  length (filter (where_clause sel c) (read_source env asOf w)) < fuel ->
  exists r w',
    batch_loop fuel turn c n w = Some (r, w') /\
    length (queries w') <=
      length (queries w)
      + S (length (filter (where_clause sel c) (read_source env asOf w))).
Proof.
  revert c w. induction fuel as [|fuel IH]; intros c w Hf; [lia|].
  simpl. destruct (turn c n w) as [[l|e] w1] eqn:E.
  - apply gc_deleteBatch_step in E.
    destruct E as [(_ & _ & _ & e & He)|Ht]; [discriminate|].
    assert (Hq : length (queries w1) = S (length (queries w))).
    { destruct Ht as (_ & Hq & _). rewrite Hq, length_app. simpl. lia. }
    destruct (IsZero (StreamID l)) eqn:Z.
    + eexists _, _. split; [reflexivity|]. lia.
    + pose proof (turn_decreases Ht Z) as Hd.
      destruct (IH l w1) as (r & w' & Hr & Hlen); [lia|].
      exists r, w'. split; [exact Hr|]. lia.
  - eexists _, _. split; [reflexivity|].
    apply gc_deleteBatch_step in E.
    destruct E as [(Hq & _)|(_ & Hq & _)]; rewrite Hq; [lia|].
    rewrite length_app. simpl. lia.
Qed.

End GcLoop.

(* ================================================================== *)
(** * What every pass does, whatever fails *)

Section GcRun.

Variable env : Env.
Variable asOf : Time.
Variable msg : string.
Variable entry : ObjectRow -> LogEntry.
Variable sel : ObjectRow -> bool.
Variable n : Z.

Let turn := gc_deleteBatch env asOf msg entry sel.

Lemma sorted_app (A : Type) (R : A -> A -> Prop) l1 l2 :
  StronglySorted R l1 -> StronglySorted R l2 ->
  (forall x y, In x l1 -> In y l2 -> R x y) ->
  StronglySorted R (l1 ++ l2).
Proof.
  induction 1 as [|a t Hs IH Ha]; intros H2 H; simpl; [exact H2|].
  constructor.
  - apply IH; auto. intros x y Hx. apply H. now right.
  - apply Forall_app. split; [exact Ha|].
    apply Forall_forall. intros y Hy. apply H; [now left | exact Hy].
Qed.

(** ** The SELECTs of a pass *)

Lemma turn_page_ok c w r w1 :
  turn_ran env asOf entry sel c n w r w1 ->
  page_ok sel n {| q_startAfter := c; q_limit := n;
                   q_page := select_page (read_source env asOf w) c sel n |}.
Proof.
  intros _. split; [reflexivity|]. split; simpl.
  - apply select_page_length.
  - apply Forall_forall. intros x Hx. apply select_page_In in Hx.
    unfold key_lt. tauto.
Qed.

Lemma trace_ok_nil c w r : trace_ok env asOf sel n c w r [].
Proof. repeat split; simpl; auto; constructor. Qed.

Lemma trace_ok_one c w r0 w1 r :
  turn_ran env asOf entry sel c n w r0 w1 ->
  (select_page (read_source env asOf w) c sel n = [] -> r = Ok tt) ->
  trace_ok env asOf sel n c w r
    [{| q_startAfter := c; q_limit := n;
        q_page := select_page (read_source env asOf w) c sel n |}].
Proof.
  intros Ht Hr. pose proof (turn_page_ok Ht) as Hok.
  split; [constructor; [exact Hok | constructor]|].
  split; [repeat constructor|].
  split; [constructor; [now left | constructor]|].
  split.
  { destruct Hok as (_ & _ & Hok). simpl in Hok |- *. rewrite app_nil_r.
    eapply Forall_impl; [|exact Hok]. simpl. tauto. }
  split; [simpl; auto|].
  intros Hnd. simpl. rewrite app_nil_r. now apply select_page_sorted.
Qed.

(** The SELECTs a run issues. *)
Lemma Run_trace c w r w' :
  Run turn n c w r w' ->
  exists evs,
    queries w' = queries w ++ evs /\ trace_ok env asOf sel n c w r evs.
Proof.
  induction 1 as [c w e w' E|c w l w' E Z|c w l w1 r w' E Z Hrun IH];
    apply gc_deleteBatch_step in E.
  - destruct E as [(Hq & _)|Ht].
    + exists []. rewrite app_nil_r. split; [exact Hq | apply trace_ok_nil].
    + eexists. split; [apply Ht|]. eapply trace_ok_one; [exact Ht|].
      intros Hp. destruct Ht as (_ & _ & _ & _ & Hne). now elim Hne.
  - destruct E as [(_ & _ & _ & e & He)|Ht]; [discriminate|].
    eexists. split; [apply Ht|]. eapply trace_ok_one; [exact Ht | reflexivity].
  - destruct E as [(_ & _ & _ & e & He)|Ht]; [discriminate|].
    destruct (turn_source Ht) as (g & Hg).
    destruct (turn_next Ht Z) as (p & Hp & -> & Hlast).
    destruct IH as (evs & Hq & Hok & Hcs & Hcb & Hvb & Hend & Hvs).
    assert (Hne : select_page (read_source env asOf w) c sel n <> []).
    { intros Hnil. rewrite Hnil in Hp. destruct Hp. }
    destruct (trace_ok_one (r := r) Ht) as (Hok1 & _ & _ & Hvb1 & _ & Hvs1).
    { intros Hnil. now elim Hne. }
    pose proof (proj1 (proj2 Ht)) as Hq1.
    set (page := select_page (read_source env asOf w) c sel n) in *.
    set (e := {| q_startAfter := c; q_limit := n; q_page := page |}) in *.
    assert (Hcp : key_lt (stream_key c) (row_key p)).
    { apply select_page_In in Hp. apply Hp. }
    exists (e :: evs). split.
    { rewrite Hq, Hq1, <- app_assoc. reflexivity. }
    split; [constructor; [now inversion Hok1 | exact Hok]|].
    split.
    { simpl. constructor; [exact Hcs|].
      eapply Forall_impl; [|exact Hcb]. simpl.
      intros k [->|Hk]; [exact Hcp|].
      eapply key_ltb_trans; eauto. }
    split.
    { simpl. constructor; [now left|].
      eapply Forall_impl; [|exact Hcb]. simpl.
      intros k [->|Hk]; right; [exact Hcp|].
      eapply key_ltb_trans; eauto. }
    split.
    { change (visited (e :: evs)) with (page ++ visited evs).
      apply Forall_app. split.
      - simpl in Hvb1. now rewrite app_nil_r in Hvb1.
      - eapply Forall_impl; [|exact Hvb]. simpl. intros y Hy.
        eapply key_ltb_trans; eauto. }
    split.
    { simpl. split; [|exact Hend]. intros Hnil. now elim Hne. }
    intros Hnd.
    change (visited (e :: evs)) with (page ++ visited evs).
    specialize (Hvs1 Hnd). simpl in Hvs1. rewrite app_nil_r in Hvs1.
    apply sorted_app; auto.
    { apply Hvs. rewrite Hg. now apply NoDup_keys_filter. }
    intros x y Hx Hy. rewrite Forall_forall in Hvb.
    specialize (Hvb y Hy). simpl in Hvb.
    pose proof (@select_page_last_max (read_source env asOf w) c sel n p x Hx)
      as Hmax.
    fold page in Hmax. rewrite Hlast in Hmax.
    unfold row_lt. eapply key_le_lt_trans; eauto.
Qed.

End GcRun.

(* ================================================================== *)
(** * What a pass that reads the current table can remove *)

Section GcPreserve.

Variable env : Env.
Variable asOf : Time.
Variable msg : string.
Variable entry : ObjectRow -> LogEntry.
Variable sel : ObjectRow -> bool.
Variable n : Z.

Hypothesis live : AsOfSystemTime env asOf = None.

Let turn := gc_deleteBatch env asOf msg entry sel.

Lemma read_source_live w : read_source env asOf w = objects (tables w).
Proof. unfold read_source. now rewrite live. Qed.

Lemma object_matches_row_stream p x :
  object_matches (row_stream p) x = true <->
  row_key x = row_key p /\ stream_id x = stream_id p.
Proof.
  unfold object_matches. rewrite andb_true_iff, key_eqb_eq, N.eqb_eq.
  reflexivity.
Qed.

(** Among rows with a primary key, the units of a page remove exactly the
    rows of the page. *)
Lemma page_deletes_object_iff (src page : list ObjectRow) x :
  NoDup (map row_key src) -> incl page src -> In x src ->
  page_deletes_object (map row_stream page) x = true <-> In x page.
Proof.
  intros Hnd Hincl Hx. unfold page_deletes_object.
  rewrite existsb_exists. split.
  - intros (o & Ho & Hm). apply in_map_iff in Ho. destruct Ho as (p & <- & Hp).
    apply object_matches_row_stream in Hm. destruct Hm as [Hk _].
    now rewrite (@NoDup_keys_inj src x p Hnd Hx (Hincl p Hp) Hk).
  - intros Hp. exists (row_stream x). split; [now apply in_map|].
    now apply object_matches_row_stream.
Qed.

Lemma page_deletes_segment_iff (page : list ObjectRow) s :
  page_deletes_segment (map row_stream page) s = true <->
  exists p, In p page /\ segment_matches (stream_id p) s = true.
Proof.
  unfold page_deletes_segment. rewrite existsb_exists. split.
  - intros (o & Ho & Hm). apply in_map_iff in Ho. destruct Ho as (p & <- & Hp).
    eauto.
  - intros (p & Hp & Hm). exists (row_stream p). split; [now apply in_map|].
    exact Hm.
Qed.

Lemma select_page_incl src c :
  incl (select_page src c sel n) src.
Proof. intros x Hx. now apply select_page_In in Hx. Qed.

(** One turn removes only rows of its page, and only segments of their
    streams. *)
Lemma turn_removes c w r w1 :
  NoDup (map row_key (objects (tables w))) ->
  turn_ran env asOf entry sel c n w r w1 ->
  let page := select_page (objects (tables w)) c sel n in
  (exists g, objects (tables w1) = filter g (objects (tables w)) /\
             forall x, In x (objects (tables w)) -> g x = false -> In x page) /\
  (exists h, segments (tables w1) = filter h (segments (tables w)) /\
             forall s, h s = false ->
                       exists p, In p page /\
                                 segment_matches (stream_id p) s = true).
Proof.
  intros Hnd (_ & _ & [(g & Hg & Hg') (h & Hh & Hh')] & _) page.
  rewrite read_source_live in Hg', Hh'. fold page in Hg', Hh'. split.
  - exists g. split; [exact Hg|]. intros x Hx Hgx.
    eapply page_deletes_object_iff;
      [exact Hnd | apply select_page_incl | exact Hx | now apply Hg'].
  - exists h. split; [exact Hh|]. intros s Hs.
    apply page_deletes_segment_iff. now apply Hh'.
Qed.

(** A run removes only selected rows after its cursor, and only segments of
    their streams.  Nothing else changes in either table. *)
Lemma Run_removes c w r w' :
  NoDup (map row_key (objects (tables w))) ->
  Run turn n c w r w' ->
  (exists g, objects (tables w') = filter g (objects (tables w)) /\
             forall x, In x (objects (tables w)) -> g x = false ->
                       where_clause sel c x = true) /\
  (exists h, segments (tables w') = filter h (segments (tables w)) /\
             forall s, h s = false ->
                       exists x, In x (objects (tables w)) /\
                                 where_clause sel c x = true /\
                                 segment_matches (stream_id x) s = true).
Proof.
  intros Hnd Hrun. revert Hnd.
  assert (Hone : forall c w r w1,
             NoDup (map row_key (objects (tables w))) ->
             turn_ran env asOf entry sel c n w r w1 ->
             (exists g, objects (tables w1) = filter g (objects (tables w)) /\
                        forall x, In x (objects (tables w)) -> g x = false ->
                                  where_clause sel c x = true) /\
             (exists h, segments (tables w1) = filter h (segments (tables w)) /\
                        forall s, h s = false ->
                                  exists x, In x (objects (tables w)) /\
                                            where_clause sel c x = true /\
                                            segment_matches (stream_id x) s = true)).
  { intros c0 w0 r0 w1 Hnd0 Ht.
    destruct (turn_removes Hnd0 Ht) as [(g & Hg & Hg') (h & Hh & Hh')].
    assert (Hw : forall p, In p (select_page (objects (tables w0)) c0 sel n) ->
                           In p (objects (tables w0)) /\
                           where_clause sel c0 p = true).
    { intros p Hp. apply select_page_In in Hp. unfold where_clause.
      destruct Hp as (? & -> & ->). auto. }
    split.
    - exists g. split; [exact Hg|]. intros x Hx Hgx. now apply Hw, Hg'.
    - exists h. split; [exact Hh|]. intros s Hs.
      destruct (Hh' s Hs) as (p & Hp & Hm). exists p.
      destruct (Hw p Hp). auto. }
  assert (Hsame : forall c w w1, tables w1 = tables w ->
             (exists g, objects (tables w1) = filter g (objects (tables w)) /\
                        forall x, In x (objects (tables w)) -> g x = false ->
                                  where_clause sel c x = true) /\
             (exists h, segments (tables w1) = filter h (segments (tables w)) /\
                        forall s, h s = false ->
                                  exists x, In x (objects (tables w)) /\
                                            where_clause sel c x = true /\
                                            segment_matches (stream_id x) s = true)).
  { intros c0 w0 w1 ->. split; exists (fun _ => true);
      (split; [now rewrite filter_true | discriminate]). }
  induction Hrun as [c w e w' E|c w l w' E Z|c w l w1 r w' E Z Hrun IH];
    intros Hnd; apply gc_deleteBatch_step in E.
  - destruct E as [(_ & Ht & _)|Ht]; [now apply Hsame | eapply Hone; eauto].
  - destruct E as [(_ & _ & _ & e & He)|Ht]; [discriminate|].
    eapply Hone; eauto.
  - destruct E as [(_ & _ & _ & e & He)|Ht]; [discriminate|].
    destruct (Hone c w _ w1 Hnd Ht) as [(g1 & Hg1 & Hg1') (h1 & Hh1 & Hh1')].
    destruct (turn_next Ht Z) as (p & Hp & -> & _).
    apply select_page_In in Hp. destruct Hp as (_ & Hcp & _).
    assert (Hmono : forall x, where_clause sel (row_stream p) x = true ->
                              where_clause sel c x = true).
    { intros x Hx. unfold where_clause in *. apply andb_true_iff in Hx.
      destruct Hx as [Hk ->]. rewrite andb_true_r.
      eapply key_ltb_trans; eauto. }
    destruct IH as [(g2 & Hg2 & Hg2') (h2 & Hh2 & Hh2')].
    { rewrite Hg1. now apply NoDup_keys_filter. }
    split.
    + exists (fun x => g1 x && g2 x). split.
      * now rewrite Hg2, Hg1, filter_filter.
      * intros x Hx Hgx. destruct (g1 x) eqn:G1; [|now apply Hg1'].
        simpl in Hgx. apply Hmono, Hg2'; [|exact Hgx].
        rewrite Hg1. apply filter_In. now split.
    + exists (fun s => h1 s && h2 s). split.
      * now rewrite Hh2, Hh1, filter_filter.
      * intros s Hs. destruct (h1 s) eqn:H1; [|now apply Hh1'].
        simpl in Hs. destruct (Hh2' s Hs) as (x & Hx & Hwx & Hm).
        exists x. rewrite Hg1 in Hx. apply filter_In in Hx.
        destruct Hx as [Hx _]. auto.
Qed.

End GcPreserve.

(* ================================================================== *)
(** * What a pass removes when it reads an older state of the table *)

Section GcStale.

Variable env : Env.
Variable asOf : Time.
Variable msg : string.
Variable entry : ObjectRow -> LogEntry.
Variable sel : ObjectRow -> bool.
Variable n : Z.

Let turn := gc_deleteBatch env asOf msg entry sel.

(** Whatever table the SELECT reads and whatever fails, a run removes only
    rows that carry the key and the [stream_id] of a row it read, and only
    segments of the stream of a row it read. *)
Lemma Run_removes_read c w r w' :
  Run turn n c w r w' ->
  (exists g, objects (tables w') = filter g (objects (tables w)) /\
             forall x, g x = false ->
                       exists p, In p (read_source env asOf w) /\
                                 object_matches (row_stream p) x = true) /\
  (exists h, segments (tables w') = filter h (segments (tables w)) /\
             forall s, h s = false ->
                       exists p, In p (read_source env asOf w) /\
                                 segment_matches (stream_id p) s = true).
Proof.
  assert (Hone : forall c w r w1,
             turn_ran env asOf entry sel c n w r w1 ->
             (exists g, objects (tables w1) = filter g (objects (tables w)) /\
                forall x, g x = false ->
                          exists p, In p (read_source env asOf w) /\
                                    object_matches (row_stream p) x = true) /\
             (exists h, segments (tables w1) = filter h (segments (tables w)) /\
                forall s, h s = false ->
                          exists p, In p (read_source env asOf w) /\
                                    segment_matches (stream_id p) s = true)).
  { intros c0 w0 r0 w1 (_ & _ & [(g & Hg & Hg') (h & Hh & Hh')] & _). split.
    - exists g. split; [exact Hg|]. intros x Hx.
      specialize (Hg' x Hx). apply existsb_exists in Hg'.
      destruct Hg' as (o & Ho & Hm). apply in_map_iff in Ho.
      destruct Ho as (p & <- & Hp). exists p. split; [|exact Hm].
      now apply select_page_In in Hp.
    - exists h. split; [exact Hh|]. intros s Hs.
      specialize (Hh' s Hs). apply page_deletes_segment_iff in Hh'.
      destruct Hh' as (p & Hp & Hm). exists p. split; [|exact Hm].
      now apply select_page_In in Hp. }
  assert (Hsame : forall w w1, tables w1 = tables w ->
             (exists g, objects (tables w1) = filter g (objects (tables w)) /\
                forall x, g x = false ->
                          exists p, In p (read_source env asOf w) /\
                                    object_matches (row_stream p) x = true) /\
             (exists h, segments (tables w1) = filter h (segments (tables w)) /\
                forall s, h s = false ->
                          exists p, In p (read_source env asOf w) /\
                                    segment_matches (stream_id p) s = true)).
  { intros w0 w1 ->. split; exists (fun _ => true);
      (split; [now rewrite filter_true | discriminate]). }
  induction 1 as [c w e w' E|c w l w' E Z|c w l w1 r w' E Z Hrun IH];
    apply gc_deleteBatch_step in E.
  - destruct E as [(_ & Ht & _)|Ht]; [now apply Hsame | eapply Hone; eauto].
  - destruct E as [(_ & _ & _ & e & He)|Ht]; [discriminate|].
    eapply Hone; eauto.
  - destruct E as [(_ & _ & _ & e & He)|Ht]; [discriminate|].
    destruct (Hone c w _ w1 Ht) as [(g1 & Hg1 & Hg1') (h1 & Hh1 & Hh1')].
    destruct (turn_source Ht) as (g0 & Hsrc).
    destruct IH as [(g2 & Hg2 & Hg2') (h2 & Hh2 & Hh2')].
    split.
    + exists (fun x => g1 x && g2 x). split.
      * now rewrite Hg2, Hg1, filter_filter.
      * intros x Hx. destruct (g1 x) eqn:G1; [|now apply Hg1'].
        simpl in Hx. destruct (Hg2' x Hx) as (p & Hp & Hm).
        exists p. rewrite Hsrc in Hp. apply filter_In in Hp. tauto.
    + exists (fun s => h1 s && h2 s). split.
      * now rewrite Hh2, Hh1, filter_filter.
      * intros s Hs. destruct (h1 s) eqn:H1; [|now apply Hh1'].
        simpl in Hs. destruct (Hh2' s Hs) as (p & Hp & Hm).
        exists p. rewrite Hsrc in Hp. apply filter_In in Hp. tauto.
Qed.

End GcStale.

(* ================================================================== *)
(** * What a pass does when nothing fails *)

Section PageStep.

Variable src : list ObjectRow.
Variable segs : list SegmentRow.
Variable c : ObjectStream.
Variable sel : ObjectRow -> bool.
Variable n : Z.

Hypothesis Hn : (0 < n)%Z.
Hypothesis Hnd : NoDup (map row_key src).

Let page := select_page src c sel n.
Let t := {| objects := src; segments := segs |}.
Let t1 := delete_page (map row_stream page) t.

Variable p : ObjectRow.
Hypothesis Hp : In p page.
Hypothesis Hlast : forall d, List.last page d = p.

Lemma where_clause_mono x :
  where_clause sel (row_stream p) x = true -> where_clause sel c x = true.
Proof.
  unfold where_clause. rewrite !andb_true_iff. intros [Hk Hs]. split; auto.
  apply select_page_In in Hp. destruct Hp as (_ & Hcp & _).
  eapply key_ltb_trans; eauto.
Qed.

(** The selected rows after the cursor are those of the page and those
    still selected after its last row. *)
Lemma where_clause_split x :
  In x src ->
  where_clause sel c x =
  page_deletes_object (map row_stream page) x
  || where_clause sel (row_stream p) x.
Proof.
  intros Hx.
  pose proof (@page_deletes_object_iff src page x Hnd
                (@select_page_incl sel n src c) Hx) as Hiff.
  destruct (page_deletes_object (map row_stream page) x) eqn:D; simpl.
  - assert (Hin : In x page) by now apply Hiff.
    apply select_page_In in Hin. unfold where_clause.
    destruct Hin as (_ & -> & ->). reflexivity.
  - assert (Hnot : ~ In x page).
    { intros Hin. apply Hiff in Hin. discriminate. }
    destruct (where_clause sel c x) eqn:W.
    + destruct (@select_page_beyond src c sel n p x Hn Hnd Hx W Hnot)
        as [_ Hb].
      fold page in Hb. rewrite Hlast in Hb.
      unfold where_clause in *. apply andb_true_iff in W.
      destruct W as [_ ->]. now rewrite stream_key_row_stream, Hb.
    + destruct (where_clause sel (row_stream p) x) eqn:W'; [|reflexivity].
      apply where_clause_mono in W'. congruence.
Qed.

Lemma page_row_not_after x :
  In x page -> where_clause sel (row_stream p) x = false.
Proof.
  intros Hx. unfold where_clause. rewrite stream_key_row_stream.
  pose proof (@select_page_last_max src c sel n p x Hx) as Hm.
  fold page in Hm. rewrite Hlast in Hm. now rewrite Hm.
Qed.

Lemma where_In_split x :
  In x (filter (where_clause sel c) src) <->
  In x page \/ In x (filter (where_clause sel (row_stream p)) (objects t1)).
Proof.
  simpl. rewrite !filter_In. split.
  - intros [Hx Hw]. rewrite (where_clause_split x Hx) in Hw.
    apply orb_true_iff in Hw. destruct Hw as [Hw|Hw].
    + left. eapply page_deletes_object_iff; eauto. apply select_page_incl.
    + destruct (page_deletes_object (map row_stream page) x) eqn:D.
      * left. eapply page_deletes_object_iff; eauto. apply select_page_incl.
      * right. repeat split; auto.
  - intros [Hx|[[Hx _] Hw]].
    + apply select_page_In in Hx. unfold where_clause.
      destruct Hx as (? & -> & ->). auto.
    + split; [exact Hx | now apply where_clause_mono].
Qed.

(** The rows still to visit after the page: as many fewer as the page is
    long. *)
Lemma where_count_step :
  length (filter (where_clause sel c) src)
  = length page
    + length (filter (where_clause sel (row_stream p)) (objects t1)).
Proof.
  rewrite <- length_app. apply Permutation_length, NoDup_Permutation.
  - apply NoDup_filter. eapply NoDup_map_inv; eauto.
  - apply NoDup_app.
    + eapply NoDup_map_inv. now apply select_page_keys.
    + simpl. do 2 apply NoDup_filter. eapply NoDup_map_inv; eauto.
    + intros x Hx Hx'. apply filter_In in Hx'. destruct Hx' as [_ Hw].
      rewrite (page_row_not_after x Hx) in Hw. discriminate.
  - intros x. rewrite in_app_iff. apply where_In_split.
Qed.

Lemma gc_result_step :
  gc_result sel (row_stream p) t1 = gc_result sel c t.
Proof.
  unfold gc_result. f_equal.
  - simpl. rewrite filter_filter. apply filter_ext_in. intros x Hx.
    rewrite (where_clause_split x Hx). now rewrite negb_orb.
  - simpl segments. rewrite filter_filter. apply filter_ext. intros s.
    rewrite <- negb_orb. f_equal. apply eq_iff_eq_true.
    rewrite orb_true_iff, !existsb_exists, page_deletes_segment_iff.
    split.
    + intros [(x & Hx & Hm)|(x & Hx & Hm)]; exists x; (split; [|exact Hm]);
        apply where_In_split; auto.
    + intros (x & Hx & Hm). apply where_In_split in Hx.
      destruct Hx as [Hx|Hx]; [left | right]; eauto.
Qed.

End PageStep.

Lemma filter_none (A : Type) (f : A -> bool) l :
  (forall x, In x l -> f x = false) -> filter f l = [].
Proof.
  induction l as [|a t IH]; intros H; simpl; [reflexivity|].
  rewrite (H a (or_introl eq_refl)). apply IH. intros x Hx. apply H. now right.
Qed.

Lemma gc_result_done sel c t :
  (forall x, In x (objects t) -> where_clause sel c x = false) ->
  gc_result sel c t = t.
Proof.
  intros H. unfold gc_result. rewrite (filter_none _ _ H). simpl.
  rewrite filter_true.
  replace (filter _ (objects t)) with (objects t); [now destruct t|].
  symmetry. rewrite <- (filter_true (objects t)) at 2.
  apply filter_ext_in. intros x Hx. now rewrite (H x Hx).
Qed.

Section GcExact.

Variable env : Env.
Variable asOf : Time.
Variable msg : string.
Variable entry : ObjectRow -> LogEntry.
Variable sel : ObjectRow -> bool.
Variable n : Z.

Hypothesis Hquiet : forall op, fails env op = false.
Hypothesis live : AsOfSystemTime env asOf = None.
Hypothesis Hn : (0 < n)%Z.

Let turn := gc_deleteBatch env asOf msg entry sel.

(** With nothing failing, the loop started at cursor [c] removes every
    selected row after [c] with the segments of its stream, page by page, and
    ends on an empty page. *)
Lemma gc_loop_exact fuel c w :
  NoDup (map row_key (objects (tables w))) ->
  (forall x, In x (objects (tables w)) -> sel x = true -> stream_id x <> 0%N) ->
  length (filter (where_clause sel c) (objects (tables w))) < fuel ->
  exists w' evs,
    batch_loop fuel turn c n w = Some (Ok tt, w') /\
    tables w' = gc_result sel c (tables w) /\
    queries w' = queries w ++ evs /\
    map (fun e => length (q_page e)) evs
    = page_sizes fuel (Z.to_nat n)
        (length (filter (where_clause sel c) (objects (tables w)))) /\
    batches w' = batches w ++
                 map (fun e => queue_batch (map row_stream (q_page e)))
                   (filter nonempty_page evs) /\
    log w' = log w ++ map entry (visited evs).
Proof.
  revert c w. induction fuel as [|fuel IH]; intros c w Hnd Hsid Hf; [lia|].
  destruct (@gc_deleteBatch_quiet env msg entry asOf sel c n w Hquiet
              (Z.lt_le_incl _ _ Hn)) as (w1 & E & Ht & Hl & Hqs & Hb).
  rewrite (@read_source_live env asOf live w) in *.
  remember (select_page (objects (tables w)) c sel n) as page eqn:Hpage.
  set (e0 := {| q_startAfter := c; q_limit := n; q_page := page |}) in *.
  cbn [batch_loop]. fold turn in E. rewrite E.
  destruct page as [|a rest] eqn:Epage.
  - (* the empty page ends the pass *)
    cbn [map List.last zeroObjectStream StreamID IsZero]. simpl N.eqb.
    assert (Hnone : forall x, In x (objects (tables w)) ->
                              where_clause sel c x = false).
    { intros x Hx. eapply select_page_empty; eauto. }
    exists w1, [e0]. split; [reflexivity|]. split.
    { rewrite Ht, delete_page_nil. symmetry. now apply gc_result_done. }
    split; [exact Hqs|]. split.
    { rewrite (filter_none _ _ Hnone). reflexivity. }
    split; [now rewrite Hb, app_nil_r|].
    rewrite Hl. reflexivity.
  - (* a page with rows: its last row is the next cursor *)
    rewrite <- Epage in *.
    assert (Hne : page <> []) by (rewrite Epage; discriminate).
    set (p := List.last page a).
    assert (Hp : In p page) by now apply last_In.
    assert (Hlast : forall d, List.last page d = p).
    { intros d. unfold p. rewrite Epage, !last_cons. reflexivity. }
    rewrite (last_map_row_stream a Hne). fold p.
    pose proof Hp as Hp'. rewrite Hpage in Hp'.
    apply select_page_In in Hp'. destruct Hp' as (Hpin & _ & Hps).
    assert (Z : IsZero (StreamID (row_stream p)) = false).
    { apply N.eqb_neq. now apply Hsid. }
    rewrite Z.
    destruct (tables w) as [src segs] eqn:Et. simpl in Hnd, Hsid, Hf, Hpin.
    simpl objects in Hpage.
    pose proof (@where_count_step src segs c sel n Hn Hnd p) as Hcount.
    pose proof (@gc_result_step src segs c sel n Hn Hnd p) as Hres.
    rewrite <- Hpage in Hcount, Hres.
    specialize (Hcount Hp Hlast). specialize (Hres Hp Hlast).
    rewrite <- Ht in Hcount, Hres.
    destruct (IH (row_stream p) w1) as (w' & evs & Hrun & Ht' & Hq' & Hs' & Hb' & Hl').
    { rewrite Ht. simpl. now apply NoDup_keys_filter. }
    { intros x Hx. apply Hsid. rewrite Ht in Hx. simpl in Hx.
      now apply filter_In in Hx. }
    { assert (0 < length page) by (rewrite Epage; simpl; lia). lia. }
    exists w', (e0 :: evs). split; [exact Hrun|]. split.
    { now rewrite Ht', Hres. }
    split.
    { rewrite Hq', Hqs, <- app_assoc. reflexivity. }
    split.
    { cbn [map page_sizes q_page e0]. rewrite Hs'.
      pose proof (@select_page_length_eq src c sel n) as Hlen.
      rewrite <- Hpage in Hlen. simpl objects.
      destruct (length (filter (where_clause sel c) src)) as [|k] eqn:Ek.
      - exfalso. rewrite Epage in Hlen. simpl in Hlen. lia.
      - rewrite <- Hlen. rewrite Epage at 1. f_equal. f_equal. lia. }
    split.
    { change (filter nonempty_page (e0 :: evs))
        with (e0 :: filter nonempty_page evs).
      rewrite Hb', Hb, Epage, <- app_assoc. reflexivity. }
    change (visited (e0 :: evs)) with ((a :: rest) ++ visited evs).
    now rewrite Hl', Hl, Epage, map_app, <- app_assoc.
Qed.

End GcExact.

(* ================================================================== *)
(** * The passes *)

Lemma run_pass_loop env fuel p w :
  run_pass env fuel p w =
  batch_loop fuel
    (gc_deleteBatch env (pass_asOf p) (pass_msg p) (pass_entry p) (pass_sel p))
    zeroObjectStream (effective_batchsize env p) w.
Proof. destruct p; reflexivity. Qed.

Lemma distinct_keys_sound rows :
  distinct_keys rows = true -> NoDup (map row_key rows).
Proof.
  induction rows as [|r rest IH]; simpl; [constructor|].
  rewrite andb_true_iff, negb_true_iff. intros [Hr Hrest].
  constructor; [|now apply IH].
  intros Hin. apply in_map_iff in Hin. destruct Hin as (x & Hx & Hin).
  assert (existsb (fun x => key_eqb (row_key r) (row_key x)) rest = true).
  { apply existsb_exists. exists x. split; [exact Hin|].
    apply key_eqb_eq. now symmetry. }
  congruence.
Qed.

Lemma well_formedb_sound rows : well_formedb rows = true -> well_formed rows.
Proof.
  unfold well_formedb. rewrite andb_true_iff, forallb_forall.
  intros [Hd Hall]. split.
  - now apply distinct_keys_sound.
  - intros r Hr. specialize (Hall r Hr). apply andb_true_iff in Hall.
    apply Hall.
  - intros r Hr. specialize (Hall r Hr). apply andb_true_iff in Hall.
    destruct Hall as [_ Hz]. apply negb_true_iff in Hz.
    now apply N.eqb_neq in Hz.
Qed.

(** A stored version of at least 1 puts the key tuple above the zero
    cursor. *)
Lemma positive_version_after_zero r :
  (0 < version r)%Z -> key_lt (stream_key zeroObjectStream) (row_key r).
Proof.
  intros Hv. unfold key_lt, key_ltb, row_key, stream_key, key_compare. simpl.
  destruct (project_id r) as [|pp]; simpl; [|reflexivity].
  destruct (bucket_name r); simpl; [|reflexivity].
  destruct (object_key r); simpl; [|reflexivity].
  destruct (version r); simpl; try reflexivity; lia.
Qed.

Section GcPass.

Variable env : Env.
Variable asOf : Time.
Variable msg : string.
Variable entry : ObjectRow -> LogEntry.
Variable sel : ObjectRow -> bool.
Variable n : Z.

Hypothesis live : AsOfSystemTime env asOf = None.

Let turn (e : Env) := gc_deleteBatch e asOf msg entry sel.

(** A run that succeeds is a run in which nothing failed. *)
Lemma gc_loop_Ok fuel c w w' :
  batch_loop fuel (turn env) c n w = Some (Ok tt, w') ->
  batch_loop fuel (turn (quiet env)) c n w = Some (Ok tt, w').
Proof.
  revert c w. induction fuel as [|fuel IH]; intros c w; simpl; [discriminate|].
  destruct (turn env c n w) as [[l|e] w1] eqn:E; [|discriminate].
  apply gc_deleteBatch_Ok in E. unfold turn. rewrite E.
  destruct (IsZero (StreamID l)); [trivial | apply IH].
Qed.

Lemma where_clause_zero rows x :
  well_formed rows -> In x rows -> where_clause sel zeroObjectStream x = sel x.
Proof.
  intros Hwf Hx. unfold where_clause.
  now rewrite (wf_after_zero Hwf x Hx).
Qed.

Lemma gc_result_zero t :
  well_formed (objects t) ->
  gc_result sel zeroObjectStream t = gc_pass_result sel t.
Proof.
  intros Hwf. unfold gc_result, gc_pass_result.
  assert (E : filter (where_clause sel zeroObjectStream) (objects t)
              = filter sel (objects t)).
  { apply filter_ext_in. intros x Hx. now apply where_clause_zero with (objects t). }
  rewrite E. f_equal. apply filter_ext_in. intros x Hx.
  now rewrite (@where_clause_zero (objects t) x Hwf Hx).
Qed.

(** A pass that returns without error has removed every selected row and
    the segments of its stream, in pages of the batch size. *)
Lemma gc_pass_Ok fuel w w' :
  well_formed (objects (tables w)) -> (0 < n)%Z ->
  batch_loop fuel (turn env) zeroObjectStream n w = Some (Ok tt, w') ->
  tables w' = gc_pass_result sel (tables w) /\
  exists evs,
    queries w' = queries w ++ evs /\
    map (fun e => length (q_page e)) evs
    = page_sizes (S (length (filter sel (objects (tables w))))) (Z.to_nat n)
        (length (filter sel (objects (tables w)))) /\
    batches w' = batches w ++
                 map (fun e => queue_batch (map row_stream (q_page e)))
                   (filter nonempty_page evs) /\
    log w' = log w ++ map entry (visited evs).
Proof.
  intros Hwf Hn Hrun. apply gc_loop_Ok in Hrun.
  assert (E : filter (where_clause sel zeroObjectStream) (objects (tables w))
              = filter sel (objects (tables w))).
  { apply filter_ext_in. intros x Hx.
    now apply where_clause_zero with (objects (tables w)). }
  set (k := length (filter sel (objects (tables w)))).
  destruct (@gc_loop_exact (quiet env) asOf msg entry sel n
              (fun _ => eq_refl) live Hn (S k) zeroObjectStream w)
    as (w'' & evs & Hrun' & Ht & Hrest).
  - apply Hwf.
  - intros x Hx _. now apply (wf_stream_id Hwf).
  - rewrite E. unfold k. lia.
  - rewrite E in Hrest. fold k in Hrest.
    pose proof (@batch_loop_mono _ _ _ _ _ _ _ Hrun (Nat.le_max_l fuel (S k))) as H1.
    pose proof (@batch_loop_mono _ _ _ _ _ _ _ Hrun' (Nat.le_max_r fuel (S k))) as H2.
    unfold turn in H1. rewrite H1 in H2. inversion H2; subst w''.
    split; [now rewrite Ht, gc_result_zero | eauto].
Qed.

(** When nothing fails, the pass returns without error. *)
Lemma gc_pass_quiet fuel w :
  (forall op, fails env op = false) ->
  well_formed (objects (tables w)) -> (0 < n)%Z ->
  length (filter sel (objects (tables w))) < fuel ->
  exists w', batch_loop fuel (turn env) zeroObjectStream n w = Some (Ok tt, w').
Proof.
  intros Hq Hwf Hn Hf.
  destruct (@gc_loop_exact env asOf msg entry sel n Hq live Hn fuel
              zeroObjectStream w) as (w' & evs & Hrun & _).
  - apply Hwf.
  - intros x Hx _. now apply (wf_stream_id Hwf).
  - erewrite filter_ext_in; [exact Hf|]. intros x Hx.
    now apply where_clause_zero with (objects (tables w)).
  - now exists w'.
Qed.

(** ** A turn with nothing to read *)

Lemma turn_nothing e c w r w' :
  select_page (read_source e asOf w) c sel n = [] ->
  turn e c n w = (r, w') ->
  tables w' = tables w /\ batches w' = batches w /\
  object_delete w' = object_delete w /\ segment_delete w' = segment_delete w /\
  log w' = log w /\
  (r = Ok zeroObjectStream \/ exists err, r = Err err).
Proof.
  intros Hp.
  unfold turn, gc_deleteBatch, bind, wrapErr, QueryContext, make_objects.
  destruct (n <? 0)%Z; [intros H; inversion H; subst; eauto 10|].
  cbv beta iota. fold (read_source e asOf w). rewrite Hp.
  destruct (fails e (OpQuery _)); [intros H; inversion H; subst; eauto 10|].
  simpl. unfold ret. intros H; inversion H; subst. simpl. auto 10.
Qed.

Lemma loop_nothing e fuel c w :
  select_page (read_source e asOf w) c sel n = [] ->
  exists r w',
    batch_loop (S fuel) (turn e) c n w = Some (r, w') /\
    tables w' = tables w /\ batches w' = batches w /\
    object_delete w' = object_delete w /\ segment_delete w' = segment_delete w /\
    log w' = log w.
Proof.
  intros Hp. simpl. destruct (turn e c n w) as [r w'] eqn:E.
  destruct (@turn_nothing e c w r w' Hp E) as (Ht & Hb & Ho & Hs & Hl & Hr).
  destruct Hr as [->|(err & ->)]; simpl; eauto 10.
Qed.

(** ** Running the pass again *)

Lemma gc_pass_again f2 fuel w w1 fuel2 :
  well_formed (objects (tables w)) ->
  batch_loop fuel (turn env) zeroObjectStream n w = Some (Ok tt, w1) ->
  exists r2 w2,
    batch_loop (S fuel2) (turn (with_fails env f2)) zeroObjectStream n w1
    = Some (r2, w2) /\
    tables w2 = tables w1 /\ batches w2 = batches w1 /\
    object_delete w2 = object_delete w1 /\
    segment_delete w2 = segment_delete w1 /\
    log w2 = log w1.
Proof.
  intros Hwf Hrun. apply loop_nothing.
  unfold read_source. cbn [AsOfSystemTime with_fails]. rewrite live.
  rewrite select_page_unfold.
  destruct (Z.ltb_spec 0 n) as [Hn|Hn].
  - destruct (@gc_pass_Ok fuel w w1 Hwf Hn Hrun) as (Ht & _).
    rewrite Ht. simpl. rewrite filter_filter, filter_none; [now rewrite firstn_nil|].
    intros x _. unfold where_clause.
    destruct (sel x); simpl; [reflexivity | now rewrite andb_false_r].
  - replace (Z.to_nat n) with 0 by lia. reflexivity.
Qed.

End GcPass.

(* ================================================================== *)
(** * The expired-object pass *)

Lemma pass_deleteBatch_eq env p :
  pass_deleteBatch env p
  = gc_deleteBatch env (pass_asOf p) (pass_msg p) (pass_entry p) (pass_sel p).
Proof. destruct p; reflexivity. Qed.

Lemma run_pass_Run env fuel p w r w' :
  run_pass env fuel p w = Some (r, w') ->
  Run (gc_deleteBatch env (pass_asOf p) (pass_msg p) (pass_entry p) (pass_sel p))
    (effective_batchsize env p) zeroObjectStream w r w'.
Proof. rewrite run_pass_loop. apply batch_loop_Run. Qed.

Lemma not_in_filter (A : Type) (g : A -> bool) l x :
  In x l -> ~ In x (filter g l) -> g x = false.
Proof.
  intros Hx Hn. destruct (g x) eqn:E; [|reflexivity].
  exfalso. apply Hn, filter_In. now split.
Qed.

Lemma sql_lt_true c bound :
  sql_lt c bound = true <-> exists t, c = Some t /\ (t < bound)%Z.
Proof.
  destruct c as [t|]; simpl; split.
  - intros H. exists t. split; [reflexivity | now apply Z.ltb_lt].
  - intros (t' & E & H). inversion E; subst. now apply Z.ltb_lt.
  - discriminate.
  - intros (t' & E & _). discriminate.
Qed.

(** What a pass over the current table removes, whatever fails, and what it
    has removed when it returns without error. *)
Lemma pass_removes env p fuel w r w' :
  AsOfSystemTime env (pass_asOf p) = None ->
  well_formed (objects (tables w)) ->
  run_pass env fuel p w = Some (r, w') ->
  (forall x, In x (objects (tables w')) -> In x (objects (tables w))) /\
  (forall x, In x (objects (tables w)) -> ~ In x (objects (tables w')) ->
             pass_sel p x = true) /\
  (forall x, In x (objects (tables w)) -> pass_sel p x = false ->
             In x (objects (tables w'))) /\
  (forall s, In s (segments (tables w)) ->
             (forall x, In x (objects (tables w)) -> pass_sel p x = true ->
                        stream_id x <> seg_stream_id s) ->
             In s (segments (tables w'))) /\
  (r = Ok tt -> (0 < effective_batchsize env p)%Z ->
   tables w' = gc_pass_result (pass_sel p) (tables w)).
Proof.
  intros live Hwf Hrun. pose proof (@run_pass_Run env fuel p w r w' Hrun) as HR.
  destruct (@Run_removes env (pass_asOf p) (pass_msg p) (pass_entry p)
              (pass_sel p) (effective_batchsize env p) live
              zeroObjectStream w r w' (wf_primary_key Hwf) HR)
    as [(g & Hg & Hg') (h & Hh & Hh')].
  assert (Hsel : forall x, In x (objects (tables w)) -> g x = false ->
                           pass_sel p x = true).
  { intros x Hx Hgx. specialize (Hg' x Hx Hgx).
    unfold where_clause in Hg'. now apply andb_true_iff in Hg'. }
  split; [|split; [|split; [|split]]].
  - intros x Hx. rewrite Hg in Hx. now apply filter_In in Hx.
  - intros x Hx Hn. rewrite Hg in Hn.
    exact (Hsel x Hx (@not_in_filter _ g _ x Hx Hn)).
  - intros x Hx Hs. rewrite Hg. apply filter_In. split; [exact Hx|].
    destruct (g x) eqn:G; [reflexivity|]. rewrite (Hsel x Hx G) in Hs.
    discriminate.
  - intros s Hs Hno. rewrite Hh. apply filter_In. split; [exact Hs|].
    destruct (h s) eqn:H; [reflexivity|]. exfalso.
    destruct (Hh' s H) as (x & Hx & Hw & Hm).
    unfold where_clause in Hw. apply andb_true_iff in Hw.
    apply N.eqb_eq in Hm. apply (Hno x Hx); [tauto | now symmetry].
  - intros -> Hn. rewrite run_pass_loop in Hrun.
    now destruct (@gc_pass_Ok env (pass_asOf p) (pass_msg p) (pass_entry p)
                    (pass_sel p) (effective_batchsize env p) live fuel w w'
                    Hwf Hn Hrun).
Qed.

(** C1 (as amended).  Every row the expired-object pass removes from the
    current table has a non-NULL [expires_at] earlier than [ExpiredBefore],
    whatever fails during the run and whatever the row's [status]; and a run
    that returns without error has removed exactly the rows with
    [expires_at < ExpiredBefore], Pending rows included.  The query has no
    condition on [status]. *)
Theorem C1_expired_pass_removes_rows_past_expiry env opts fuel w r w' :
  AsOfSystemTime env (Expired_AsOfSystemTime opts) = None ->
  well_formed (objects (tables w)) ->
  DeleteExpiredObjects env fuel opts w = Some (r, w') ->
  (forall x, In x (objects (tables w')) -> In x (objects (tables w))) /\
  (forall x, In x (objects (tables w)) -> ~ In x (objects (tables w')) ->
             exists t, expires_at x = Some t /\ (t < ExpiredBefore opts)%Z) /\
  (r = Ok tt ->
   (0 < Ensure env deleteBatchsizeLimit (Expired_BatchSize opts))%Z ->
   objects (tables w')
   = filter (fun x => negb (sql_lt (expires_at x) (ExpiredBefore opts)))
       (objects (tables w))).
Proof.
  intros live Hwf Hrun.
  destruct (@pass_removes env (ExpiredPass opts) fuel w r w' live Hwf Hrun)
    as (H1 & H2 & _ & _ & H5).
  split; [exact H1|]. split.
  - intros x Hx Hn. apply sql_lt_true. exact (H2 x Hx Hn).
  - intros Hr Hn. now rewrite (H5 Hr Hn).
Qed.

(** C1, as stated, fails: a Pending row whose [expires_at] has lapsed is
    removed by the expired-object pass. *)
Lemma C1_pending_row_with_lapsed_expiry_is_deleted :
  In row_b (objects (tables example_world)) /\
  status row_b = Pending /\
  sql_lt (expires_at row_b) (ExpiredBefore (expired_opts 2)) = true /\
  DeleteExpiredObjects env_ok 10 (expired_opts 2) example_world
  = Some (Ok tt,
          world_after example_world
            (DeleteExpiredObjects env_ok 10 (expired_opts 2) example_world)) /\
  ~ In row_b
      (objects (tables (world_after example_world
         (DeleteExpiredObjects env_ok 10 (expired_opts 2) example_world)))).
Proof.
  split; [vm_compute; tauto|].
  split; [vm_compute; reflexivity|].
  split; [vm_compute; reflexivity|].
  split; [vm_compute; reflexivity|].
  vm_compute. intros [H|[H|[H|H]]]; try discriminate H. exact H.
Qed.

(** The amended C1 at the example store: the pass returns without error and
    leaves exactly the rows whose [expires_at] is NULL. *)
Lemma C1_witness :
  objects (tables (world_after example_world
     (DeleteExpiredObjects env_ok 10 (expired_opts 2) example_world)))
  = filter (fun x => negb (sql_lt (expires_at x)
                             (ExpiredBefore (expired_opts 2))))
      (objects (tables example_world)).
Proof.
  refine (proj2 (proj2
    (@C1_expired_pass_removes_rows_past_expiry env_ok (expired_opts 2) 10
       example_world (Ok tt)
       (world_after example_world
          (DeleteExpiredObjects env_ok 10 (expired_opts 2) example_world))
       _ _ _)) _ _).
  - vm_compute; reflexivity.
  - apply well_formedb_sound. vm_compute; reflexivity.
  - vm_compute; reflexivity.
  - reflexivity.
  - vm_compute; reflexivity.
Defined.

(* ================================================================== *)
(** * The zombie-object pass *)




(* ================================================================== *)
(** * Properties of both passes *)

(** C5.  After a pass over the current table that returned without error, the
    same pass run again on what it left, nothing having been added, ends
    after one SELECT: it sends no batch, changes neither table and marks
    neither meter, whichever operations fail this time. *)
Theorem C5_second_pass_deletes_nothing env f2 p fuel w w1 fuel2 :
  AsOfSystemTime env (pass_asOf p) = None ->
  well_formed (objects (tables w)) ->
  run_pass env fuel p w = Some (Ok tt, w1) ->
  exists r2 w2,
    run_pass (with_fails env f2) (S fuel2) p w1 = Some (r2, w2) /\
    tables w2 = tables w1 /\
    batches w2 = batches w1 /\
    object_delete w2 = object_delete w1 /\
    segment_delete w2 = segment_delete w1.
Proof.
  intros live Hwf Hrun. rewrite run_pass_loop in Hrun.
  destruct (@gc_pass_again env (pass_asOf p) (pass_msg p) (pass_entry p)
              (pass_sel p) (effective_batchsize env p) live f2 fuel w w1 fuel2
              Hwf Hrun) as (r2 & w2 & H & Ht & Hb & Ho & Hs & _).
  exists r2, w2. rewrite run_pass_loop. auto.
Qed.

Lemma C5_witness :
  exists r2 w2,
    run_pass (with_fails env_ok (fun _ => false)) 1 (ExpiredPass (expired_opts 2))
      (world_after example_world
         (run_pass env_ok 10 (ExpiredPass (expired_opts 2)) example_world))
    = Some (r2, w2) /\
    tables w2 = tables (world_after example_world
         (run_pass env_ok 10 (ExpiredPass (expired_opts 2)) example_world)) /\
    batches w2 = batches (world_after example_world
         (run_pass env_ok 10 (ExpiredPass (expired_opts 2)) example_world)) /\
    object_delete w2 = object_delete (world_after example_world
         (run_pass env_ok 10 (ExpiredPass (expired_opts 2)) example_world)) /\
    segment_delete w2 = segment_delete (world_after example_world
         (run_pass env_ok 10 (ExpiredPass (expired_opts 2)) example_world)).
Proof.
  apply (@C5_second_pass_deletes_nothing env_ok (fun _ => false)
           (ExpiredPass (expired_opts 2)) 10 example_world
           (world_after example_world
              (run_pass env_ok 10 (ExpiredPass (expired_opts 2)) example_world))
           0).
  - vm_compute; reflexivity.
  - apply well_formedb_sound. vm_compute; reflexivity.
  - vm_compute; reflexivity.
Defined.

(** C6.  Within one pass the rows are visited in strictly increasing order of
    the key tuple [(project_id, bucket_name, object_key, version)]: every
    SELECT returns at most [BatchSize] rows, all selected, all strictly after
    the cursor it was issued with; the cursors of successive SELECTs strictly
    increase; and the rows of all pages, in the order read, strictly increase.
    This holds whatever fails and for either kind of read. *)
Theorem C6_pass_visits_rows_in_key_order env p fuel w r w' :
  NoDup (map row_key (read_source env (pass_asOf p) w)) ->
  (Ensure env deleteBatchsizeLimit (pass_BatchSize p) <= pass_BatchSize p)%Z ->
  run_pass env fuel p w = Some (r, w') ->
  exists evs,
    queries w' = queries w ++ evs /\
    Forall (fun e =>
              length (q_page e) <= Z.to_nat (pass_BatchSize p) /\
              Forall (fun x => key_lt (stream_key (q_startAfter e)) (row_key x)
                               /\ pass_sel p x = true) (q_page e)) evs /\
    StronglySorted key_lt (cursor_keys evs) /\
    StronglySorted row_lt (visited evs).
Proof.
  intros Hnd Hens Hrun.
  destruct (Run_trace (@run_pass_Run env fuel p w r w' Hrun))
    as (evs & Hq & Hok & Hcs & _ & _ & _ & Hvs).
  exists evs. split; [exact Hq|]. split; [|split; [exact Hcs | now apply Hvs]].
  eapply Forall_impl; [|exact Hok]. intros e (_ & Hlen & Hall).
  unfold effective_batchsize in Hlen. split; [lia | exact Hall].
Qed.

Lemma C6_witness :
  exists evs,
    queries (world_after example_world
               (run_pass env_ok 10 (ExpiredPass (expired_opts 2)) example_world))
    = queries example_world ++ evs /\
    Forall (fun e =>
              length (q_page e) <= Z.to_nat 2 /\
              Forall (fun x => key_lt (stream_key (q_startAfter e)) (row_key x)
                               /\ expired_sel (expired_opts 2) x = true)
                (q_page e)) evs /\
    StronglySorted key_lt (cursor_keys evs) /\
    StronglySorted row_lt (visited evs).
Proof.
  apply (@C6_pass_visits_rows_in_key_order env_ok (ExpiredPass (expired_opts 2))
           10 example_world (Ok tt)).
  - apply distinct_keys_sound. vm_compute; reflexivity.
  - vm_compute. discriminate.
  - vm_compute; reflexivity.
Defined.

(** C9.  Every pass terminates: with more fuel than there are selected rows
    in the table it reads, the loop returns, and always the same result; it
    issues at most one SELECT more than there are selected rows; a SELECT that
    returns an empty page is the last one and the pass then returns without
    error; and before that each SELECT is issued with a cursor strictly above
    the previous one. *)
Theorem C9_pass_terminates env p w :
  exists r w' evs,
    (forall fuel,
        length (filter (pass_sel p) (read_source env (pass_asOf p) w)) < fuel ->
        run_pass env fuel p w = Some (r, w')) /\
    queries w' = queries w ++ evs /\
    length evs
    <= S (length (filter (pass_sel p) (read_source env (pass_asOf p) w))) /\
    empty_page_ends r evs /\
    StronglySorted key_lt (cursor_keys evs).
Proof.
  set (k := length (filter (pass_sel p) (read_source env (pass_asOf p) w))).
  set (turn := gc_deleteBatch env (pass_asOf p) (pass_msg p) (pass_entry p)
                 (pass_sel p)).
  assert (Hk : length (filter (where_clause (pass_sel p) zeroObjectStream)
                         (read_source env (pass_asOf p) w)) <= k).
  { apply filter_length_le. intros y _ Hy. unfold where_clause in Hy.
    now apply andb_true_iff in Hy. }
  destruct (@gc_loop_terminates env (pass_asOf p) (pass_msg p) (pass_entry p)
              (pass_sel p) (effective_batchsize env p) (S k) zeroObjectStream w)
    as (r & w' & Hrun & Hlen); [lia|].
  destruct (Run_trace (batch_loop_Run _ _ _ _ _ Hrun))
    as (evs & Hq & _ & Hcs & _ & _ & Hend & _).
  exists r, w', evs. split; [|split; [exact Hq|split; [|split; assumption]]].
  - intros fuel Hf. rewrite run_pass_loop.
    apply (@batch_loop_mono _ _ (S k) fuel _ _ _ Hrun). lia.
  - rewrite Hq, length_app in Hlen. lia.
Qed.

(* ================================================================== *)
(** * The expired pass with a batch size of two over five expired rows *)

Lemma nonempty_page_length e :
  nonempty_page e = negb (Nat.eqb (length (q_page e)) 0).
Proof. unfold nonempty_page. now destruct (q_page e). Qed.

(** C7.  With nothing failing, [BatchSize = 2] and exactly five rows with a
    lapsed [expires_at], the expired-object pass sends three batches, for
    pages of 2, 2 and 1 rows; afterwards every row with a lapsed
    [expires_at] is gone and so is every segment of the stream of such a row,
    and nothing else is. *)
Theorem C7_five_expired_rows_in_batches_of_two env opts fuel w :
  (forall op, fails env op = false) ->
  AsOfSystemTime env (Expired_AsOfSystemTime opts) = None ->
  well_formed (objects (tables w)) ->
  Expired_BatchSize opts = 2%Z ->
  Ensure env deleteBatchsizeLimit 2%Z = 2%Z ->
  length (filter (expired_sel opts) (objects (tables w))) = 5 ->
  5 < fuel ->
  exists w' p1 p2 p3,
    DeleteExpiredObjects env fuel opts w = Some (Ok tt, w') /\
    batches w' = batches w ++ [queue_batch p1; queue_batch p2; queue_batch p3] /\
    length p1 = 2 /\ length p2 = 2 /\ length p3 = 1 /\
    objects (tables w')
    = filter (fun x => negb (expired_sel opts x)) (objects (tables w)) /\
    segments (tables w')
    = filter (fun s =>
                negb (existsb (fun x => N.eqb (seg_stream_id s) (stream_id x))
                        (filter (expired_sel opts) (objects (tables w)))))
        (segments (tables w)).
Proof.
  intros Hq live Hwf Hbs Hens Hfive Hfuel.
  assert (Hn : effective_batchsize env (ExpiredPass opts) = 2%Z).
  { unfold effective_batchsize. simpl. now rewrite Hbs. }
  destruct (@gc_pass_quiet env (Expired_AsOfSystemTime opts) msg_expired
              expired_entry (expired_sel opts) 2%Z live fuel w Hq Hwf)
    as (w' & Hrun); [lia | lia |].
  destruct (@gc_pass_Ok env (Expired_AsOfSystemTime opts) msg_expired
              expired_entry (expired_sel opts) 2%Z live fuel w w' Hwf)
    as (Ht & evs & _ & Hsizes & Hb & _); [lia | exact Hrun |].
  rewrite Hfive in Hsizes. simpl in Hsizes.
  destruct evs as [|e1 [|e2 [|e3 [|e4 [|e5 rest]]]]]; try discriminate Hsizes.
  simpl in Hsizes. injection Hsizes as H1 H2 H3 H4.
  cbn [filter] in Hb. rewrite !nonempty_page_length, H1, H2, H3, H4 in Hb.
  simpl in Hb.
  exists w', (map row_stream (q_page e1)), (map row_stream (q_page e2)),
    (map row_stream (q_page e3)).
  split.
  { change (DeleteExpiredObjects env fuel opts w)
      with (run_pass env fuel (ExpiredPass opts) w).
    rewrite run_pass_loop, Hn. exact Hrun. }
  split; [exact Hb|]. rewrite !length_map.
  split; [exact H1|]. split; [exact H2|]. split; [exact H3|].
  rewrite Ht. split; reflexivity.
Qed.

Lemma C7_witness :
  exists w' p1 p2 p3,
    DeleteExpiredObjects env_ok 6 (expired_opts 2) example_world
    = Some (Ok tt, w') /\
    batches w' = batches example_world
                 ++ [queue_batch p1; queue_batch p2; queue_batch p3] /\
    length p1 = 2 /\ length p2 = 2 /\ length p3 = 1 /\
    objects (tables w')
    = filter (fun x => negb (expired_sel (expired_opts 2) x))
        (objects (tables example_world)) /\
    segments (tables w')
    = filter (fun s =>
                negb (existsb (fun x => N.eqb (seg_stream_id s) (stream_id x))
                        (filter (expired_sel (expired_opts 2))
                           (objects (tables example_world)))))
        (segments (tables example_world)).
Proof.
  apply (@C7_five_expired_rows_in_batches_of_two env_ok (expired_opts 2) 6
           example_world).
  - intros op. reflexivity.
  - vm_compute; reflexivity.
  - apply well_formedb_sound. vm_compute; reflexivity.
  - vm_compute; reflexivity.
  - vm_compute; reflexivity.
  - vm_compute; reflexivity.
  - lia.
Defined.

(* ================================================================== *)
(** * The delete batch *)

Section DeleteUnits.

Variable env : Env.

(** What [deleteObjectsAndSegments] returns and leaves behind once it has a
    connection. *)
Lemma deleteObjectsAndSegments_sent objs w :
  objs <> [] ->
  fails env (OpConn (length (batches w))) = false ->
  let b := length (batches w) in
  let rs := fst (SendBatch env b (queue_batch objs) (tables w)) in
  let w' := snd (deleteObjectsAndSegments env objs w) in
  fst (deleteObjectsAndSegments env objs w)
  = match Group_Err (errors_of rs) with
    | None => Ok tt
    | Some e => Err (ErrWrap msg_expired e)
    end /\
  tables w' = snd (SendBatch env b (queue_batch objs) (tables w)) /\
  batches w' = batches w ++ [queue_batch objs] /\
  queries w' = queries w /\ log w' = log w.
Proof.
  intros Hne Hconn. destruct objs as [|o rest]; [congruence|].
  cbv zeta. unfold deleteObjectsAndSegments, wrapErr.
  rewrite Hconn.
  destruct (SendBatch env _ _ _) as [rs t'].
  rewrite tally_from_errlist. cbn [errlist app fst snd].
  destruct (Group_Err _); simpl; auto.
Qed.

Lemma deleteObjectsAndSegments_no_connection objs w :
  fails env (OpConn (length (batches w))) = true ->
  tables (snd (deleteObjectsAndSegments env objs w)) = tables w.
Proof.
  intros Hconn. destruct objs as [|o rest]; [reflexivity|].
  unfold deleteObjectsAndSegments, wrapErr. now rewrite Hconn.
Qed.

Lemma SendBatch_units b objs t :
  start_failure_is_fatal env b ->
  snd (SendBatch env b (queue_batch objs) t)
  = delete_page (committed_units env b 0 objs) t.
Proof.
  intros Hstart. unfold SendBatch.
  pose proof (@exec_units env b 0 objs t Hstart) as H. simpl in H.
  destruct (exec_from env b 0 (queue_batch objs) _) as [rs ss].
  simpl in *. now rewrite H.
Qed.

Lemma committed_units_In b j objs o :
  In o (committed_units env b j objs) <->
  exists k, nth_error objs k = Some o /\ unit_ok env b (j + k) = true.
Proof.
  revert j. induction objs as [|x rest IH]; intros j; simpl.
  - split; [tauto|]. intros ([|k] & H & _); discriminate.
  - destruct (unit_ok env b j) eqn:U; simpl; rewrite ?IH; split.
    + intros [->|(k & Hk & Hu)].
      * exists 0. now rewrite Nat.add_0_r.
      * exists (S k). now rewrite Nat.add_succ_r.
    + intros ([|k] & Hk & Hu); simpl in Hk.
      * left. congruence.
      * right. exists k. now rewrite Nat.add_succ_r in Hu.
    + intros (k & Hk & Hu). exists (S k). now rewrite Nat.add_succ_r.
    + intros ([|k] & Hk & Hu); simpl in Hk.
      * rewrite Nat.add_0_r in Hu. congruence.
      * exists k. now rewrite Nat.add_succ_r in Hu.
Qed.

Lemma NoDup_StreamID_index objs j k o o' :
  NoDup (map StreamID objs) ->
  nth_error objs j = Some o -> nth_error objs k = Some o' ->
  StreamID o = StreamID o' -> j = k.
Proof.
  intros Hnd Hj Hk E.
  apply (proj1 (NoDup_nth_error (map StreamID objs)) Hnd).
  - rewrite length_map. apply nth_error_Some. congruence.
  - rewrite !nth_error_map, Hj, Hk. simpl. now rewrite E.
Qed.

(** C4.  In a batch, the DELETE of an object's row and the DELETE of the
    segments of its stream stand or fall together, object by object: the
    tables after the batch are the tables before it with both DELETEs applied
    for every object whose four statements went through, and neither applied
    for any other.  So, the stream ids of the page being distinct, an object
    whose unit went through has no row and no segment left, and an object
    whose unit failed has exactly the rows and segments it had, while other
    objects of the same page are deleted.  A batch that gets no connection
    changes nothing. *)
Theorem C4_each_object_is_deleted_as_one_unit objs w :
  start_failure_is_fatal env (length (batches w)) ->
  NoDup (map StreamID objs) ->
  (fails env (OpConn (length (batches w))) = true ->
   tables (snd (deleteObjectsAndSegments env objs w)) = tables w) /\
  (fails env (OpConn (length (batches w))) = false ->
   tables (snd (deleteObjectsAndSegments env objs w))
   = delete_page (committed_units env (length (batches w)) 0 objs) (tables w)
   /\
   forall j obj, nth_error objs j = Some obj ->
     if unit_ok env (length (batches w)) j
     then
       filter (object_matches obj)
         (objects (tables (snd (deleteObjectsAndSegments env objs w)))) = [] /\
       filter (segment_matches (StreamID obj))
         (segments (tables (snd (deleteObjectsAndSegments env objs w)))) = []
     else
       filter (object_matches obj)
         (objects (tables (snd (deleteObjectsAndSegments env objs w))))
       = filter (object_matches obj) (objects (tables w)) /\
       filter (segment_matches (StreamID obj))
         (segments (tables (snd (deleteObjectsAndSegments env objs w))))
       = filter (segment_matches (StreamID obj)) (segments (tables w))).
Proof.
  intros Hstart Hnd. split; [apply deleteObjectsAndSegments_no_connection|].
  intros Hconn.
  set (b := length (batches w)) in *.
  assert (Ht : tables (snd (deleteObjectsAndSegments env objs w))
               = delete_page (committed_units env b 0 objs) (tables w)).
  { clear Hnd. destruct objs as [|o rest].
    - simpl. now rewrite delete_page_nil.
    - remember (o :: rest) as objs' eqn:E.
      destruct (@deleteObjectsAndSegments_sent objs' w) as (_ & Ht & _);
        [subst; discriminate | exact Hconn |].
      rewrite Ht. now apply SendBatch_units. }
  set (cu := committed_units env b 0 objs) in *.
  split; [exact Ht|]. intros j obj Hj. rewrite Ht.
  destruct (unit_ok env b j) eqn:U.
  - assert (Hin : In obj cu).
    { apply committed_units_In. exists j. now split. }
    split; simpl; rewrite filter_filter; apply filter_none; intros x _.
    + destruct (object_matches obj x) eqn:M; [|now rewrite andb_false_r].
      rewrite andb_true_r. apply negb_false_iff, existsb_exists. eauto.
    + destruct (segment_matches (StreamID obj) x) eqn:M;
        [|now rewrite andb_false_r].
      rewrite andb_true_r. apply negb_false_iff, existsb_exists. eauto.
  - assert (Hother : forall o', In o' cu -> StreamID o' <> StreamID obj).
    { intros o' Ho' E. apply committed_units_In in Ho'.
      destruct Ho' as (k & Hk & Hu). simpl in Hu.
      rewrite (@NoDup_StreamID_index objs j k obj o' Hnd Hj Hk (eq_sym E)) in U.
      congruence. }
    split; simpl; rewrite filter_filter; apply filter_ext; intros x.
    + destruct (object_matches obj x) eqn:M; [|now rewrite andb_false_r].
      rewrite andb_true_r. apply negb_true_iff.
      destruct (page_deletes_object cu x) eqn:D; [|reflexivity]. exfalso.
      apply existsb_exists in D. destruct D as (o' & Ho' & M').
      unfold object_matches in M, M'.
      apply andb_true_iff in M, M'. destruct M as [_ M], M' as [_ M'].
      apply N.eqb_eq in M, M'. apply (Hother o' Ho'). congruence.
    + destruct (segment_matches (StreamID obj) x) eqn:M;
        [|now rewrite andb_false_r].
      rewrite andb_true_r. apply negb_true_iff.
      destruct (page_deletes_segment cu x) eqn:D; [|reflexivity]. exfalso.
      apply existsb_exists in D. destruct D as (o' & Ho' & M').
      unfold segment_matches in M, M'. apply N.eqb_eq in M, M'.
      apply (Hother o' Ho'). congruence.
Qed.

End DeleteUnits.

Lemma env_first_delete_fails_start_fatal :
  start_failure_is_fatal env_first_delete_fails 0.
Proof.
  intros j Hj. exfalso. destruct j as [|j]; [discriminate Hj|].
  replace (4 * S j) with (S (S (S (S (4 * j))))) in Hj by lia.
  discriminate Hj.
Qed.

(** C4 at a batch of two objects in which the DELETE of the first object's
    row fails: the first object keeps its row and its segment. *)
Lemma C4_witness :
  filter (object_matches (row_stream row_a))
    (objects (tables (snd (deleteObjectsAndSegments env_first_delete_fails
                             [row_stream row_a; row_stream row_c]
                             three_rows_world))))
  = filter (object_matches (row_stream row_a))
      (objects (tables three_rows_world)) /\
  filter (segment_matches (StreamID (row_stream row_a)))
    (segments (tables (snd (deleteObjectsAndSegments env_first_delete_fails
                              [row_stream row_a; row_stream row_c]
                              three_rows_world))))
  = filter (segment_matches (StreamID (row_stream row_a)))
      (segments (tables three_rows_world)).
Proof.
  refine (proj2 (proj2
    (@C4_each_object_is_deleted_as_one_unit env_first_delete_fails
       [row_stream row_a; row_stream row_c] three_rows_world _ _) _)
    0 (row_stream row_a) _).
  - exact env_first_delete_fails_start_fatal.
  - vm_compute. repeat constructor; simpl; intuition discriminate.
  - vm_compute; reflexivity.
  - vm_compute; reflexivity.
Defined.

(** C10.  The DELETE of the object row is conditional on the key tuple and
    on the [stream_id] seen by the scan; the DELETE of the segments is on the
    scanned [stream_id] alone.  Whatever fails, a row whose [stream_id] is
    not the one scanned under its key stays, and so does every segment whose
    stream is not a scanned one: an object uploaded again under the same key
    between scan and delete keeps its row and its new segments.  When nothing
    fails the batch removes exactly the rows matching a scanned object on key
    and [stream_id], and exactly the segments of the scanned streams, whether
    or not the object row was still there. *)
Theorem C10_delete_is_conditional_on_stream_id env objs w :
  (forall r, In r (objects (tables w)) ->
     (forall o, In o objs -> stream_key o = row_key r ->
                StreamID o <> stream_id r) ->
     In r (objects (tables (snd (deleteObjectsAndSegments env objs w))))) /\
  (forall s, In s (segments (tables w)) ->
     (forall o, In o objs -> StreamID o <> seg_stream_id s) ->
     In s (segments (tables (snd (deleteObjectsAndSegments env objs w))))) /\
  ((forall op, fails env op = false) ->
   objects (tables (snd (deleteObjectsAndSegments env objs w)))
   = filter (fun r => negb (existsb
               (fun o => key_eqb (row_key r) (stream_key o)
                         && N.eqb (stream_id r) (StreamID o)) objs))
       (objects (tables w)) /\
   segments (tables (snd (deleteObjectsAndSegments env objs w)))
   = filter (fun s => negb (existsb
               (fun o => N.eqb (seg_stream_id s) (StreamID o)) objs))
       (segments (tables w))).
Proof.
  destruct (deleteObjectsAndSegments_frame env objs w)
    as ([(g & Hg & Hg') (h & Hh & Hh')] & _).
  split; [|split].
  - intros r Hr Hno. rewrite Hg. apply filter_In. split; [exact Hr|].
    destruct (g r) eqn:G; [reflexivity|]. exfalso.
    specialize (Hg' r G). apply existsb_exists in Hg'.
    destruct Hg' as (o & Ho & M). unfold object_matches in M.
    apply andb_true_iff in M. destruct M as [Mk Ms].
    apply key_eqb_eq in Mk. apply N.eqb_eq in Ms.
    apply (Hno o Ho); congruence.
  - intros s Hs Hno. rewrite Hh. apply filter_In. split; [exact Hs|].
    destruct (h s) eqn:H; [reflexivity|]. exfalso.
    specialize (Hh' s H). apply existsb_exists in Hh'.
    destruct Hh' as (o & Ho & M). apply N.eqb_eq in M.
    apply (Hno o Ho). congruence.
  - intros Hq.
    destruct (deleteObjectsAndSegments_quiet env objs w Hq)
      as (w' & E & Ht & _).
    rewrite E. simpl snd. rewrite Ht. split; reflexivity.
Qed.

(** C10 at a table where [row_a], scanned with stream 1, has since been
    replaced under its key by [row_a2] with stream 9: the new row and the
    segment of stream 9 are still there after the batch. *)
Lemma C10_witness :
  In row_a2
    (objects (tables (snd (deleteObjectsAndSegments env_ok
                             [row_stream row_a] recreated_world)))) /\
  In (mk_seg 9%N 0%Z)
    (segments (tables (snd (deleteObjectsAndSegments env_ok
                              [row_stream row_a] recreated_world)))).
Proof.
  destruct (@C10_delete_is_conditional_on_stream_id env_ok [row_stream row_a]
              recreated_world) as (Hrow & Hseg & _).
  split.
  - apply Hrow; [vm_compute; tauto|].
    intros o [<-|[]] _. vm_compute. discriminate.
  - apply Hseg; [vm_compute; tauto|].
    intros o [<-|[]]. vm_compute. discriminate.
Defined.

(** The same at the level of a pass, for a SELECT that reads an older state
    of the table: a row whose [stream_id] is not the one the SELECT saw under
    its key stays, and so do the segments of a stream the SELECT saw on no
    row. *)
Lemma pass_keeps_row_with_another_stream env p fuel w r w' x :
  run_pass env fuel p w = Some (r, w') ->
  In x (objects (tables w)) ->
  (forall q, In q (read_source env (pass_asOf p) w) ->
             row_key q = row_key x -> stream_id q <> stream_id x) ->
  In x (objects (tables w')).
Proof.
  intros Hrun Hx Hno.
  destruct (Run_removes_read (@run_pass_Run env fuel p w r w' Hrun))
    as [(g & Hg & Hg') _].
  rewrite Hg. apply filter_In. split; [exact Hx|].
  destruct (g x) eqn:G; [reflexivity|]. exfalso.
  destruct (Hg' x G) as (q & Hq & Hm).
  apply object_matches_row_stream in Hm. destruct Hm as [Hk Hs].
  apply (Hno q Hq); congruence.
Qed.

Lemma pass_keeps_segments_of_unread_stream env p fuel w r w' s :
  run_pass env fuel p w = Some (r, w') ->
  In s (segments (tables w)) ->
  (forall q, In q (read_source env (pass_asOf p) w) ->
             stream_id q <> seg_stream_id s) ->
  In s (segments (tables w')).
Proof.
  intros Hrun Hs Hno.
  destruct (Run_removes_read (@run_pass_Run env fuel p w r w' Hrun))
    as [_ (h & Hh & Hh')].
  rewrite Hh. apply filter_In. split; [exact Hs|].
  destruct (h s) eqn:H; [reflexivity|]. exfalso.
  destruct (Hh' s H) as (q & Hq & Hm). apply N.eqb_eq in Hm.
  apply (Hno q Hq). congruence.
Qed.

(** The expired pass reading the table as it was before [row_a] was
    uploaded again leaves the new row and its segment, and removes the
    segment of the old stream. *)
Example stale_read_keeps_new_upload :
  tables (world_after recreated_world
            (DeleteExpiredObjects env_stale_read 5 (expired_opts 2)
               recreated_world))
  = {| objects := [row_a2]; segments := [mk_seg 9%N 0%Z] |}.
Proof. vm_compute. reflexivity. Qed.

(** With one object in the batch the meters are marked with what the two
    DELETEs removed: indices 0 to 3 fall on the intended cases of
    [switch i % 3]. *)
Lemma one_object_batch_meters env o w :
  (forall op, fails env op = false) ->
  object_delete (snd (deleteObjectsAndSegments env [o] w))
  = (object_delete w
     + int64_add 0 (rows_affected (DeleteObject o) (tables w)))%Z /\
  segment_delete (snd (deleteObjectsAndSegments env [o] w))
  = (segment_delete w
     + int64_add 0 (rows_affected (DeleteSegments (StreamID o)) (tables w)))%Z.
Proof.
  intros Hq. unfold deleteObjectsAndSegments, wrapErr, SendBatch.
  rewrite Hq. cbn [queue_batch flat_map queue_unit app exec_from].
  rewrite !Hq. cbn. split; reflexivity.
Qed.

(** C3 fails on the code.  A batch of two objects, the first with one segment
    and the second with two, removes 2 object rows and 3 segment rows, but
    marks [object_delete] with 1 and [segment_delete] with 2: with four
    statements per object, [i % 3] reads the second object's row DELETE as a
    segment DELETE and skips its segment DELETE. *)
Theorem C3_meters_miscount_second_object :
  DeleteExpiredObjects env_ok 5 (expired_opts 2) two_rows_world
  = Some (Ok tt,
          world_after two_rows_world
            (DeleteExpiredObjects env_ok 5 (expired_opts 2) two_rows_world)) /\
  length (objects (tables two_rows_world))
  - length (objects (tables (world_after two_rows_world
       (DeleteExpiredObjects env_ok 5 (expired_opts 2) two_rows_world)))) = 2 /\
  length (segments (tables two_rows_world))
  - length (segments (tables (world_after two_rows_world
       (DeleteExpiredObjects env_ok 5 (expired_opts 2) two_rows_world)))) = 3 /\
  object_delete (world_after two_rows_world
       (DeleteExpiredObjects env_ok 5 (expired_opts 2) two_rows_world)) = 1%Z /\
  segment_delete (world_after two_rows_world
       (DeleteExpiredObjects env_ok 5 (expired_opts 2) two_rows_world)) = 2%Z.
Proof. vm_compute. repeat split; reflexivity. Qed.

(* ================================================================== *)
(** * A unit that fails *)

Lemma exec_from_failed env b i0 stmts ss i :
  i < length stmts ->
  fails env (OpStmt b (i0 + i)) = true ->
  In (ErrDB (OpStmt b (i0 + i))) (errors_of (fst (exec_from env b i0 stmts ss))).
Proof.
  revert i0 i ss. induction stmts as [|s rest IH]; intros i0 i ss Hi Hf;
    [simpl in Hi; lia|].
  cbn [exec_from].
  destruct (exec_stmt (fails env (OpStmt b i0)) (OpStmt b i0) s ss)
    as [r ss1] eqn:E.
  specialize (IH (S i0)).
  destruct i as [|i].
  - rewrite Nat.add_0_r in *. rewrite Hf in E. unfold exec_stmt in E.
    inversion E; subst r. clear E.
    match goal with
    | |- context [exec_from env b (S i0) rest ?x] =>
        destruct (exec_from env b (S i0) rest x)
    end. simpl. now left.
  - specialize (IH i ss1). simpl in Hi.
    replace (i0 + S i) with (S i0 + i) in * by lia.
    destruct (exec_from env b (S i0) rest ss1) as [rs ss2].
    unfold errors_of in *. cbn [fst flat_map] in *.
    apply in_or_app. right. apply IH; [lia | exact Hf].
Qed.

Lemma SendBatch_length env b stmts t :
  length (fst (SendBatch env b stmts t)) = length stmts.
Proof.
  unfold SendBatch.
  pose proof (exec_from_length env b 0 stmts
                {| committed := t; txn := NoTxn |}) as H.
  destruct (exec_from env b 0 stmts _) as [rs ss]. exact H.
Qed.

Lemma SendBatch_failed env b stmts t i :
  i < length stmts -> fails env (OpStmt b i) = true ->
  In (ErrDB (OpStmt b i)) (errors_of (fst (SendBatch env b stmts t))).
Proof.
  intros Hi Hf. unfold SendBatch.
  pose proof (@exec_from_failed env b 0 stmts
                {| committed := t; txn := NoTxn |} i Hi Hf) as H.
  destruct (exec_from env b 0 stmts _) as [rs ss]. exact H.
Qed.

Lemma queue_batch_length objs : length (queue_batch objs) = 4 * length objs.
Proof. induction objs as [|o rest IH]; simpl; [reflexivity | lia]. Qed.

Lemma Group_Err_errors es : es <> [] -> exists e, Group_Err es = Some e.
Proof.
  intros Hne. destruct es as [|e1 [|e2 rest]]; [congruence| |];
    eexists; reflexivity.
Qed.

(** In a pipelined batch the statements from the first failed one on all
    return an error. *)
Lemma exec_from_nth_failed env b i0 stmts ss k :
  k < length stmts ->
  fails env (OpStmt b (i0 + k)) = true ->
  nth_error (fst (exec_from env b i0 stmts ss)) k
  = Some (ExecErr (ErrDB (OpStmt b (i0 + k)))).
Proof.
  revert i0 k ss. induction stmts as [|s rest IH]; intros i0 k ss Hk Hf;
    [simpl in Hk; lia|].
  cbn [exec_from].
  destruct (exec_stmt (fails env (OpStmt b i0)) (OpStmt b i0) s ss)
    as [r ss1] eqn:E.
  specialize (IH (S i0)).
  destruct k as [|k].
  - rewrite Nat.add_0_r in *. rewrite Hf in E. unfold exec_stmt in E.
    inversion E; subst r. clear E.
    match goal with
    | |- context [exec_from env b (S i0) rest ?x] =>
        destruct (exec_from env b (S i0) rest x)
    end. reflexivity.
  - specialize (IH k ss1). simpl in Hk.
    replace (i0 + S k) with (S i0 + k) in * by lia.
    destruct (exec_from env b (S i0) rest ss1) as [rs ss2].
    cbn [fst nth_error] in *. apply IH; [lia | exact Hf].
Qed.

Lemma SendBatch_nth_failed env b stmts t k :
  k < length stmts -> fails env (OpStmt b k) = true ->
  nth_error (fst (SendBatch env b stmts t)) k
  = Some (ExecErr (ErrDB (OpStmt b k))).
Proof.
  intros Hk Hf. unfold SendBatch.
  pose proof (@exec_from_nth_failed env b 0 stmts
                {| committed := t; txn := NoTxn |} k Hk Hf) as H.
  destruct (exec_from env b 0 stmts _) as [rs ss]. exact H.
Qed.

(** In a pipelined batch whose first failed statement is the [i]-th, the
    units that go through are those before the unit of that statement. *)
Lemma committed_units_pipelined env b i j objs :
  pipelined env b ->
  fails env (OpStmt b i) = true ->
  (forall k, k < i -> fails env (OpStmt b k) = false) ->
  committed_units env b j objs = firstn (i / 4 - j) objs.
Proof.
  intros Hpipe Hi Hfirst.
  pose proof (Nat.div_mod_eq i 4) as Hdiv.
  pose proof (Nat.mod_upper_bound i 4) as Hmod.
  revert j. induction objs as [|o rest IH]; intros j.
  - now rewrite firstn_nil.
  - cbn [committed_units]. rewrite IH.
    destruct (Nat.lt_ge_cases j (i / 4)) as [Hlt|Hge].
    + assert (Hok : unit_ok env b j = true).
      { unfold unit_ok. rewrite !Hfirst by lia. reflexivity. }
      rewrite Hok. replace (i / 4 - j) with (S (i / 4 - S j)) by lia.
      reflexivity.
    + assert (Hko : unit_ok env b j = false).
      { unfold unit_ok.
        rewrite (Hpipe i (4 * j + 3)) by (try exact Hi; lia).
        now rewrite andb_false_r. }
      rewrite Hko. replace (i / 4 - j) with 0 by lia.
      replace (i / 4 - S j) with 0 by lia. reflexivity.
Qed.

(** C2 (as amended).  When a statement of a page's batch fails, the results
    of all the statements of the page are still read and the error of every
    failed statement goes into the aggregate, which is returned as the error
    of the pass: the loop ends with that page, having issued no further
    SELECT and sent no further batch, the cursor not advanced.  The batch
    being one pipeline, every result from the first failed statement on is an
    error: the units before the unit of that statement are committed, that
    unit and every unit after it leave the tables as they were. *)
Theorem C2_failed_unit_is_reported_and_ends_the_pass env p fuel c w i :
  fails env (OpQuery (length (queries w))) = false ->
  (0 <= effective_batchsize env p)%Z ->
  (forall k, fails env (OpScan (length (queries w)) k) = false) ->
  fails env (OpConn (length (batches w))) = false ->
  i < 4 * length (next_page env p c w) ->
  fails env (OpStmt (length (batches w)) i) = true ->
  exists e w',
    batch_loop (S fuel) (pass_deleteBatch env p) c (effective_batchsize env p) w
    = Some (Err (ErrWrap msg_expired e), w') /\
    length (next_results env p c w) = 4 * length (next_page env p c w) /\
    In (ErrDB (OpStmt (length (batches w)) i))
      (errors_of (next_results env p c w)) /\
    Group_Err (errors_of (next_results env p c w)) = Some e /\
    queries w' = queries w ++
                   [{| q_startAfter := c;
                       q_limit := effective_batchsize env p;
                       q_page := next_page env p c w |}] /\
    batches w' = batches w ++
                   [queue_batch (map row_stream (next_page env p c w))] /\
    (pipelined env (length (batches w)) ->
     (forall k, k < i -> fails env (OpStmt (length (batches w)) k) = false) ->
     tables w'
     = delete_page (firstn (i / 4) (map row_stream (next_page env p c w)))
         (tables w) /\
     forall k, i <= k < 4 * length (next_page env p c w) ->
               exists err,
                 nth_error (next_results env p c w) k = Some (ExecErr err)).
Proof.
  intros Hquery Hn Hscan Hconn Hi Hfail.
  set (page := next_page env p c w) in *.
  set (n := effective_batchsize env p) in *.
  set (b := length (batches w)) in *.
  set (objs := map row_stream page).
  assert (Hlen : length (next_results env p c w) = 4 * length page).
  { unfold next_results. rewrite SendBatch_length, queue_batch_length.
    now rewrite length_map. }
  assert (Hin : In (ErrDB (OpStmt b i)) (errors_of (next_results env p c w))).
  { unfold next_results. apply SendBatch_failed; [|exact Hfail].
    now rewrite queue_batch_length, length_map. }
  destruct (@Group_Err_errors (errors_of (next_results env p c w)))
    as (e & He).
  { intros Hnil. rewrite Hnil in Hin. destruct Hin. }
  assert (Hne : objs <> []).
  { unfold objs. destruct page; [simpl in Hi; lia | discriminate]. }
  (* the turn *)
  rewrite pass_deleteBatch_eq. cbn [batch_loop].
  unfold gc_deleteBatch, bind, wrapErr, QueryContext, make_objects.
  apply Z.ltb_ge in Hn. fold n. rewrite Hn. cbv beta iota. rewrite Hquery.
  fold (read_source env (pass_asOf p) w).
  change (select_page (read_source env (pass_asOf p) w) c (pass_sel p) n)
    with page.
  set (w1 := add_query _ w).
  destruct (@scan_rows_no_failure env (pass_msg p) (pass_entry p)
              (length (queries w)) 0 page zeroObjectStream [] w1 Hscan)
    as (v & w2 & E).
  pose proof (scan_rows_frame env (pass_msg p) (pass_entry p)
                (length (queries w)) 0 page zeroObjectStream [] w1)
    as (Ht & Hq & Hb & _).
  rewrite E in *. simpl in Ht, Hq, Hb.
  apply scan_rows_Ok in E. destruct E as (-> & _ & _). simpl app.
  fold objs.
  destruct (@deleteObjectsAndSegments_sent env objs w2 Hne) as
    (Hr & Ht2 & Hb2 & Hq2 & _).
  { rewrite Hb. exact Hconn. }
  rewrite Hb, Ht in Hr, Ht2.
  change (fst (SendBatch env (length (batches w)) (queue_batch objs) (tables w)))
    with (next_results env p c w) in Hr.
  fold b in Hr. rewrite He in Hr.
  destruct (deleteObjectsAndSegments env objs w2) as [r3 w3].
  simpl in Hr, Ht2, Hb2, Hq2. subst r3.
  exists e, w3. split; [reflexivity|]. split; [exact Hlen|].
  split; [exact Hin|]. split; [exact He|].
  split; [now rewrite Hq2, Hq|]. split; [now rewrite Hb2, Hb|].
  intros Hpipe Hfirst. split.
  - rewrite Ht2, SendBatch_units
      by (now apply pipelined_start_failure_is_fatal).
    fold b. rewrite (@committed_units_pipelined env b i 0 objs Hpipe Hfail Hfirst).
    now rewrite Nat.sub_0_r.
  - intros k (Hk1 & Hk2). eexists. unfold next_results.
    apply SendBatch_nth_failed.
    + now rewrite queue_batch_length, length_map.
    + exact (Hpipe i k Hk1 Hfail).
Qed.

Lemma env_pipeline_breaks_pipelined : pipelined env_pipeline_breaks 0.
Proof.
  intros i j Hij Hi. destruct i as [|i]; [discriminate Hi|].
  destruct j as [|j]; [lia | reflexivity].
Qed.

(** C2, as stated, fails: the DELETE of the first row of the first page
    fails, and with it the rest of the pipeline.  All eight results of the
    batch are read and the seven errors aggregated, but the other row of the
    page is not deleted, the meters are marked with zero, and the pass
    returns the error after that page: it has issued one SELECT and sent one
    batch, and the expired row after the page is still in the table. *)
Lemma C2_pass_stops_after_the_page_of_a_failed_unit :
  (exists es,
     length es = 7 /\
     DeleteExpiredObjects env_pipeline_breaks 10 (expired_opts 2)
       three_rows_world
     = Some (Err (ErrWrap msg_expired (ErrGroup es)),
             world_after three_rows_world
               (DeleteExpiredObjects env_pipeline_breaks 10 (expired_opts 2)
                  three_rows_world))) /\
  length (queries (world_after three_rows_world
     (DeleteExpiredObjects env_pipeline_breaks 10 (expired_opts 2)
        three_rows_world))) = 1 /\
  length (batches (world_after three_rows_world
     (DeleteExpiredObjects env_pipeline_breaks 10 (expired_opts 2)
        three_rows_world))) = 1 /\
  expired_sel (expired_opts 2) row_c = true /\
  expired_sel (expired_opts 2) row_d = true /\
  tables (world_after three_rows_world
     (DeleteExpiredObjects env_pipeline_breaks 10 (expired_opts 2)
        three_rows_world)) = tables three_rows_world /\
  object_delete (world_after three_rows_world
     (DeleteExpiredObjects env_pipeline_breaks 10 (expired_opts 2)
        three_rows_world)) = 0%Z /\
  segment_delete (world_after three_rows_world
     (DeleteExpiredObjects env_pipeline_breaks 10 (expired_opts 2)
        three_rows_world)) = 0%Z.
Proof.
  split.
  - eexists. split; [|vm_compute; reflexivity]. reflexivity.
  - vm_compute. repeat split; reflexivity.
Qed.

(** The amended C2 at that store: the error of the failed DELETE is in the
    aggregate, the pass has issued one SELECT, and no unit of the page is
    committed. *)
Lemma C2_witness :
  exists e w',
    batch_loop 10 (pass_deleteBatch env_pipeline_breaks
                     (ExpiredPass (expired_opts 2)))
      zeroObjectStream 2%Z three_rows_world
    = Some (Err (ErrWrap msg_expired e), w') /\
    In (ErrDB (OpStmt 0 1))
      (errors_of (next_results env_pipeline_breaks
                    (ExpiredPass (expired_opts 2)) zeroObjectStream
                    three_rows_world)) /\
    length (queries w') = 1 /\
    tables w' = tables three_rows_world.
Proof.
  destruct (@C2_failed_unit_is_reported_and_ends_the_pass
              env_pipeline_breaks (ExpiredPass (expired_opts 2)) 9
              zeroObjectStream three_rows_world 1)
    as (e & w' & Hrun & _ & Hin & _ & Hq & _ & Hpipe).
  - vm_compute; reflexivity.
  - vm_compute. discriminate.
  - intros k. vm_compute; reflexivity.
  - vm_compute; reflexivity.
  - vm_compute. lia.
  - vm_compute; reflexivity.
  - exists e, w'. split; [exact Hrun|]. split; [exact Hin|].
    split; [now rewrite Hq|].
    destruct (Hpipe env_pipeline_breaks_pipelined) as (Ht & _).
    + intros k Hk. destruct k as [|k]; [reflexivity | lia].
    + rewrite Ht. vm_compute. reflexivity.
Defined.

(* ================================================================== *)
(** * Every way a turn of the loop can end *)

Section TurnCases.

Variable env : Env.
Variable msg : string.
Variable entry : ObjectRow -> LogEntry.
Variable asOf : Time.
Variable sel : ObjectRow -> bool.

Lemma scan_rows_meters q k rows lst acc w :
  let w' := snd (scan_rows env msg entry q k rows lst acc w) in
  object_delete w' = object_delete w /\ segment_delete w' = segment_delete w.
Proof.
  revert k lst acc w. induction rows as [|r rest IH]; intros k lst acc w; simpl.
  - auto.
  - destruct (fails env (OpScan q k)); simpl; [auto|].
    unfold bind, modify.
    destruct (IH (S k) (row_stream r) (acc ++ [row_stream r])
                (add_log (entry r) w)) as (Ho & Hs).
    destruct (scan_rows env msg entry q (S k) rest _ _ _) as [res w'].
    simpl in *. auto.
Qed.

Lemma scan_rows_Err q k rows lst acc w e w' :
  scan_rows env msg entry q k rows lst acc w = (Err e, w') ->
  exists j, j < length rows /\ fails env (OpScan q (k + j)) = true /\
            e = ErrWrap msg (ErrDB (OpScan q (k + j))) /\
            log w' = log w ++ map entry (firstn j rows).
Proof.
  revert k lst acc w.
  induction rows as [|r rest IH]; intros k lst acc w; simpl.
  - discriminate.
  - destruct (fails env (OpScan q k)) eqn:F.
    + unfold fail. intros H. inversion H; subst. exists 0.
      rewrite Nat.add_0_r, app_nil_r. repeat split; auto. lia.
    + unfold bind, modify. intros H. apply IH in H.
      destruct H as (j & Hj & Hf & He & Hl). exists (S j).
      replace (k + S j) with (S k + j) by lia.
      repeat split; auto; [lia|].
      rewrite Hl. simpl. now rewrite <- app_assoc.
Qed.

(** A turn either sends no batch, and then leaves tables and meters as they
    were, or it has scanned and logged its whole non-empty page and sent the
    batch of that page; its result is then decided by the results of the
    batch alone. *)
Lemma gc_deleteBatch_cases c n w r w' :
  gc_deleteBatch env asOf msg entry sel c n w = (r, w') ->
  let page := select_page (read_source env asOf w) c sel n in
  let b := length (batches w) in
  let batch := queue_batch (map row_stream page) in
  let ev := {| q_startAfter := c; q_limit := n; q_page := page |} in
  (tables w' = tables w /\ batches w' = batches w /\
   object_delete w' = object_delete w /\ segment_delete w' = segment_delete w /\
   (exists j, log w' = log w ++ map entry (firstn j page)) /\
   (queries w' = queries w \/ queries w' = queries w ++ [ev]) /\
   (r = Err ErrMakeslice /\ (n < 0)%Z
    \/ r = Err (ErrWrap msg (ErrDB (OpQuery (length (queries w)))))
    \/ (exists k, r = Err (ErrWrap msg
                             (ErrWrap msg (ErrDB (OpScan (length (queries w)) k)))))
    \/ r = Err (ErrWrap msg_expired (ErrDB (OpConn b)))
    \/ r = Ok zeroObjectStream /\ page = [] /\ queries w' = queries w ++ [ev]))
  \/
  (page <> [] /\ (0 <= n)%Z /\
   tables w' = snd (SendBatch env b batch (tables w)) /\
   batches w' = batches w ++ [batch] /\
   log w' = log w ++ map entry page /\
   queries w' = queries w ++ [ev] /\
   r = match Group_Err (errors_of (fst (SendBatch env b batch (tables w)))) with
       | None => Ok (List.last (map row_stream page) zeroObjectStream)
       | Some e => Err (ErrWrap msg_expired e)
       end /\
   exists w2,
     tables w2 = tables w /\ batches w2 = batches w /\
     object_delete w2 = object_delete w /\
     segment_delete w2 = segment_delete w /\
     w' = snd (deleteObjectsAndSegments env (map row_stream page) w2)).
Proof.
  unfold gc_deleteBatch, bind, wrapErr, QueryContext, make_objects.
  destruct (n <? 0)%Z eqn:En.
  { intros H; inversion H; subst. left. repeat split; auto.
    - exists 0. now rewrite app_nil_r.
    - left. split; [reflexivity | now apply Z.ltb_lt]. }
  destruct (fails env (OpQuery _)).
  { intros H; inversion H; subst. left. repeat split; auto.
    exists 0. now rewrite app_nil_r. }
  apply Z.ltb_ge in En. intros H.
  fold (read_source env asOf w) in *.
  set (page := select_page (read_source env asOf w) c sel n) in *.
  set (w1 := add_query _ w) in H.
  pose proof (scan_rows_frame env msg entry (length (queries w)) 0 page
                zeroObjectStream [] w1) as (Ht & Hq & Hb & j & Hl).
  pose proof (scan_rows_meters (length (queries w)) 0 page
                zeroObjectStream [] w1) as (Hmo & Hms).
  destruct (scan_rows env msg entry _ 0 page zeroObjectStream [] w1)
    as [[[lst objs]|e] w2] eqn:E; simpl in Ht, Hq, Hb, Hl, Hmo, Hms.
  - apply scan_rows_Ok in E. destruct E as (E & Hlog & _).
    inversion E; subst lst objs. simpl app in H. simpl in Hlog.
    destruct page as [|p0 rest] eqn:Ep.
    + simpl in H. unfold ret in H. inversion H; subst. left.
      repeat split; eauto 10.
    + rewrite <- Ep in *.
      assert (Hne : map row_stream page <> []) by (rewrite Ep; discriminate).
      destruct (fails env (OpConn (length (batches w2)))) eqn:Fc.
      * left. revert H. unfold deleteObjectsAndSegments, wrapErr.
        destruct (map row_stream page) as [|o os] eqn:Em; [congruence|].
        rewrite Fc. intros H. inversion H; subst. rewrite Hb.
        repeat split; eauto 10.
      * right.
        pose proof (@deleteObjectsAndSegments_sent env (map row_stream page) w2
                      Hne Fc) as (Hr & Ht3 & Hb3 & Hq3 & Hl3).
        destruct (deleteObjectsAndSegments env (map row_stream page) w2)
          as [r3 w3] eqn:E3. simpl in Hr, Ht3, Hb3, Hq3, Hl3.
        rewrite Hb, Ht in *.
        assert (Hw : w' = w3 /\
                     r = match r3 with
                         | Ok _ => Ok (List.last (map row_stream page)
                                         zeroObjectStream)
                         | Err e => Err e
                         end).
        { destruct r3 as [[]|e]; unfold ret in H; inversion H; auto. }
        destruct Hw as (-> & ->).
        split; [rewrite Ep; discriminate|].
        split; [exact En|]. split; [exact Ht3|]. split; [exact Hb3|].
        split; [now rewrite Hl3, Hlog|]. split; [now rewrite Hq3, Hq|].
        split; [rewrite Hr; now destruct (Group_Err _)|].
        exists w2. rewrite E3. auto.
  - apply scan_rows_Err in E. destruct E as (k & _ & _ & -> & _).
    inversion H; subst. left. rewrite Hq.
    repeat split; eauto 10.
Qed.

End TurnCases.

(* ================================================================== *)
(** * Further properties of the pass *)

(** ** Objects and their segments *)

Lemma segments_owned_spec t :
  segments_owned t = true <->
  forall s, In s (segments t) ->
            exists x, In x (objects t) /\ stream_id x = seg_stream_id s.
Proof.
  unfold segments_owned. rewrite forallb_forall.
  split; intros H s Hs; specialize (H s Hs).
  - apply existsb_exists in H. destruct H as (x & Hx & E).
    apply N.eqb_eq in E. eauto.
  - destruct H as (x & Hx & E). apply existsb_exists. exists x.
    split; [exact Hx | now apply N.eqb_eq].
Qed.

Lemma distinct_streams_sound rows :
  distinct_streams rows = true -> NoDup (map stream_id rows).
Proof.
  induction rows as [|r t IH]; simpl; intros H; [constructor|].
  apply andb_true_iff in H. destruct H as (Hr & Ht).
  constructor; [|now apply IH].
  intros Hin. apply in_map_iff in Hin. destruct Hin as (x & Hx & Hin).
  apply negb_true_iff in Hr.
  assert (E : existsb (fun y => N.eqb (stream_id r) (stream_id y)) t = true).
  { apply existsb_exists. exists x. split; [exact Hin|].
    apply N.eqb_eq. now symmetry. }
  congruence.
Qed.

Lemma NoDup_streams_inj l a b :
  NoDup (map stream_id l) -> In a l -> In b l ->
  stream_id a = stream_id b -> a = b.
Proof.
  induction l as [|x t IH]; simpl; [tauto|].
  intros H Ha Hb E. inversion H as [|? ? Hx Hnd]; subst.
  destruct Ha as [->|Ha], Hb as [->|Hb]; auto.
  - exfalso. apply Hx. rewrite E. now apply in_map.
  - exfalso. apply Hx. rewrite <- E. now apply in_map.
Qed.

Lemma NoDup_streams_filter (f : ObjectRow -> bool) l :
  NoDup (map stream_id l) -> NoDup (map stream_id (filter f l)).
Proof.
  induction l as [|x t IH]; simpl; intros H; [constructor|].
  inversion H as [|? ? Hx Hnd]; subst.
  destruct (f x); simpl; [|now apply IH].
  constructor; [|now apply IH].
  intros Hin. apply Hx. apply in_map_iff in Hin.
  destruct Hin as (y & Ey & Hy). apply filter_In in Hy.
  apply in_map_iff. exists y. tauto.
Qed.

(** Removing whole units keeps every remaining segment with its object. *)
Lemma delete_page_owned objs t :
  segments_owned t = true -> segments_owned (delete_page objs t) = true.
Proof.
  rewrite !segments_owned_spec. intros H s Hs. simpl in Hs.
  apply filter_In in Hs. destruct Hs as (Hs & Hd).
  destruct (H s Hs) as (x & Hx & E). exists x. split; [|exact E].
  simpl. apply filter_In. split; [exact Hx|].
  apply negb_true_iff. apply negb_true_iff in Hd.
  destruct (page_deletes_object objs x) eqn:P; [|reflexivity].
  apply existsb_exists in P. destruct P as (o & Ho & Hm).
  unfold object_matches in Hm. apply andb_true_iff in Hm.
  destruct Hm as (_ & Hsid). apply N.eqb_eq in Hsid.
  assert (Hp : page_deletes_segment objs s = true).
  { apply existsb_exists. exists o. split; [exact Ho|].
    unfold segment_matches. apply N.eqb_eq. congruence. }
  congruence.
Qed.

(** Removing the units of rows of the table itself keeps, for every object
    that stays, all of its segments. *)
Lemma delete_page_keeps_segments cu t x s :
  NoDup (map stream_id (objects t)) ->
  (forall o, In o cu -> exists p, In p (objects t) /\ o = row_stream p) ->
  In x (objects (delete_page cu t)) -> In s (segments t) ->
  seg_stream_id s = stream_id x ->
  In s (segments (delete_page cu t)).
Proof.
  intros Hnd Hcu Hx Hs E. simpl in *.
  apply filter_In in Hx. destruct Hx as (Hx & Hkeep).
  apply filter_In. split; [exact Hs|].
  apply negb_true_iff. apply negb_true_iff in Hkeep.
  destruct (page_deletes_segment cu s) eqn:P; [|reflexivity].
  apply existsb_exists in P. destruct P as (o & Ho & Hm).
  unfold segment_matches in Hm. apply N.eqb_eq in Hm.
  destruct (Hcu o Ho) as (p & Hp & ->). simpl in Hm.
  assert (p = x).
  { apply (@NoDup_streams_inj (objects t)); auto. congruence. }
  subst p.
  assert (Hd : page_deletes_object cu x = true).
  { apply existsb_exists. exists (row_stream x). split; [exact Ho|].
    apply object_matches_row_stream. auto. }
  congruence.
Qed.

Section GcUnits.

Variable env : Env.
Variable asOf : Time.
Variable msg : string.
Variable entry : ObjectRow -> LogEntry.
Variable sel : ObjectRow -> bool.
Variable n : Z.

Hypothesis Hstart : forall b, start_failure_is_fatal env b.

Let turn := gc_deleteBatch env asOf msg entry sel.

(** What a turn does to the tables is the removal of the units of some of
    the rows of its page. *)
Lemma turn_tables_units c w r w' :
  turn c n w = (r, w') ->
  exists cu,
    incl cu (map row_stream (select_page (read_source env asOf w) c sel n)) /\
    tables w' = delete_page cu (tables w).
Proof.
  intros E. apply gc_deleteBatch_cases in E.
  destruct E as [(Ht & _)|(_ & _ & Ht & _)].
  - exists []. split; [intros o []|]. now rewrite delete_page_nil.
  - rewrite SendBatch_units in Ht by apply Hstart.
    eexists. split; [|exact Ht].
    intros o Ho. apply committed_units_In in Ho.
    destruct Ho as (k & Hk & _). now apply nth_error_In in Hk.
Qed.

Lemma Run_owned c w r w' :
  Run turn n c w r w' ->
  segments_owned (tables w) = true -> segments_owned (tables w') = true.
Proof.
  induction 1 as [c w e w' E|c w l w' E Z|c w l w1 r w' E Z Hrun IH];
    intros Hw; apply turn_tables_units in E; destruct E as (cu & _ & Ht).
  - rewrite Ht. now apply delete_page_owned.
  - rewrite Ht. now apply delete_page_owned.
  - apply IH. rewrite Ht. now apply delete_page_owned.
Qed.

Hypothesis live : AsOfSystemTime env asOf = None.

Lemma Run_keeps_segments c w r w' :
  Run turn n c w r w' ->
  NoDup (map stream_id (objects (tables w))) ->
  forall x s, In x (objects (tables w')) -> In s (segments (tables w)) ->
              seg_stream_id s = stream_id x -> In s (segments (tables w')).
Proof.
  assert (Hone : forall c w r w1, turn c n w = (r, w1) ->
            NoDup (map stream_id (objects (tables w))) ->
            NoDup (map stream_id (objects (tables w1))) /\
            forall x s, In x (objects (tables w1)) -> In s (segments (tables w)) ->
                        seg_stream_id s = stream_id x ->
                        In s (segments (tables w1))).
  { intros c0 w0 r0 w1 E Hnd. apply turn_tables_units in E.
    destruct E as (cu & Hcu & Ht). rewrite Ht. split.
    - simpl. now apply NoDup_streams_filter.
    - intros x s. apply delete_page_keeps_segments; [exact Hnd|].
      intros o Ho. apply Hcu in Ho. apply in_map_iff in Ho.
      destruct Ho as (p & <- & Hp). exists p. split; [|reflexivity].
      apply select_page_In in Hp. destruct Hp as (Hp & _).
      unfold read_source in Hp. now rewrite live in Hp. }
  induction 1 as [c w e w' E|c w l w' E Z|c w l w1 r w' E Z Hrun IH];
    intros Hnd.
  - now apply (Hone _ _ _ _ E).
  - now apply (Hone _ _ _ _ E).
  - destruct (Hone _ _ _ _ E Hnd) as (Hnd1 & Hk).
    intros x s Hx Hs Es. apply (IH Hnd1 x s Hx); [|exact Es].
    apply (Hk x s); [|exact Hs|exact Es].
    destruct (Run_removes_read Hrun) as ((g & Hg & _) & _).
    rewrite Hg in Hx. now apply filter_In in Hx.
Qed.

End GcUnits.

Lemma env_first_delete_fails_every_start_fatal b :
  start_failure_is_fatal env_first_delete_fails b.
Proof.
  intros j Hj. exfalso. destruct b as [|b]; [|discriminate Hj].
  destruct j as [|j]; [discriminate Hj|].
  replace (4 * S j) with (S (S (S (S (4 * j))))) in Hj by lia.
  discriminate Hj.
Qed.

(** X1.  A pass never leaves a segment without its object.  The two DELETEs
    of an object travel between START TRANSACTION and COMMIT TRANSACTION, so
    whichever statements, scans, queries or connections fail, and whichever
    state of the table the SELECT reads, a store in which every segment has
    an object row carrying its stream id is still such a store when the pass
    returns, with or without an error.  Hypothesis: a START TRANSACTION that
    fails takes the DELETEs of its unit with it. *)
Theorem X1_pass_leaves_no_segment_without_object env p fuel w r w' :
  (forall b, start_failure_is_fatal env b) ->
  segments_owned (tables w) = true ->
  run_pass env fuel p w = Some (r, w') ->
  segments_owned (tables w') = true.
Proof.
  intros Hstart Hw Hrun. apply run_pass_Run in Hrun.
  exact (@Run_owned env _ _ _ _ _ Hstart _ _ _ _ Hrun Hw).
Qed.

Lemma X1_witness :
  segments_owned
    (tables (world_after three_rows_world
       (run_pass env_first_delete_fails 10 (ExpiredPass (expired_opts 2))
          three_rows_world))) = true.
Proof.
  refine (@X1_pass_leaves_no_segment_without_object env_first_delete_fails
            (ExpiredPass (expired_opts 2)) 10 three_rows_world
            (Err (ErrWrap msg_expired
                    (ErrGroup [ErrDB (OpStmt 0 1); ErrTxnAborted])))
            _ _ _ _).
  - exact env_first_delete_fails_every_start_fatal.
  - vm_compute; reflexivity.
  - vm_compute; reflexivity.
Defined.

(** X2.  An object row that is still stored when the pass returns has lost
    none of its segments, whatever failed during the pass: the DELETE on
    [segments] of a unit is committed only together with the DELETE of the
    object row it was scanned from.  Hypotheses: the SELECT reads the
    current table, no two object rows share a stream id, and a failed START
    TRANSACTION takes the DELETEs of its unit with it. *)
Theorem X2_stored_object_keeps_its_segments env p fuel w r w' :
  (forall b, start_failure_is_fatal env b) ->
  AsOfSystemTime env (pass_asOf p) = None ->
  distinct_streams (objects (tables w)) = true ->
  run_pass env fuel p w = Some (r, w') ->
  forall x s, In x (objects (tables w')) -> In s (segments (tables w)) ->
              seg_stream_id s = stream_id x -> In s (segments (tables w')).
Proof.
  intros Hstart Hlive Hd Hrun. apply run_pass_Run in Hrun.
  apply distinct_streams_sound in Hd.
  exact (@Run_keeps_segments env _ _ _ _ _ Hstart Hlive _ _ _ _ Hrun Hd).
Qed.

Lemma X2_witness :
  In (mk_seg 1%N 0%Z)
    (segments
       (tables (world_after three_rows_world
          (run_pass env_first_delete_fails 10 (ExpiredPass (expired_opts 2))
             three_rows_world)))).
Proof.
  refine (@X2_stored_object_keeps_its_segments env_first_delete_fails
            (ExpiredPass (expired_opts 2)) 10 three_rows_world
            (Err (ErrWrap msg_expired
                    (ErrGroup [ErrDB (OpStmt 0 1); ErrTxnAborted])))
            _ _ _ _ _ row_a (mk_seg 1%N 0%Z) _ _ _).
  - exact env_first_delete_fails_every_start_fatal.
  - reflexivity.
  - vm_compute; reflexivity.
  - vm_compute; reflexivity.
  - vm_compute. left; reflexivity.
  - vm_compute. left; reflexivity.
  - reflexivity.
Defined.

(** ** The log and the batches of a run *)

Section GcAudit.

Variable env : Env.
Variable asOf : Time.
Variable msg : string.
Variable entry : ObjectRow -> LogEntry.
Variable sel : ObjectRow -> bool.
Variable n : Z.

Hypothesis entry_stream : forall r, log_stream (entry r) = row_stream r.

Let turn := gc_deleteBatch env asOf msg entry sel.

(** The rows a turn removes were logged by that turn. *)
Lemma turn_logged c w r w1 :
  turn c n w = (r, w1) ->
  exists lines g h,
    log w1 = log w ++ lines /\
    objects (tables w1) = filter g (objects (tables w)) /\
    segments (tables w1) = filter h (segments (tables w)) /\
    (forall x, g x = false ->
       exists e, In e lines /\ object_matches (log_stream e) x = true) /\
    (forall s, h s = false ->
       exists e, In e lines /\ seg_stream_id s = StreamID (log_stream e)).
Proof.
  intros E. apply gc_deleteBatch_cases in E.
  destruct E as [(Ht & _ & _ & _ & (j & Hl) & _)
                |(_ & _ & Ht & _ & Hl & _)].
  - exists (map entry (firstn j (select_page (read_source env asOf w) c sel n))),
      (fun _ => true), (fun _ => true).
    rewrite Ht, !filter_true. repeat split; auto; discriminate.
  - set (page := select_page (read_source env asOf w) c sel n) in *.
    destruct (@SendBatch_within env (map row_stream page) (length (batches w))
                (tables w)) as [(g & Hg & Hg') (h & Hh & Hh')].
    rewrite <- Ht in Hg, Hh.
    exists (map entry page), g, h. repeat split; auto.
    + intros x Hx. specialize (Hg' x Hx). apply existsb_exists in Hg'.
      destruct Hg' as (o & Ho & Hm). apply in_map_iff in Ho.
      destruct Ho as (p & <- & Hp). exists (entry p).
      split; [now apply in_map | now rewrite entry_stream].
    + intros s Hs. specialize (Hh' s Hs).
      apply page_deletes_segment_iff in Hh'. destruct Hh' as (p & Hp & Hm).
      exists (entry p). split; [now apply in_map|].
      rewrite entry_stream. unfold segment_matches in Hm.
      now apply N.eqb_eq in Hm.
Qed.

Lemma Run_logged c w r w' :
  Run turn n c w r w' ->
  exists lines g h,
    log w' = log w ++ lines /\
    objects (tables w') = filter g (objects (tables w)) /\
    segments (tables w') = filter h (segments (tables w)) /\
    (forall x, g x = false ->
       exists e, In e lines /\ object_matches (log_stream e) x = true) /\
    (forall s, h s = false ->
       exists e, In e lines /\ seg_stream_id s = StreamID (log_stream e)).
Proof.
  induction 1 as [c w e w' E|c w l w' E Z|c w l w1 r w' E Z Hrun IH].
  - now apply turn_logged in E.
  - now apply turn_logged in E.
  - apply turn_logged in E.
    destruct E as (l1 & g1 & h1 & Hl1 & Hg1 & Hh1 & Ho1 & Hs1).
    destruct IH as (l2 & g2 & h2 & Hl2 & Hg2 & Hh2 & Ho2 & Hs2).
    exists (l1 ++ l2), (fun x => g1 x && g2 x), (fun s => h1 s && h2 s).
    split; [now rewrite Hl2, Hl1, app_assoc|].
    split; [now rewrite Hg2, Hg1, filter_filter|].
    split; [now rewrite Hh2, Hh1, filter_filter|].
    split.
    + intros x Hx. destruct (g1 x) eqn:G1.
      * destruct (Ho2 x Hx) as (e & He & Hm). exists e.
        split; [apply in_or_app; now right | exact Hm].
      * destruct (Ho1 x G1) as (e & He & Hm). exists e.
        split; [apply in_or_app; now left | exact Hm].
    + intros s Hs. destruct (h1 s) eqn:H1.
      * destruct (Hs2 s Hs) as (e & He & Hm). exists e.
        split; [apply in_or_app; now right | exact Hm].
      * destruct (Hs1 s H1) as (e & He & Hm). exists e.
        split; [apply in_or_app; now left | exact Hm].
Qed.

(** The batches of a run are the queues of pages its SELECTs returned, at
    most one for each SELECT. *)
Lemma batch_of_page_cons ev evs b :
  batch_of_page evs b -> batch_of_page (ev :: evs) b.
Proof. intros (e & He & H). exists e. split; [now right | exact H]. Qed.

Lemma Run_batches c w r w' :
  Run turn n c w r w' ->
  exists evs sent,
    queries w' = queries w ++ evs /\
    batches w' = batches w ++ sent /\
    length sent <= length evs /\
    Forall (fun e => length (q_page e) <= Z.to_nat n) evs /\
    Forall (batch_of_page evs) sent.
Proof.
  assert (Hone : forall c w r w1, turn c n w = (r, w1) ->
            (queries w1 = queries w /\ batches w1 = batches w /\
             exists e, r = Err e) \/
            exists ev,
              queries w1 = queries w ++ [ev] /\
              length (q_page ev) <= Z.to_nat n /\
              (batches w1 = batches w \/
               batches w1 = batches w ++ [queue_batch (map row_stream (q_page ev))]
               /\ q_page ev <> [])).
  { intros c0 w0 r0 w1 E. apply gc_deleteBatch_cases in E.
    destruct E as [(_ & Hb & _ & _ & _ & [Hq|Hq] & Hr)
                  |(Hp & _ & _ & Hb & _ & Hq & _)].
    - left. split; [exact Hq|]. split; [exact Hb|].
      destruct Hr as [(-> & _)|[->|[(k & ->)|[->|(-> & _ & Hq')]]]]; eauto.
      exfalso. rewrite Hq in Hq'.
      apply (f_equal (@length _)) in Hq'. rewrite length_app in Hq'.
      simpl in Hq'. lia.
    - right. eexists. split; [exact Hq|]. split; [apply select_page_length|].
      now left.
    - right. eexists. split; [exact Hq|]. split; [apply select_page_length|].
      right. split; [exact Hb | exact Hp]. }
  induction 1 as [c w e w' E|c w l w' E Z|c w l w1 r w' E Z Hrun IH].
  - destruct (Hone _ _ _ _ E) as [(Hq & Hb & _)|(ev & Hq & Hlen & Hb)].
    + exists [], []. rewrite !app_nil_r. repeat split; auto.
    + destruct Hb as [Hb|(Hb & Hne)].
      * exists [ev], []. rewrite app_nil_r. repeat split; auto. simpl; lia.
      * exists [ev], [queue_batch (map row_stream (q_page ev))].
        repeat split; auto. constructor; [|constructor].
        exists ev. split; [now left | auto].
  - destruct (Hone _ _ _ _ E) as [(_ & _ & e & He)|(ev & Hq & Hlen & Hb)];
      [discriminate|].
    destruct Hb as [Hb|(Hb & Hne)].
    + exists [ev], []. rewrite app_nil_r. repeat split; auto. simpl; lia.
    + exists [ev], [queue_batch (map row_stream (q_page ev))].
      repeat split; auto. constructor; [|constructor].
      exists ev. split; [now left | auto].
  - destruct (Hone _ _ _ _ E) as [(_ & _ & e & He)|(ev & Hq & Hlen & Hb)];
      [discriminate|].
    destruct IH as (evs & sent & Hq2 & Hb2 & Hle & Hpages & Hsent).
    assert (Hsent' : Forall (batch_of_page (ev :: evs)) sent).
    { eapply Forall_impl; [|exact Hsent]. intros b. apply batch_of_page_cons. }
    destruct Hb as [Hb|(Hb & Hne)].
    + exists (ev :: evs), sent.
      split; [now rewrite Hq2, Hq, <- app_assoc|].
      split; [now rewrite Hb2, Hb|].
      split; [simpl; lia|]. split; [now constructor | exact Hsent'].
    + exists (ev :: evs), (queue_batch (map row_stream (q_page ev)) :: sent).
      split; [now rewrite Hq2, Hq, <- app_assoc|].
      split; [now rewrite Hb2, Hb, <- app_assoc|].
      split; [simpl; lia|]. split; [now constructor|].
      constructor; [|exact Hsent'].
      exists ev. split; [now left | auto].
Qed.

End GcAudit.

Lemma pass_entry_stream p r : log_stream (pass_entry p r) = row_stream r.
Proof. now destruct p. Qed.

(** X3.  A pass removes nothing that it has not logged.  Whatever fails and
    whichever state of the table the SELECT reads, the lines a pass adds to
    the log name every row it removed from [objects] (a line with the key
    tuple and the stream id of the row) and the stream of every row it
    removed from [segments]; both tables only lose rows, the rest stays in
    place and in order. *)
Theorem X3_pass_removes_only_what_it_logged env p fuel w r w' :
  run_pass env fuel p w = Some (r, w') ->
  exists lines g h,
    log w' = log w ++ lines /\
    objects (tables w') = filter g (objects (tables w)) /\
    segments (tables w') = filter h (segments (tables w)) /\
    (forall x, In x (objects (tables w)) -> ~ In x (objects (tables w')) ->
       exists e, In e lines /\ object_matches (log_stream e) x = true) /\
    (forall s, In s (segments (tables w)) -> ~ In s (segments (tables w')) ->
       exists e, In e lines /\ seg_stream_id s = StreamID (log_stream e)).
Proof.
  intros Hrun. apply run_pass_Run in Hrun.
  destruct (@Run_logged env _ _ _ _ _ (pass_entry_stream p) _ _ _ _ Hrun)
    as (lines & g & h & Hl & Hg & Hh & Ho & Hs).
  exists lines, g, h. repeat split; auto.
  - intros x Hx Hn. apply Ho. rewrite Hg in Hn. now apply not_in_filter in Hn.
  - intros s Hx Hn. apply Hs. rewrite Hh in Hn. now apply not_in_filter in Hn.
Qed.

Lemma X3_witness :
  exists lines g h,
    log (world_after three_rows_world
           (run_pass env_first_delete_fails 10 (ExpiredPass (expired_opts 2))
              three_rows_world))
    = log three_rows_world ++ lines /\
    objects (tables (world_after three_rows_world
           (run_pass env_first_delete_fails 10 (ExpiredPass (expired_opts 2))
              three_rows_world)))
    = filter g (objects (tables three_rows_world)) /\
    segments (tables (world_after three_rows_world
           (run_pass env_first_delete_fails 10 (ExpiredPass (expired_opts 2))
              three_rows_world)))
    = filter h (segments (tables three_rows_world)) /\
    (forall x, In x (objects (tables three_rows_world)) ->
       ~ In x (objects (tables (world_after three_rows_world
           (run_pass env_first_delete_fails 10 (ExpiredPass (expired_opts 2))
              three_rows_world)))) ->
       exists e, In e lines /\ object_matches (log_stream e) x = true) /\
    (forall s, In s (segments (tables three_rows_world)) ->
       ~ In s (segments (tables (world_after three_rows_world
           (run_pass env_first_delete_fails 10 (ExpiredPass (expired_opts 2))
              three_rows_world)))) ->
       exists e, In e lines /\ seg_stream_id s = StreamID (log_stream e)).
Proof.
  refine (@X3_pass_removes_only_what_it_logged env_first_delete_fails
            (ExpiredPass (expired_opts 2)) 10 three_rows_world
            (Err (ErrWrap msg_expired
                    (ErrGroup [ErrDB (OpStmt 0 1); ErrTxnAborted])))
            _ _).
  vm_compute; reflexivity.
Defined.

(** X4.  The batch size bounds every round trip.  Whatever fails, each batch
    a pass sends is the queue of a non-empty page returned by one of its
    SELECTs, it holds four statements for each row of that page and so at
    most four times the effective batch size, and the pass sends at most one
    batch for each SELECT. *)
Theorem X4_each_batch_is_one_page_within_the_batch_size env p fuel w r w' :
  run_pass env fuel p w = Some (r, w') ->
  exists evs sent,
    queries w' = queries w ++ evs /\
    batches w' = batches w ++ sent /\
    length sent <= length evs /\
    Forall (fun b => batch_of_page evs b /\
                     0 < length b <= 4 * Z.to_nat (effective_batchsize env p))
      sent.
Proof.
  intros Hrun. apply run_pass_Run in Hrun.
  destruct (Run_batches Hrun) as (evs & sent & Hq & Hb & Hle & Hpages & Hsent).
  exists evs, sent. repeat split; auto.
  rewrite Forall_forall in *. intros b Hb'. split; [now apply Hsent|].
  destruct (Hsent b Hb') as (e & He & Hne & ->).
  rewrite queue_batch_length, length_map. specialize (Hpages e He).
  destruct (q_page e); [congruence | simpl in *; lia].
Qed.

Lemma X4_witness :
  exists evs sent,
    queries (world_after example_world
               (run_pass env_ok 10 (ExpiredPass (expired_opts 2)) example_world))
    = queries example_world ++ evs /\
    batches (world_after example_world
               (run_pass env_ok 10 (ExpiredPass (expired_opts 2)) example_world))
    = batches example_world ++ sent /\
    length sent <= length evs /\
    Forall (fun b => batch_of_page evs b /\
                     0 < length b
                     <= 4 * Z.to_nat (effective_batchsize env_ok
                                        (ExpiredPass (expired_opts 2))))
      sent.
Proof.
  refine (@X4_each_batch_is_one_page_within_the_batch_size env_ok
            (ExpiredPass (expired_opts 2)) 10 example_world (Ok tt) _ _).
  vm_compute; reflexivity.
Defined.

(** ** Returning nil *)

Lemma exec_from_ext env env' b i l ss :
  (forall k, k < length l ->
             fails env (OpStmt b (i + k)) = fails env' (OpStmt b (i + k))) ->
  exec_from env b i l ss = exec_from env' b i l ss.
Proof.
  revert i ss. induction l as [|s t IH]; intros i ss H; [reflexivity|].
  cbn [exec_from].
  assert (H0 : fails env (OpStmt b i) = fails env' (OpStmt b i)).
  { rewrite <- (Nat.add_0_r i). apply H. simpl. lia. }
  rewrite <- H0.
  destruct (exec_stmt (fails env (OpStmt b i)) (OpStmt b i) s ss) as [r ss1].
  rewrite IH; [reflexivity|].
  intros k Hk. replace (S i + k) with (i + S k) by lia.
  apply H. simpl. lia.
Qed.

Lemma SendBatch_no_failure env b objs t :
  (forall i, i < 4 * length objs -> fails env (OpStmt b i) = false) ->
  snd (SendBatch env b (queue_batch objs) t) = delete_page objs t /\
  errors_of (fst (SendBatch env b (queue_batch objs) t)) = [].
Proof.
  intros H.
  assert (E : SendBatch env b (queue_batch objs) t
              = SendBatch (quiet env) b (queue_batch objs) t).
  { unfold SendBatch. rewrite (@exec_from_ext env (quiet env)); [reflexivity|].
    intros k Hk. rewrite queue_batch_length in Hk. simpl. now apply H. }
  rewrite E. apply SendBatch_quiet. reflexivity.
Qed.

Lemma deleteObjectsAndSegments_conn_fails env objs w :
  objs <> [] ->
  fails env (OpConn (length (batches w))) = true ->
  deleteObjectsAndSegments env objs w
  = (Err (ErrWrap msg_expired (ErrDB (OpConn (length (batches w))))), w).
Proof.
  intros Hne Hc. unfold deleteObjectsAndSegments, wrapErr.
  destruct objs; [congruence|]. now rewrite Hc.
Qed.

(** X5.  [deleteObjectsAndSegments] returns nil exactly when nothing it
    attempted failed: for a non-empty list of objects, the result is nil if
    and only if the connection was obtained and none of the [4 * len(objects)]
    statements of the batch failed; the tables are then the tables before
    without the rows and segments of the listed objects.  No error of a
    statement is dropped, and none is invented. *)
Theorem X5_batch_returns_nil_iff_nothing_failed env objs w :
  objs <> [] ->
  (fst (deleteObjectsAndSegments env objs w) = Ok tt <->
   fails env (OpConn (length (batches w))) = false /\
   forall i, i < 4 * length objs ->
             fails env (OpStmt (length (batches w)) i) = false) /\
  (fst (deleteObjectsAndSegments env objs w) = Ok tt ->
   tables (snd (deleteObjectsAndSegments env objs w))
   = delete_page objs (tables w)).
Proof.
  intros Hne.
  assert (Hfwd : fst (deleteObjectsAndSegments env objs w) = Ok tt ->
                 fails env (OpConn (length (batches w))) = false /\
                 forall i, i < 4 * length objs ->
                           fails env (OpStmt (length (batches w)) i) = false).
  { intros Hok. destruct (fails env (OpConn (length (batches w)))) eqn:Fc.
    - rewrite deleteObjectsAndSegments_conn_fails in Hok by assumption.
      discriminate Hok.
    - split; [reflexivity|]. intros i Hi.
      destruct (@deleteObjectsAndSegments_sent env objs w Hne Fc) as (Hr & _).
      rewrite Hr in Hok.
      destruct (Group_Err _) eqn:G in Hok; [discriminate Hok|].
      apply Group_Err_None in G.
      destruct (fails env (OpStmt (length (batches w)) i)) eqn:Fi;
        [|reflexivity].
      rewrite <- queue_batch_length in Hi.
      pose proof (@SendBatch_failed env (length (batches w)) (queue_batch objs)
                    (tables w) i Hi Fi) as Hin.
      rewrite G in Hin. destruct Hin. }
  assert (Hbwd : fails env (OpConn (length (batches w))) = false ->
                 (forall i, i < 4 * length objs ->
                            fails env (OpStmt (length (batches w)) i) = false) ->
                 fst (deleteObjectsAndSegments env objs w) = Ok tt /\
                 tables (snd (deleteObjectsAndSegments env objs w))
                 = delete_page objs (tables w)).
  { intros Fc Hs.
    destruct (@deleteObjectsAndSegments_sent env objs w Hne Fc)
      as (Hr & Ht & _).
    destruct (@SendBatch_no_failure env (length (batches w)) objs (tables w) Hs)
      as (Hd & He).
    rewrite Hr, Ht, He, Hd. split; reflexivity. }
  split; [split|].
  - exact Hfwd.
  - intros (Fc & Hs). now apply Hbwd.
  - intros Hok. destruct (Hfwd Hok) as (Fc & Hs). now apply Hbwd.
Qed.

Lemma X5_witness :
  (fst (deleteObjectsAndSegments env_first_delete_fails
          [row_stream row_a; row_stream row_c] three_rows_world) = Ok tt <->
   fails env_first_delete_fails
     (OpConn (length (batches three_rows_world))) = false /\
   forall i, i < 4 * length [row_stream row_a; row_stream row_c] ->
             fails env_first_delete_fails
               (OpStmt (length (batches three_rows_world)) i) = false) /\
  (fst (deleteObjectsAndSegments env_first_delete_fails
          [row_stream row_a; row_stream row_c] three_rows_world) = Ok tt ->
   tables (snd (deleteObjectsAndSegments env_first_delete_fails
                  [row_stream row_a; row_stream row_c] three_rows_world))
   = delete_page [row_stream row_a; row_stream row_c]
       (tables three_rows_world)).
Proof.
  apply (@X5_batch_returns_nil_iff_nothing_failed env_first_delete_fails
           [row_stream row_a; row_stream row_c] three_rows_world).
  discriminate.
Defined.

(** X6.  A pass that returns nil ran as if nothing could fail: whichever
    operations the environment would have failed, the world it ends in
    (tables, meters, log, SELECTs and batches) is the world the same pass
    ends in when no query, scan, connection or statement fails.  The loop
    returns every error a turn reports, so nil means that each matching row
    was read, logged and queued. *)
Theorem X6_pass_that_returns_nil_ran_without_failure env p fuel w w' :
  run_pass env fuel p w = Some (Ok tt, w') ->
  run_pass (quiet env) fuel p w = Some (Ok tt, w').
Proof.
  rewrite !run_pass_loop. intros Hrun. apply gc_loop_Ok in Hrun. exact Hrun.
Qed.

Lemma X6_witness :
  run_pass (quiet env_scan_fails) 10 (ExpiredPass (expired_opts 1)) example_world
  = Some (Ok tt,
          world_after example_world
            (run_pass env_scan_fails 10 (ExpiredPass (expired_opts 1))
               example_world)).
Proof.
  apply (@X6_pass_that_returns_nil_ran_without_failure env_scan_fails
           (ExpiredPass (expired_opts 1)) 10 example_world).
  vm_compute; reflexivity.
Defined.

(** ** The end of the loop *)

Lemma last_stream_id (page : list ObjectRow) :
  StreamID (List.last (map row_stream page) zeroObjectStream)
  = List.last (map stream_id page) 0%N.
Proof.
  destruct page as [|p rest]; [reflexivity|].
  revert p. induction rest as [|q rest IH]; intros p; [reflexivity|].
  change (StreamID (List.last (map row_stream (q :: rest)) zeroObjectStream)
          = List.last (map stream_id (q :: rest)) 0%N).
  apply IH.
Qed.

(** X7.  The loop takes a zero StreamID in the last scanned row for the end
    of the table.  When nothing fails, a turn whose page is empty or ends
    with a row whose [stream_id] is the zero UUID is the last turn: the page
    is deleted, the pass returns nil after that one SELECT, and every row
    whose key tuple is not in the page is still stored, whether or not it
    matches the selection. *)
Theorem X7_zero_stream_id_ends_the_pass env p fuel c w :
  (forall op, fails env op = false) ->
  (0 <= effective_batchsize env p)%Z ->
  List.last (map stream_id (next_page env p c w)) 0%N = 0%N ->
  exists w',
    batch_loop (S fuel) (pass_deleteBatch env p) c (effective_batchsize env p) w
    = Some (Ok tt, w') /\
    queries w' = queries w ++
                   [{| q_startAfter := c;
                       q_limit := effective_batchsize env p;
                       q_page := next_page env p c w |}] /\
    tables w' = delete_page (map row_stream (next_page env p c w)) (tables w) /\
    forall x, In x (objects (tables w)) ->
              (forall q, In q (next_page env p c w) -> row_key q <> row_key x) ->
              In x (objects (tables w')).
Proof.
  intros Hq Hn Hz. rewrite pass_deleteBatch_eq.
  destruct (@gc_deleteBatch_quiet env (pass_msg p) (pass_entry p) (pass_asOf p)
              (pass_sel p) c (effective_batchsize env p) w Hq Hn)
    as (w' & E & Ht & _ & Hqs & _).
  fold (next_page env p c w) in E, Ht, Hqs.
  exists w'. cbn [batch_loop]. rewrite E, last_stream_id, Hz.
  split; [reflexivity|]. split; [exact Hqs|]. split; [exact Ht|].
  intros x Hx Hk. rewrite Ht. simpl. apply filter_In. split; [exact Hx|].
  apply negb_true_iff.
  destruct (page_deletes_object (map row_stream (next_page env p c w)) x)
    eqn:P; [|reflexivity].
  apply existsb_exists in P. destruct P as (o & Ho & Hm).
  apply in_map_iff in Ho. destruct Ho as (q & <- & Hqin).
  apply object_matches_row_stream in Hm. destruct Hm as (Hm & _).
  exfalso. now apply (Hk q Hqin).
Qed.

Lemma X7_witness :
  exists w',
    batch_loop 10 (pass_deleteBatch env_ok (ExpiredPass (expired_opts 2)))
      zeroObjectStream 2%Z zero_stream_world
    = Some (Ok tt, w') /\
    length (queries w') = 1 /\
    expired_sel (expired_opts 2) row_c = true /\
    In row_c (objects (tables w')).
Proof.
  destruct (@X7_zero_stream_id_ends_the_pass env_ok
              (ExpiredPass (expired_opts 2)) 9 zeroObjectStream
              zero_stream_world)
    as (w' & Hrun & Hq & _ & Hkeep).
  - reflexivity.
  - vm_compute; discriminate.
  - vm_compute; reflexivity.
  - exists w'. split; [exact Hrun|]. split; [now rewrite Hq|].
    split; [vm_compute; reflexivity|].
    apply Hkeep; [vm_compute; auto|].
    intros q Hin. vm_compute in Hin.
    destruct Hin as [<-|[<-|[]]]; vm_compute; discriminate.
Defined.

(** ** What a pass that returns nil has done *)

Lemma page_sizes_S fuel n k :
  page_sizes (S fuel) n (S k)
  = Nat.min n (S k) :: page_sizes fuel n (S k - Nat.min n (S k)).
Proof. reflexivity. Qed.

Lemma page_sizes_sum fuel n k :
  0 < n -> k < fuel -> list_sum (page_sizes fuel n k) = k.
Proof.
  intros Hn. revert k. induction fuel as [|fuel IH]; intros k Hk; [lia|].
  destruct k as [|k]; [reflexivity|].
  rewrite page_sizes_S.
  change (Nat.min n (S k) + list_sum (page_sizes fuel n (S k - Nat.min n (S k)))
          = S k).
  rewrite IH by lia. lia.
Qed.

Lemma visited_length evs :
  length (visited evs) = list_sum (map (fun e => length (q_page e)) evs).
Proof.
  induction evs as [|e evs IH]; [reflexivity|].
  change (length (q_page e ++ visited evs)
          = length (q_page e) + list_sum (map (fun e => length (q_page e)) evs)).
  now rewrite length_app, IH.
Qed.

Lemma sorted_lt_NoDup l : StronglySorted row_lt l -> NoDup l.
Proof.
  induction 1 as [|x t Hs IH Hx]; constructor; [|exact IH].
  intros Hin. rewrite Forall_forall in Hx. specialize (Hx x Hin).
  unfold row_lt in Hx. now rewrite key_ltb_irrefl in Hx.
Qed.

(** Two lists in strictly increasing key order with the same rows are the
    same list. *)
Lemma sorted_lt_unique l1 l2 :
  StronglySorted row_lt l1 -> StronglySorted row_lt l2 ->
  (forall x, In x l1 <-> In x l2) -> l1 = l2.
Proof.
  intros H1. revert l2. induction H1 as [|a t1 Hs1 IH Ha]; intros l2 H2 Hin.
  - destruct l2 as [|b t2]; [reflexivity|].
    exfalso. apply (proj2 (Hin b)). now left.
  - destruct H2 as [|b t2 Hs2 Hb].
    { exfalso. apply (proj1 (Hin a)). now left. }
    rewrite Forall_forall in Ha, Hb.
    assert (E : a = b).
    { destruct (proj1 (Hin a) (or_introl eq_refl)) as [E|Hat2]; [now symmetry|].
      destruct (proj2 (Hin b) (or_introl eq_refl)) as [E|Hbt1]; [exact E|].
      specialize (Ha b Hbt1). specialize (Hb a Hat2). unfold row_lt in *.
      apply key_ltb_asym in Ha. congruence. }
    subst b. f_equal. apply IH; [exact Hs2|].
    intros x. split; intros Hx.
    + destruct (proj1 (Hin x) (or_intror Hx)) as [E|Hx2]; [|exact Hx2].
      subst x. specialize (Ha a Hx). unfold row_lt in Ha.
      now rewrite key_ltb_irrefl in Ha.
    + destruct (proj2 (Hin x) (or_intror Hx)) as [E|Hx1]; [|exact Hx1].
      subst x. specialize (Hb a Hx). unfold row_lt in Hb.
      now rewrite key_ltb_irrefl in Hb.
Qed.

Lemma queue_batch_app l1 l2 :
  queue_batch (l1 ++ l2) = queue_batch l1 ++ queue_batch l2.
Proof. unfold queue_batch. apply flat_map_app. Qed.

Lemma concat_batches evs :
  concat (map (fun e => queue_batch (map row_stream (q_page e)))
            (filter nonempty_page evs))
  = queue_batch (map row_stream (visited evs)).
Proof.
  induction evs as [|e evs IH]; [reflexivity|].
  unfold visited in *. cbn [flat_map filter].
  rewrite map_app, queue_batch_app, <- IH.
  unfold nonempty_page at 1. destruct (q_page e) eqn:Ep; [reflexivity|].
  cbn [map concat]. now rewrite Ep.
Qed.

Section GcVisited.

Variable env : Env.
Variable asOf : Time.
Variable msg : string.
Variable entry : ObjectRow -> LogEntry.
Variable sel : ObjectRow -> bool.
Variable n : Z.

Let turn := gc_deleteBatch env asOf msg entry sel.

(** Every row a run reads is a selected row of the table the run started
    from. *)
Lemma Run_visited_source c w r w' :
  Run turn n c w r w' ->
  exists evs,
    queries w' = queries w ++ evs /\
    Forall (fun x => In x (read_source env asOf w) /\ sel x = true)
      (visited evs).
Proof.
  assert (Hpage : forall c w,
            Forall (fun x => In x (read_source env asOf w) /\ sel x = true)
              (select_page (read_source env asOf w) c sel n)).
  { intros c0 w0. apply Forall_forall. intros x Hx.
    apply select_page_In in Hx. tauto. }
  induction 1 as [c w e w' E|c w l w' E Z|c w l w1 r w' E Z Hrun IH];
    apply gc_deleteBatch_step in E.
  - destruct E as [(Hq & _)|(_ & Hq & _)].
    + exists []. rewrite app_nil_r. split; [exact Hq | constructor].
    + eexists [_]. split; [exact Hq|].
      unfold visited. cbn [flat_map q_page]. rewrite app_nil_r. apply Hpage.
  - destruct E as [(_ & _ & _ & e & He)|(_ & Hq & _)]; [discriminate|].
    eexists [_]. split; [exact Hq|].
    unfold visited. cbn [flat_map q_page]. rewrite app_nil_r. apply Hpage.
  - destruct E as [(_ & _ & _ & e & He)|Ht]; [discriminate|].
    destruct (turn_source Ht) as (g & Hsrc).
    destruct Ht as (_ & Hq & _).
    destruct IH as (evs & Hq2 & Hall).
    eexists (_ :: evs). split; [rewrite Hq2, Hq, <- app_assoc; reflexivity|].
    unfold visited in *. cbn [flat_map q_page]. apply Forall_app.
    split; [apply Hpage|].
    eapply Forall_impl; [|exact Hall].
    intros x (Hx & Hs). rewrite Hsrc in Hx. apply filter_In in Hx. tauto.
Qed.

Hypothesis live : AsOfSystemTime env asOf = None.

(** A pass that returns nil has read the selected rows, each once, in key
    order. *)
Lemma gc_pass_visited fuel w w' :
  well_formed (objects (tables w)) -> (0 < n)%Z ->
  batch_loop fuel turn zeroObjectStream n w = Some (Ok tt, w') ->
  exists evs,
    queries w' = queries w ++ evs /\
    visited evs = orderByKey (filter sel (objects (tables w))) /\
    map (fun e => length (q_page e)) evs
    = page_sizes (S (length (filter sel (objects (tables w))))) (Z.to_nat n)
        (length (filter sel (objects (tables w)))) /\
    batches w' = batches w ++
                 map (fun e => queue_batch (map row_stream (q_page e)))
                   (filter nonempty_page evs) /\
    log w' = log w ++ map entry (visited evs).
Proof.
  intros Hwf Hn Hrun.
  destruct (@gc_pass_Ok env asOf msg entry sel n live fuel w w' Hwf Hn Hrun)
    as (_ & evs & Hq & Hsizes & Hb & Hl).
  exists evs. split; [exact Hq|]. split; [|auto].
  apply batch_loop_Run in Hrun.
  destruct (Run_trace Hrun) as (evs1 & Hq1 & Htrace).
  destruct (Run_visited_source Hrun) as (evs2 & Hq2 & Hsrc).
  rewrite Hq in Hq1, Hq2. apply app_inv_head in Hq1, Hq2. subst evs1 evs2.
  destruct Htrace as (_ & _ & _ & _ & _ & Hsorted).
  unfold read_source in Hsorted, Hsrc. rewrite live in Hsorted, Hsrc.
  specialize (Hsorted (wf_primary_key Hwf)).
  assert (Hlen : length (visited evs)
                 = length (filter sel (objects (tables w)))).
  { rewrite visited_length, Hsizes. apply page_sizes_sum; lia. }
  assert (Hincl : incl (visited evs) (filter sel (objects (tables w)))).
  { intros x Hx. rewrite Forall_forall in Hsrc.
    apply filter_In. now apply Hsrc. }
  assert (Hperm : Permutation (visited evs) (filter sel (objects (tables w)))).
  { apply NoDup_Permutation_bis; [now apply sorted_lt_NoDup | lia | exact Hincl]. }
  apply sorted_lt_unique; [exact Hsorted| |].
  - apply sorted_le_lt; [|apply orderByKey_sorted].
    apply (@NoDup_keys_perm (filter sel (objects (tables w))));
      [apply Permutation_sym, orderByKey_perm|].
    apply NoDup_keys_filter, Hwf.
  - intros x. rewrite orderByKey_In. split.
    + now apply Permutation_in.
    + now apply Permutation_in, Permutation_sym.
Qed.

End GcVisited.

(** X9.  A pass that returns nil has handled every selected row exactly
    once, in key order: the lines it added to the log are those of the
    selected rows in increasing order of (project_id, bucket_name,
    object_key, version), and the statements of the batches it sent, in the
    order they were sent, are the four statements of each of these rows in
    the same order.  Hypotheses: the SELECT reads the current table, the rows
    are well formed, and the effective batch size is positive. *)
Theorem X9_nil_pass_handles_each_selected_row_once env p fuel w w' :
  AsOfSystemTime env (pass_asOf p) = None ->
  well_formed (objects (tables w)) ->
  (0 < effective_batchsize env p)%Z ->
  run_pass env fuel p w = Some (Ok tt, w') ->
  log w' = log w ++
           map (pass_entry p)
             (orderByKey (filter (pass_sel p) (objects (tables w)))) /\
  exists sent,
    batches w' = batches w ++ sent /\
    concat sent
    = queue_batch
        (map row_stream
           (orderByKey (filter (pass_sel p) (objects (tables w))))).
Proof.
  intros Hlive Hwf Hn Hrun. rewrite run_pass_loop in Hrun.
  destruct (@gc_pass_visited env _ _ _ _ _ Hlive fuel w w' Hwf Hn Hrun)
    as (evs & _ & Hv & _ & Hb & Hl).
  rewrite Hv in Hl. split; [exact Hl|].
  eexists. split; [exact Hb|]. now rewrite concat_batches, Hv.
Qed.

Lemma X9_witness :
  log (world_after example_world
         (run_pass env_ok 10 (ExpiredPass (expired_opts 2)) example_world))
  = log example_world ++ map expired_entry [row_a; row_b; row_c; row_d; row_e].
Proof.
  refine (proj1 (@X9_nil_pass_handles_each_selected_row_once env_ok
                   (ExpiredPass (expired_opts 2)) 10 example_world _ _ _ _ _)).
  - reflexivity.
  - apply well_formedb_sound. vm_compute; reflexivity.
  - vm_compute; reflexivity.
  - vm_compute; reflexivity.
Defined.

(** ** The cost of a pass *)

Lemma pages_needed_0 n : 0 < n -> pages_needed n 0 = 0.
Proof.
  intros Hn. unfold pages_needed. apply Nat.div_small. lia.
Qed.

Lemma pages_needed_step n k :
  0 < n -> 0 < k ->
  pages_needed n k = S (pages_needed n (k - Nat.min n k)).
Proof.
  intros Hn Hk. unfold pages_needed.
  destruct (Nat.le_gt_cases k n) as [Hle|Hgt].
  - rewrite Nat.min_r by exact Hle. rewrite Nat.sub_diag.
    replace (k + n - 1) with ((k - 1) + 1 * n) by lia.
    rewrite Nat.div_add by lia.
    rewrite !Nat.div_small by lia. reflexivity.
  - rewrite Nat.min_l by lia.
    replace (k + n - 1) with ((k - n + n - 1) + 1 * n) by lia.
    rewrite Nat.div_add by lia. lia.
Qed.

Lemma page_sizes_length fuel n k :
  0 < n -> k < fuel ->
  length (page_sizes fuel n k) = S (pages_needed n k) /\
  length (filter (fun s => negb (Nat.eqb s 0)) (page_sizes fuel n k))
  = pages_needed n k.
Proof.
  intros Hn. revert k. induction fuel as [|fuel IH]; intros k Hk; [lia|].
  destruct k as [|k].
  - rewrite pages_needed_0 by exact Hn. split; reflexivity.
  - rewrite page_sizes_S.
    destruct (IH (S k - Nat.min n (S k))) as (H1 & H2); [lia|].
    rewrite (@pages_needed_step n (S k)) by lia.
    cbn [length filter].
    destruct (Nat.eqb_spec (Nat.min n (S k)) 0) as [E|E]; [lia|].
    cbn [negb length]. now rewrite H1, H2.
Qed.

Lemma nonempty_pages_length evs :
  length (filter nonempty_page evs)
  = length (filter (fun s => negb (Nat.eqb s 0))
              (map (fun e => length (q_page e)) evs)).
Proof.
  induction evs as [|e evs IH]; [reflexivity|].
  cbn [filter map]. rewrite nonempty_page_length.
  destruct (negb (Nat.eqb (length (q_page e)) 0)); simpl; now rewrite IH.
Qed.

(** X10.  The cost of a pass that returns nil over [k] selected rows with an
    effective batch size [n]: it sends the batches of [k / n] rounded up
    pages and issues one SELECT more than that, the last one returning no
    row.  Hypotheses: the SELECT reads the current table, the rows are well
    formed, and [n] is positive. *)
Theorem X10_nil_pass_sends_k_over_n_batches env p fuel w w' :
  AsOfSystemTime env (pass_asOf p) = None ->
  well_formed (objects (tables w)) ->
  (0 < effective_batchsize env p)%Z ->
  run_pass env fuel p w = Some (Ok tt, w') ->
  length (batches w')
  = length (batches w)
    + pages_needed (Z.to_nat (effective_batchsize env p))
        (length (filter (pass_sel p) (objects (tables w)))) /\
  length (queries w')
  = length (queries w)
    + S (pages_needed (Z.to_nat (effective_batchsize env p))
           (length (filter (pass_sel p) (objects (tables w))))).
Proof.
  intros Hlive Hwf Hn Hrun. rewrite run_pass_loop in Hrun.
  destruct (@gc_pass_visited env _ _ _ _ _ Hlive fuel w w' Hwf Hn Hrun)
    as (evs & Hq & _ & Hsizes & Hb & _).
  destruct (@page_sizes_length
              (S (length (filter (pass_sel p) (objects (tables w)))))
              (Z.to_nat (effective_batchsize env p))
              (length (filter (pass_sel p) (objects (tables w)))))
    as (H1 & H2); [lia | lia |].
  rewrite <- Hsizes in H1, H2. rewrite length_map in H1.
  rewrite <- nonempty_pages_length in H2.
  rewrite Hb, Hq, !length_app, length_map. lia.
Qed.

Lemma X10_witness :
  length (batches (world_after example_world
            (run_pass env_ok 10 (ExpiredPass (expired_opts 2)) example_world)))
  = 3 /\
  length (queries (world_after example_world
            (run_pass env_ok 10 (ExpiredPass (expired_opts 2)) example_world)))
  = 4.
Proof.
  refine (@X10_nil_pass_sends_k_over_n_batches env_ok
            (ExpiredPass (expired_opts 2)) 10 example_world _ _ _ _ _).
  - reflexivity.
  - apply well_formedb_sound. vm_compute; reflexivity.
  - vm_compute; reflexivity.
  - vm_compute; reflexivity.
Defined.

(** ** The meters with one object in each batch *)

Lemma int64_add_0 k : (0 <= k < 2 ^ 63)%Z -> int64_add 0 k = k.
Proof.
  intros Hk. unfold int64_add.
  change (2 ^ 63)%Z with 9223372036854775808%Z in *.
  change (2 ^ 64)%Z with 18446744073709551616%Z.
  rewrite Z.mod_small; lia.
Qed.

Lemma delete_one_lengths o t :
  Z.of_nat (length (objects (delete_page [o] t)))
  = (Z.of_nat (length (objects t)) - rows_affected (DeleteObject o) t)%Z /\
  Z.of_nat (length (segments (delete_page [o] t)))
  = (Z.of_nat (length (segments t))
     - rows_affected (DeleteSegments (StreamID o)) t)%Z.
Proof.
  unfold delete_page, page_deletes_object, page_deletes_segment, rows_affected.
  cbn [objects segments existsb].
  pose proof (filter_length (object_matches o) (objects t)) as Ho.
  pose proof (filter_length (segment_matches (StreamID o)) (segments t)) as Hs.
  rewrite (@filter_ext _ (fun r => negb (object_matches o r || false))
             (fun r => negb (object_matches o r)))
    by (intros r; now rewrite orb_false_r).
  rewrite (@filter_ext _ (fun s => negb (segment_matches (StreamID o) s || false))
             (fun s => negb (segment_matches (StreamID o) s)))
    by (intros s; now rewrite orb_false_r).
  lia.
Qed.

Section GcMeters.

Variable env : Env.
Variable asOf : Time.
Variable msg : string.
Variable entry : ObjectRow -> LogEntry.
Variable sel : ObjectRow -> bool.

Hypothesis Hquiet : forall op, fails env op = false.

Let turn := gc_deleteBatch env asOf msg entry sel.

(** With LIMIT 1 a turn marks the meters with what it removed. *)
Lemma turn_one_meters c w r w1 :
  turn c 1%Z w = (r, w1) ->
  (Z.of_nat (length (objects (tables w))) < 2 ^ 63)%Z ->
  (Z.of_nat (length (segments (tables w))) < 2 ^ 63)%Z ->
  length (objects (tables w1)) <= length (objects (tables w)) /\
  length (segments (tables w1)) <= length (segments (tables w)) /\
  object_delete w1
  = (object_delete w + Z.of_nat (length (objects (tables w)))
     - Z.of_nat (length (objects (tables w1))))%Z /\
  segment_delete w1
  = (segment_delete w + Z.of_nat (length (segments (tables w)))
     - Z.of_nat (length (segments (tables w1))))%Z.
Proof.
  intros E Ho Hs. apply gc_deleteBatch_cases in E.
  destruct E as [(Ht & _ & Hmo & Hms & _)
                |(Hne & _ & Ht & _ & _ & _ & _ & w2 & Ht2 & _ & Hmo & Hms & ->)].
  - rewrite Ht, Hmo, Hms. repeat split; lia.
  - set (page := select_page (read_source env asOf w) c sel 1%Z) in *.
    pose proof (select_page_length (read_source env asOf w) c sel 1%Z) as Hlen.
    fold page in Hlen.
    destruct page as [|p [|q rest]]; [congruence| |simpl in Hlen; lia].
    cbn [map] in *.
    destruct (@one_object_batch_meters env (row_stream p) w2 Hquiet)
      as (Eo & Es).
    rewrite Eo, Es, Hmo, Hms, Ht2, Ht.
    destruct (@SendBatch_quiet env (length (batches w)) [row_stream p]
                (tables w) Hquiet) as (Hd & _).
    rewrite Hd.
    destruct (delete_one_lengths (row_stream p) (tables w)) as (Lo & Ls).
    assert (Ro : (0 <= rows_affected (DeleteObject (row_stream p)) (tables w))%Z)
      by (simpl; lia).
    assert (Rs : (0 <= rows_affected
                         (DeleteSegments (StreamID (row_stream p))) (tables w))%Z)
      by (simpl; lia).
    rewrite !int64_add_0 by lia. repeat split; lia.
Qed.

Lemma Run_one_meters c w r w' :
  Run turn 1%Z c w r w' ->
  (Z.of_nat (length (objects (tables w))) < 2 ^ 63)%Z ->
  (Z.of_nat (length (segments (tables w))) < 2 ^ 63)%Z ->
  length (objects (tables w')) <= length (objects (tables w)) /\
  length (segments (tables w')) <= length (segments (tables w)) /\
  object_delete w'
  = (object_delete w + Z.of_nat (length (objects (tables w)))
     - Z.of_nat (length (objects (tables w'))))%Z /\
  segment_delete w'
  = (segment_delete w + Z.of_nat (length (segments (tables w)))
     - Z.of_nat (length (segments (tables w'))))%Z.
Proof.
  induction 1 as [c w e w' E|c w l w' E Z|c w l w1 r w' E Z Hrun IH];
    intros Ho Hs.
  - now apply (@turn_one_meters _ _ _ _ E).
  - now apply (@turn_one_meters _ _ _ _ E).
  - destruct (@turn_one_meters _ _ _ _ E Ho Hs) as (Lo & Ls & Mo & Ms).
    destruct IH as (Lo2 & Ls2 & Mo2 & Ms2); [lia | lia |].
    repeat split; lia.
Qed.

End GcMeters.

(** X11.  With one object in each batch the meters are exact.  When the
    effective batch size is 1, a pass that returns nil has marked
    [object_delete] with the number of rows it removed from [objects] and
    [segment_delete] with the number of rows it removed from [segments]: the
    four results of a batch of one object fall on the intended cases of
    [switch i % 3].  Hypothesis: either table holds fewer than 2^63 rows, so
    that the [int64] sums do not wrap. *)
Theorem X11_meters_are_exact_with_batch_size_one env p fuel w w' :
  effective_batchsize env p = 1%Z ->
  (Z.of_nat (length (objects (tables w))) < 2 ^ 63)%Z ->
  (Z.of_nat (length (segments (tables w))) < 2 ^ 63)%Z ->
  run_pass env fuel p w = Some (Ok tt, w') ->
  object_delete w'
  = (object_delete w + Z.of_nat (length (objects (tables w)))
     - Z.of_nat (length (objects (tables w'))))%Z /\
  segment_delete w'
  = (segment_delete w + Z.of_nat (length (segments (tables w)))
     - Z.of_nat (length (segments (tables w'))))%Z.
Proof.
  intros Hn Ho Hs Hrun. rewrite run_pass_loop in Hrun.
  apply gc_loop_Ok, batch_loop_Run in Hrun. rewrite Hn in Hrun.
  destruct (@Run_one_meters (quiet env) _ _ _ _ (fun _ => eq_refl)
              _ _ _ _ Hrun Ho Hs) as (_ & _ & Mo & Ms).
  split; assumption.
Qed.

Lemma X11_witness :
  object_delete (world_after two_rows_world
     (run_pass env_ok 10 (ExpiredPass (expired_opts 1)) two_rows_world)) = 2%Z /\
  segment_delete (world_after two_rows_world
     (run_pass env_ok 10 (ExpiredPass (expired_opts 1)) two_rows_world)) = 3%Z.
Proof.
  refine (@X11_meters_are_exact_with_batch_size_one env_ok
            (ExpiredPass (expired_opts 1)) 10 two_rows_world _ _ _ _ _).
  - reflexivity.
  - vm_compute; reflexivity.
  - vm_compute; reflexivity.
  - vm_compute; reflexivity.
Defined.

(** ** The errors of a pass *)

Lemma exec_from_errors env b i l ss :
  Forall (fun x => x = ErrTxnAborted \/ exists k, x = ErrDB (OpStmt b k))
    (errors_of (fst (exec_from env b i l ss))).
Proof.
  revert i ss. induction l as [|s t IH]; intros i ss; [constructor|].
  cbn [exec_from].
  destruct (exec_stmt (fails env (OpStmt b i)) (OpStmt b i) s ss)
    as [r ss1] eqn:E.
  specialize (IH (S i) ss1).
  destruct (exec_from env b (S i) t ss1) as [rs ss2].
  unfold errors_of in *. cbn [fst flat_map] in *.
  apply Forall_app. split; [|exact IH].
  unfold exec_stmt in E.
  destruct (fails env (OpStmt b i)).
  - inversion E; subst. constructor; [eauto | constructor].
  - destruct s, (txn ss); inversion E; subst;
      repeat constructor; auto.
Qed.

Lemma SendBatch_errors env b stmts t :
  Forall (fun x => x = ErrTxnAborted \/ exists k, x = ErrDB (OpStmt b k))
    (errors_of (fst (SendBatch env b stmts t))).
Proof.
  unfold SendBatch.
  pose proof (exec_from_errors env b 0 stmts {| committed := t; txn := NoTxn |})
    as H.
  destruct (exec_from env b 0 stmts _) as [rs ss]. exact H.
Qed.

Lemma Run_errors env asOf msg entry sel n c w r w' :
  Run (gc_deleteBatch env asOf msg entry sel) n c w r w' ->
  forall e, r = Err e -> pass_error msg e.
Proof.
  assert (Hone : forall c w e w1,
            gc_deleteBatch env asOf msg entry sel c n w = (Err e, w1) ->
            pass_error msg e).
  { intros c0 w0 e w1 E. apply gc_deleteBatch_cases in E.
    destruct E as [(_ & _ & _ & _ & _ & _ & Hr)|(_ & _ & _ & _ & _ & _ & Hr & _)].
    - destruct Hr as [(Hr & _)|[Hr|[(k & Hr)|[Hr|(Hr & _)]]]];
        inversion Hr; subst; constructor.
    - destruct (Group_Err _) as [e'|] eqn:G in Hr; inversion Hr; subst.
      eapply pass_error_batch; [exact G | apply SendBatch_errors]. }
  induction 1 as [c w e w' E|c w l w' E Z|c w l w1 r w' E Z Hrun IH];
    intros e0 He.
  - inversion He; subst. now apply (Hone _ _ _ _ E).
  - discriminate He.
  - now apply IH.
Qed.

(** X12.  Every error a pass returns has one of five shapes: the panic of
    [make] on a negative batch size; a failed SELECT under the text of the
    pass; a failed [Scan] under that text twice, once from the callback and
    once from the closure; a failed connection; or the group of errors of
    the statements of a batch, each of them the error of a statement or the
    refusal of a statement in an aborted transaction.  The last two carry the
    text "unable to delete expired objects" in the zombie pass as well,
    because [deleteObjectsAndSegments] is shared. *)
Theorem X12_errors_of_a_pass env p fuel w e w' :
  run_pass env fuel p w = Some (Err e, w') -> pass_error (pass_msg p) e.
Proof.
  intros Hrun. apply run_pass_Run in Hrun.
  exact (Run_errors Hrun eq_refl).
Qed.

Lemma X12_witness :
  pass_error msg_zombie
    (ErrWrap msg_zombie (ErrWrap msg_zombie (ErrDB (OpScan 0 1)))).
Proof.
  refine (@X12_errors_of_a_pass env_scan_fails (ZombiePass (zombie_opts 2)) 10
            two_zombies_world _
            (world_after two_zombies_world
               (run_pass env_scan_fails 10 (ZombiePass (zombie_opts 2))
                  two_zombies_world))
            _).
  vm_compute; reflexivity.
Defined.

(** ** The tables at the end of a pass, and a second attempt *)

Lemma delete_page_app a b t :
  delete_page (a ++ b) t = delete_page b (delete_page a t).
Proof.
  revert t. induction a as [|o a IH]; intros t.
  - now rewrite delete_page_nil.
  - cbn [app]. now rewrite !delete_page_cons, IH.
Qed.

Lemma well_formed_filter (g : ObjectRow -> bool) rows :
  well_formed rows -> well_formed (filter g rows).
Proof.
  intros [Hk Hz Hs]. constructor.
  - now apply NoDup_keys_filter.
  - intros r Hr. apply filter_In in Hr. now apply Hz.
  - intros r Hr. apply filter_In in Hr. now apply Hs.
Qed.

(** Once the units of some selected rows are gone, what is left to remove
    leads to the same tables. *)
Lemma gc_pass_result_delete_page sel cu t :
  NoDup (map row_key (objects t)) ->
  incl cu (map row_stream (filter sel (objects t))) ->
  gc_pass_result sel (delete_page cu t) = gc_pass_result sel t.
Proof.
  intros Hnd Hcu.
  assert (Hrow : forall o, In o cu ->
            exists p, In p (objects t) /\ sel p = true /\ o = row_stream p).
  { intros o Ho. apply Hcu, in_map_iff in Ho. destruct Ho as (p & <- & Hp).
    apply filter_In in Hp. exists p. tauto. }
  assert (Hobj : forall x, In x (objects t) ->
            page_deletes_object cu x = true -> sel x = true).
  { intros x Hx Hd. apply existsb_exists in Hd. destruct Hd as (o & Ho & Hm).
    destruct (Hrow o Ho) as (p & Hp & Hs & ->).
    apply object_matches_row_stream in Hm. destruct Hm as (Hk & _).
    now rewrite (@NoDup_keys_inj (objects t) x p Hnd Hx Hp Hk). }
  unfold gc_pass_result. cbn [objects segments delete_page].
  rewrite !filter_filter. f_equal.
  - apply filter_ext_in. intros x Hx.
    destruct (page_deletes_object cu x) eqn:D; [|reflexivity].
    now rewrite (Hobj x Hx D).
  - apply filter_ext_in. intros s Hs.
    destruct (page_deletes_segment cu s) eqn:D; cbn [negb andb].
    + symmetry. apply negb_false_iff, existsb_exists.
      apply existsb_exists in D. destruct D as (o & Ho & Hm).
      destruct (Hrow o Ho) as (p & Hp & Hsel & ->).
      exists p. split; [apply filter_In; now split | exact Hm].
    + f_equal.
      destruct (existsb (fun r => segment_matches (stream_id r) s)
                  (filter sel (objects t))) eqn:Ex.
      * apply existsb_exists in Ex. destruct Ex as (x & Hx & Hm).
        apply filter_In in Hx. destruct Hx as (Hx & Hsel).
        apply existsb_exists. exists x. split; [|exact Hm].
        apply filter_In. split; [exact Hx|].
        rewrite Hsel, andb_true_r. apply negb_true_iff.
        destruct (page_deletes_object cu x) eqn:Dx; [|reflexivity].
        exfalso. apply existsb_exists in Dx. destruct Dx as (o & Ho & Hmo).
        assert (Hds : page_deletes_segment cu s = true).
        { apply existsb_exists. exists o. split; [exact Ho|].
          unfold object_matches in Hmo. apply andb_true_iff in Hmo.
          destruct Hmo as (_ & Hsid). apply N.eqb_eq in Hsid.
          unfold segment_matches in *. apply N.eqb_eq in Hm.
          apply N.eqb_eq. congruence. }
        congruence.
      * apply not_true_is_false. intros Ex'. apply existsb_exists in Ex'.
        destruct Ex' as (x & Hx & Hm).
        apply filter_In in Hx. destruct Hx as (Hx & Hsel).
        apply andb_true_iff in Hsel. destruct Hsel as (_ & Hsel).
        assert (Ex2 : existsb (fun r => segment_matches (stream_id r) s)
                        (filter sel (objects t)) = true).
        { apply existsb_exists. exists x. split; [|exact Hm].
          apply filter_In. now split. }
        congruence.
Qed.

Section GcPassUnits.

Variable env : Env.
Variable asOf : Time.
Variable msg : string.
Variable entry : ObjectRow -> LogEntry.
Variable sel : ObjectRow -> bool.
Variable n : Z.

Hypothesis Hstart : forall b, start_failure_is_fatal env b.

Let turn := gc_deleteBatch env asOf msg entry sel.

Lemma Run_tables_units c w r w' :
  Run turn n c w r w' ->
  exists cu,
    incl cu (map row_stream (filter sel (read_source env asOf w))) /\
    tables w' = delete_page cu (tables w).
Proof.
  assert (Hone : forall c w r w1, turn c n w = (r, w1) ->
            exists cu,
              incl cu (map row_stream (filter sel (read_source env asOf w))) /\
              tables w1 = delete_page cu (tables w)).
  { intros c0 w0 r0 w1 E.
    destruct (@turn_tables_units env asOf msg entry sel n Hstart _ _ _ _ E)
      as (cu & Hcu & Ht).
    exists cu. split; [|exact Ht].
    intros o Ho. apply Hcu, in_map_iff in Ho. destruct Ho as (p & <- & Hp).
    apply in_map. apply select_page_In in Hp. apply filter_In. tauto. }
  induction 1 as [c w e w' E|c w l w' E Z|c w l w1 r w' E Z Hrun IH].
  - now apply (Hone _ _ _ _ E).
  - now apply (Hone _ _ _ _ E).
  - destruct (Hone _ _ _ _ E) as (cu1 & Hcu1 & Ht1).
    destruct IH as (cu2 & Hcu2 & Ht2).
    apply gc_deleteBatch_step in E.
    destruct E as [(_ & _ & _ & e & He)|Hran]; [discriminate|].
    destruct (turn_source Hran) as (g & Hsrc).
    exists (cu1 ++ cu2). split.
    + apply incl_app; [exact Hcu1|].
      intros o Ho. apply Hcu2, in_map_iff in Ho. destruct Ho as (p & <- & Hp).
      apply in_map. rewrite Hsrc in Hp. apply filter_In in Hp.
      destruct Hp as (Hp & Hs). apply filter_In in Hp. apply filter_In. tauto.
    + now rewrite Ht2, Ht1, delete_page_app.
Qed.

End GcPassUnits.

(** X13.  No object is half deleted by a pass.  Whatever fails and wherever
    the pass stops, the tables it leaves are the tables it started from with
    both DELETEs applied for some of the selected rows it read, and nothing
    else changed: each of these rows is gone together with every segment of
    its stream.  Hypothesis: a START TRANSACTION that fails takes the DELETEs
    of its unit with it. *)
Theorem X13_pass_removes_whole_units_of_selected_rows env p fuel w r w' :
  (forall b, start_failure_is_fatal env b) ->
  run_pass env fuel p w = Some (r, w') ->
  exists done,
    incl done
      (map row_stream
         (filter (pass_sel p) (read_source env (pass_asOf p) w))) /\
    tables w' = delete_page done (tables w).
Proof.
  intros Hstart Hrun. apply run_pass_Run in Hrun.
  exact (@Run_tables_units env _ _ _ _ _ Hstart _ _ _ _ Hrun).
Qed.

Lemma X13_witness :
  exists done,
    incl done
      (map row_stream
         (filter (pass_sel (ExpiredPass (expired_opts 2)))
            (read_source env_first_delete_fails
               (pass_asOf (ExpiredPass (expired_opts 2))) three_rows_world))) /\
    tables (world_after three_rows_world
              (run_pass env_first_delete_fails 10
                 (ExpiredPass (expired_opts 2)) three_rows_world))
    = delete_page done (tables three_rows_world).
Proof.
  refine (@X13_pass_removes_whole_units_of_selected_rows
            env_first_delete_fails (ExpiredPass (expired_opts 2)) 10
            three_rows_world
            (Err (ErrWrap msg_expired
                    (ErrGroup [ErrDB (OpStmt 0 1); ErrTxnAborted])))
            _ _ _).
  - exact env_first_delete_fails_every_start_fatal.
  - vm_compute; reflexivity.
Defined.

(** X14.  A pass that failed is made good by the next one.  If a pass stops
    with an error, or without one, and the same pass is then run again and
    returns nil, the tables are the ones a single pass without failure would
    have left: every selected row of the first table is gone with the
    segments of its stream, and nothing else.  What the first attempt
    removed, it removed in whole units, so the second has nothing to repair.
    Hypotheses: both runs read the current table, the rows are well formed,
    a failed START TRANSACTION takes the DELETEs of its unit with it, and
    the batch size of the second run is positive. *)
Theorem X14_second_attempt_completes_a_failed_pass
    env env2 p fuel fuel2 w r w1 w2 :
  (forall b, start_failure_is_fatal env b) ->
  AsOfSystemTime env (pass_asOf p) = None ->
  AsOfSystemTime env2 (pass_asOf p) = None ->
  well_formed (objects (tables w)) ->
  (0 < effective_batchsize env2 p)%Z ->
  run_pass env fuel p w = Some (r, w1) ->
  run_pass env2 fuel2 p w1 = Some (Ok tt, w2) ->
  tables w2 = gc_pass_result (pass_sel p) (tables w).
Proof.
  intros Hstart Hlive Hlive2 Hwf Hn Hrun1 Hrun2.
  apply run_pass_Run in Hrun1.
  destruct (@Run_tables_units env _ _ _ _ _ Hstart _ _ _ _ Hrun1)
    as (cu & Hcu & Ht1).
  unfold read_source in Hcu. rewrite Hlive in Hcu.
  rewrite run_pass_loop in Hrun2.
  assert (Hwf1 : well_formed (objects (tables w1))).
  { rewrite Ht1. cbn [objects delete_page]. now apply well_formed_filter. }
  destruct (@gc_pass_Ok env2 _ _ _ _ _ Hlive2 fuel2 w1 w2 Hwf1 Hn Hrun2)
    as (Ht2 & _).
  rewrite Ht2, Ht1. apply gc_pass_result_delete_page; [apply Hwf | exact Hcu].
Qed.

Lemma X14_witness :
  tables (world_after three_rows_world
     (run_pass env_ok 10 (ExpiredPass (expired_opts 2))
        (world_after three_rows_world
           (run_pass env_first_delete_fails 10 (ExpiredPass (expired_opts 2))
              three_rows_world))))
  = gc_pass_result (pass_sel (ExpiredPass (expired_opts 2)))
      (tables three_rows_world).
Proof.
  refine (@X14_second_attempt_completes_a_failed_pass
            env_first_delete_fails env_ok (ExpiredPass (expired_opts 2)) 10 10
            three_rows_world
            (Err (ErrWrap msg_expired
                    (ErrGroup [ErrDB (OpStmt 0 1); ErrTxnAborted])))
            _ _ _ _ _ _ _ _ _).
  - exact env_first_delete_fails_every_start_fatal.
  - reflexivity.
  - reflexivity.
  - apply well_formedb_sound. vm_compute; reflexivity.
  - vm_compute; reflexivity.
  - vm_compute; reflexivity.
  - vm_compute; reflexivity.
Defined.

(** ** A pass that reads an older state of the table *)

Lemma sorted_app_inv (A : Type) (R : A -> A -> Prop) l1 l2 :
  StronglySorted R (l1 ++ l2) ->
  StronglySorted R l2 /\ forall x y, In x l1 -> In y l2 -> R x y.
Proof.
  induction l1 as [|a t IH]; simpl; intros H.
  - split; [exact H | intros x y []].
  - inversion H as [|? ? Hs Ha]; subst. destruct (IH Hs) as (H2 & Hlt).
    split; [exact H2|]. intros x y [<-|Hx] Hy.
    + rewrite Forall_forall in Ha. apply Ha, in_or_app. now right.
    + now apply Hlt.
Qed.

(** The rows selected after the cursor, in key order, are the page followed
    by the rows selected after the last row of the page. *)
Lemma orderByKey_page_split rows c sel n p :
  NoDup (map row_key rows) -> (0 < n)%Z ->
  select_page rows c sel n <> [] ->
  (forall d, List.last (select_page rows c sel n) d = p) ->
  orderByKey (filter (where_clause sel c) rows)
  = select_page rows c sel n
    ++ orderByKey (filter (where_clause sel (row_stream p)) rows).
Proof.
  intros Hnd Hn Hne Hlast.
  set (L := orderByKey (filter (where_clause sel c) rows)).
  assert (Hp : select_page rows c sel n = firstn (Z.to_nat n) L)
    by apply select_page_unfold.
  assert (HL : StronglySorted row_lt L).
  { apply sorted_le_lt; [|apply orderByKey_sorted].
    apply (@NoDup_keys_perm (filter (where_clause sel c) rows));
      [apply Permutation_sym, orderByKey_perm|].
    now apply NoDup_keys_filter. }
  rewrite <- (firstn_skipn (Z.to_nat n) L) in HL |- * at 1.
  rewrite <- Hp in *. f_equal.
  destruct (sorted_app_inv _ _ HL) as (Hskip & Hlt).
  assert (Hpin : In p (select_page rows c sel n)).
  { rewrite <- (Hlast p). now apply last_In. }
  apply sorted_lt_unique; [exact Hskip| |].
  - apply sorted_le_lt; [|apply orderByKey_sorted].
    apply (@NoDup_keys_perm (filter (where_clause sel (row_stream p)) rows));
      [apply Permutation_sym, orderByKey_perm|].
    now apply NoDup_keys_filter.
  - intros x. rewrite orderByKey_In, filter_In. split.
    + intros Hx. pose proof (Hlt p x Hpin Hx) as Hpx.
      apply in_skipn in Hx. apply orderByKey_In, filter_In in Hx.
      destruct Hx as (Hx & Hw). split; [exact Hx|].
      unfold where_clause in *. apply andb_true_iff in Hw.
      rewrite stream_key_row_stream. apply andb_true_iff. split; tauto.
    + intros (Hx & Hw).
      unfold where_clause in Hw. rewrite stream_key_row_stream in Hw.
      apply andb_true_iff in Hw. destruct Hw as (Hpx & Hs).
      assert (HxL : In x L).
      { apply orderByKey_In, filter_In. split; [exact Hx|].
        unfold where_clause. rewrite Hs, andb_true_r.
        apply select_page_In in Hpin. destruct Hpin as (_ & Hcp & _).
        now apply key_ltb_trans with (row_key p). }
      destruct (in_firstn_or_skipn (Z.to_nat n) L x HxL) as [Hf|Hsk];
        [|exact Hsk].
      exfalso. rewrite <- Hp in Hf.
      pose proof (@select_page_last_max rows c sel n p x Hf) as Hmax.
      rewrite Hlast in Hmax. congruence.
Qed.

Section GcSnapshot.

Variable env : Env.
Variable asOf : Time.
Variable msg : string.
Variable entry : ObjectRow -> LogEntry.
Variable sel : ObjectRow -> bool.
Variable n : Z.
Variable rows : list ObjectRow.

Hypothesis Hquiet : forall op, fails env op = false.
Hypothesis snapshot : AsOfSystemTime env asOf = Some rows.
Hypothesis Hn : (0 < n)%Z.
Hypothesis Hnd : NoDup (map row_key rows).
Hypothesis Hsid : forall x, In x rows -> stream_id x <> 0%N.

Let turn := gc_deleteBatch env asOf msg entry sel.

Lemma gc_loop_snapshot fuel c w :
  length (filter (where_clause sel c) rows) < fuel ->
  exists w',
    batch_loop fuel turn c n w = Some (Ok tt, w') /\
    tables w'
    = delete_page
        (map row_stream (orderByKey (filter (where_clause sel c) rows)))
        (tables w) /\
    log w' = log w ++
             map entry (orderByKey (filter (where_clause sel c) rows)).
Proof.
  revert c w. induction fuel as [|fuel IH]; intros c w Hfuel; [lia|].
  destruct (@gc_deleteBatch_quiet env msg entry asOf sel c n w Hquiet
              (Z.lt_le_incl _ _ Hn)) as (w1 & E & Ht & Hl & _).
  unfold read_source in E, Ht, Hl. rewrite snapshot in E, Ht, Hl.
  cbn [batch_loop]. unfold turn. rewrite E.
  set (page := select_page rows c sel n) in *.
  destruct page as [|p0 rest] eqn:Ep.
  - (* nothing is selected after the cursor *)
    assert (E0 : orderByKey (filter (where_clause sel c) rows) = []).
    { pose proof (select_page_unfold rows c sel n) as Hu.
      fold page in Hu. rewrite Ep in Hu.
      destruct (orderByKey (filter (where_clause sel c) rows)) as [|x l];
        [reflexivity|].
      destruct (Z.to_nat n) eqn:En; [lia | discriminate Hu]. }
    cbn [map List.last zeroObjectStream StreamID IsZero N.eqb].
    exists w1. rewrite E0. cbn [map].
    rewrite delete_page_nil, app_nil_r in *. auto.
  - rewrite <- Ep in *.
    assert (Hne : page <> []) by (rewrite Ep; discriminate).
    set (p := List.last page p0).
    assert (Hlast : forall d, List.last page d = p).
    { intros d. unfold p. rewrite Ep. now rewrite !last_cons. }
    assert (Hpin : In p page) by (unfold p; now apply last_In).
    rewrite (@last_map_row_stream page p0 Hne). fold p.
    assert (Hz : IsZero (StreamID (row_stream p)) = false).
    { unfold IsZero. cbn [StreamID row_stream]. apply N.eqb_neq.
      apply Hsid. unfold page in Hpin. now apply select_page_In in Hpin. }
    rewrite Hz.
    pose proof (@orderByKey_page_split rows c sel n p Hnd Hn Hne Hlast)
      as Hsplit.
    fold page in Hsplit.
    destruct (IH (row_stream p) w1) as (w' & Hrun & Ht' & Hl').
    { apply (f_equal (@length _)) in Hsplit.
      rewrite length_app, !orderByKey_length in Hsplit.
      assert (0 < length page) by (rewrite Ep; simpl; lia). lia. }
    exists w'. split; [exact Hrun|].
    rewrite Ht', Hl', Ht, Hl, Hsplit, !map_app, delete_page_app, app_assoc.
    split; reflexivity.
Qed.

End GcSnapshot.

(** X15.  With AS OF SYSTEM TIME the pass works through the snapshot, not
    through the table.  When the SELECT reads an older state [rows] of
    [objects] and nothing fails, the pass returns nil, logs the selected rows
    of the snapshot in key order, and leaves the current tables without the
    rows that carry the key tuple and the stream id of a selected snapshot
    row and without the segments of the streams of these rows.  What such a
    row holds by now in its other columns (status, expiry, deadline) plays no
    part: the DELETE tests the key tuple and the stream id only.
    Hypotheses: the rows of the snapshot are well formed and the effective
    batch size is positive. *)
Theorem X15_snapshot_pass_deletes_what_the_snapshot_selects
    env p fuel w rows :
  (forall op, fails env op = false) ->
  AsOfSystemTime env (pass_asOf p) = Some rows ->
  well_formed rows ->
  (0 < effective_batchsize env p)%Z ->
  length (filter (pass_sel p) rows) < fuel ->
  exists w',
    run_pass env fuel p w = Some (Ok tt, w') /\
    tables w'
    = delete_page
        (map row_stream (orderByKey (filter (pass_sel p) rows))) (tables w) /\
    log w' = log w ++
             map (pass_entry p) (orderByKey (filter (pass_sel p) rows)).
Proof.
  intros Hq Hsnap Hwf Hn Hfuel. rewrite run_pass_loop.
  assert (E : filter (where_clause (pass_sel p) zeroObjectStream) rows
              = filter (pass_sel p) rows).
  { apply filter_ext_in. intros x Hx. now apply where_clause_zero with rows. }
  destruct (@gc_loop_snapshot env (pass_asOf p) (pass_msg p) (pass_entry p)
              (pass_sel p) (effective_batchsize env p) rows Hq Hsnap Hn
              (wf_primary_key Hwf) (wf_stream_id Hwf) fuel zeroObjectStream w)
    as (w' & Hrun & Ht & Hl).
  - now rewrite E.
  - rewrite E in Ht, Hl. eauto.
Qed.

Lemma X15_witness :
  exists w',
    run_pass env_stale_read 10 (ExpiredPass (expired_opts 2)) recreated_world
    = Some (Ok tt, w') /\
    tables w'
    = delete_page [row_stream row_a; row_stream row_c]
        (tables recreated_world) /\
    log w' = log recreated_world ++ map expired_entry [row_a; row_c].
Proof.
  refine (@X15_snapshot_pass_deletes_what_the_snapshot_selects env_stale_read
            (ExpiredPass (expired_opts 2)) 10 recreated_world [row_a; row_c]
            _ _ _ _ _).
  - reflexivity.
  - reflexivity.
  - apply well_formedb_sound. vm_compute; reflexivity.
  - vm_compute; reflexivity.
  - vm_compute. lia.
Defined.

(** ** A failure before the batch *)

Lemma scan_rows_fails env msg entry q k0 rows lst acc w k :
  k < length rows -> fails env (OpScan q (k0 + k)) = true ->
  exists e w', scan_rows env msg entry q k0 rows lst acc w = (Err e, w').
Proof.
  revert k0 k lst acc w.
  induction rows as [|r rest IH]; intros k0 k lst acc w Hk Hf;
    [simpl in Hk; lia|].
  cbn [scan_rows]. destruct (fails env (OpScan q k0)) eqn:F0.
  - unfold fail. eauto.
  - destruct k as [|k]; [rewrite Nat.add_0_r in Hf; congruence|].
    unfold bind, modify. apply (IH (S k0) k).
    + simpl in Hk. lia.
    + now replace (S k0 + k) with (k0 + S k) by lia.
Qed.

Lemma turn_fails_before_batch env asOf msg entry sel c n w :
  (0 <= n)%Z ->
  fails env (OpQuery (length (queries w))) = true \/
  (exists k, k < length (select_page (read_source env asOf w) c sel n) /\
             fails env (OpScan (length (queries w)) k) = true) \/
  (select_page (read_source env asOf w) c sel n <> [] /\
   fails env (OpConn (length (batches w))) = true) ->
  exists e w',
    gc_deleteBatch env asOf msg entry sel c n w = (Err e, w') /\
    batches w' = batches w.
Proof.
  intros Hn H.
  unfold gc_deleteBatch, bind, wrapErr, QueryContext, make_objects.
  apply Z.ltb_ge in Hn. rewrite Hn. cbv beta iota.
  destruct (fails env (OpQuery (length (queries w)))) eqn:Fq; [eauto|].
  fold (read_source env asOf w).
  set (page := select_page (read_source env asOf w) c sel n) in *.
  set (w1 := add_query _ w).
  pose proof (scan_rows_frame env msg entry (length (queries w)) 0 page
                zeroObjectStream [] w1) as (_ & _ & Hb & _).
  destruct (scan_rows env msg entry (length (queries w)) 0 page
              zeroObjectStream [] w1) as [[[lst objs]|e] w2] eqn:E;
    simpl in Hb; [|eauto].
  destruct H as [H|[(k & Hk & Hf)|(Hne & Hc)]]; [discriminate H| |].
  - destruct (@scan_rows_fails env msg entry (length (queries w)) 0 page
                zeroObjectStream [] w1 k Hk Hf) as (e & w' & E').
    rewrite E' in E. discriminate E.
  - apply scan_rows_Ok in E. destruct E as (E & _ & _).
    inversion E; subst lst objs. simpl app.
    rewrite deleteObjectsAndSegments_conn_fails.
    + eauto.
    + destruct page; [congruence | discriminate].
    + now rewrite Hb.
Qed.

(** X16.  A failure before the batch deletes nothing.  When the SELECT of a
    turn fails, or the [Scan] of one of its rows, or the acquisition of the
    connection for its batch, the pass ends in that turn with the error:
    no batch is sent, both tables and both meters are as the turn found
    them, and the log holds the lines of the rows scanned until then, which
    announce deletions that did not take place. *)
Theorem X16_failure_before_the_batch_deletes_nothing env p fuel c w :
  (0 <= effective_batchsize env p)%Z ->
  fails env (OpQuery (length (queries w))) = true \/
  (exists k, k < length (next_page env p c w) /\
             fails env (OpScan (length (queries w)) k) = true) \/
  (next_page env p c w <> [] /\
   fails env (OpConn (length (batches w))) = true) ->
  exists e w',
    batch_loop (S fuel) (pass_deleteBatch env p) c (effective_batchsize env p) w
    = Some (Err e, w') /\
    pass_error (pass_msg p) e /\
    tables w' = tables w /\ batches w' = batches w /\
    object_delete w' = object_delete w /\
    segment_delete w' = segment_delete w /\
    exists j, log w' = log w ++
                       map (pass_entry p) (firstn j (next_page env p c w)).
Proof.
  intros Hn H. rewrite pass_deleteBatch_eq.
  destruct (@turn_fails_before_batch env (pass_asOf p) (pass_msg p)
              (pass_entry p) (pass_sel p) c (effective_batchsize env p) w Hn H)
    as (e & w' & E & Hb).
  exists e, w'. cbn [batch_loop]. rewrite E. split; [reflexivity|].
  split; [exact (Run_errors (Run_error _ _ _ _ E) eq_refl)|].
  apply gc_deleteBatch_cases in E.
  destruct E as [(Ht & _ & Hmo & Hms & Hl & _)|(_ & _ & _ & Hb' & _)].
  - auto 10.
  - exfalso. rewrite Hb in Hb'. apply (f_equal (@length _)) in Hb'.
    rewrite length_app in Hb'. simpl in Hb'. lia.
Qed.

Lemma X16_witness :
  exists e w',
    batch_loop 10 (pass_deleteBatch env_scan_fails (ExpiredPass (expired_opts 2)))
      zeroObjectStream 2%Z three_rows_world
    = Some (Err e, w') /\
    tables w' = tables three_rows_world /\
    length (log w') <= 2.
Proof.
  destruct (@X16_failure_before_the_batch_deletes_nothing env_scan_fails
              (ExpiredPass (expired_opts 2)) 9 zeroObjectStream
              three_rows_world)
    as (e & w' & Hrun & _ & Ht & _ & _ & _ & j & Hl).
  - vm_compute; discriminate.
  - right; left. exists 1. split; [vm_compute; lia | reflexivity].
  - exists e, w'. split; [exact Hrun|]. split; [exact Ht|].
    rewrite Hl, length_app, length_map, length_firstn.
    vm_compute (length (log three_rows_world)).
    vm_compute (length (next_page _ _ _ _)). lia.
Defined.
